(** * ANPR / PTZ pipeline: tracker, plate proposer and PTZ controller

    A shallow embedding of the perception-and-control core of the
    repository (services/vision-service and services/ptz-controller,
    shared/events/schemas.py) together with the properties its
    specification states about it.

    Numbers.  Python [float] is IEEE-754 binary64 and is embedded as Rocq's
    primitive [float], operation by operation, so a value computed here is
    the value CPython computes.  Python [int] is embedded as [Z].  Logging
    calls have no effect on the state and are left out. *)

From Stdlib Require Import ZArith List Bool Lia Sorted Floats.
From stdpp Require Import base option list gmap strings pretty.

Set Warnings "-inexact-float".

Local Open Scope Z_scope.

(* ===================================================================== *)
(** ** Python arithmetic used by the sources *)
(* ===================================================================== *)

Module Py.

(** The outcome of an expression that may raise.  The only exception the
    arithmetic of the modelled functions can raise is [ZeroDivisionError]
    (binary64 [+], [-], [*] never raise in Python; [/] raises on a zero
    divisor, of either sign). *)
Inductive result (A : Type) : Type :=
| Ok (a : A)
| ZeroDivisionError.
Arguments Ok {A} a.
Arguments ZeroDivisionError {A}.

(** [max(a, b)]: the first maximal argument (b replaces a only if b > a). *)
Definition max (a b : float) : float := if (a <? b)%float then b else a.

(** [min(a, b)]: the first minimal argument (b replaces a only if b < a). *)
Definition min (a b : float) : float := if (b <? a)%float then b else a.

(** [a / b] on floats. *)
Definition truediv (a b : float) : result float :=
  if (b =? 0)%float then ZeroDivisionError else Ok (a / b)%float.

(** Conversion of an [int] operand to [float] in mixed arithmetic:
    round-to-nearest-even, exact for every |z| <= 2^53. *)
Definition float_of_int (z : Z) : float :=
  SF2Prim (binary_normalize prec emax z 0 false).

(** [collections.deque(maxlen=n).append(x)]: append on the right and, when
    the bound is exceeded, drop from the left. *)
Definition deque_append {A : Type} (maxlen : nat) (d : list A) (x : A) : list A :=
  let d' := d ++ [x] in
  if (maxlen <? length d')%nat then tail d' else d'.

(** [d[k] = v] on an insertion-ordered [dict] kept as an association list:
    an existing key keeps its position, a new key goes last. *)
Fixpoint dict_set {V : Type} (k : Z) (v : V) (d : list (Z * V)) : list (Z * V) :=
  match d with
  | [] => [(k, v)]
  | (k', v') :: d' => if k' =? k then (k, v) :: d' else (k', v') :: dict_set k v d'
  end.

(** [del d[k]]. *)
Definition dict_del {V : Type} (k : Z) (d : list (Z * V)) : list (Z * V) :=
  List.filter (fun kv => negb (fst kv =? k)) d.

(** [min(iterable, key=key)] on an iterable whose first item is [best]:
    a later item replaces the current one only if its key is [<] the
    current key, so the first minimal item is returned. *)
Fixpoint min_key {A : Type} (key : A -> float) (best : A) (rest : list A) : A :=
  match rest with
  | [] => best
  | x :: rest' => min_key key (if (key x <? key best)%float then x else best) rest'
  end.

(** [max(iterable, key=key)] on an iterable whose first item is [best]:
    a later item replaces the current one only if its key is [>] the
    current key. *)
Fixpoint max_key {A : Type} (key : A -> float) (best : A) (rest : list A) : A :=
  match rest with
  | [] => best
  | x :: rest' => max_key key (if (key best <? key x)%float then x else best) rest'
  end.

End Py.

(* ===================================================================== *)
(** ** shared/events/schemas.py *)
(* ===================================================================== *)

Inductive VehicleClass : Type := CAR | TRUCK | BUS | MOTORCYCLE | UNKNOWN.

Module BoundingBox.

Record t : Type := mk { x1 : float; y1 : float; x2 : float; y2 : float }.

Definition center (b : t) : float * float :=
  ((x1 b + x2 b) / 2, (y1 b + y2 b) / 2)%float.

Definition width (b : t) : float := (x2 b - x1 b)%float.

Definition height (b : t) : float := (y2 b - y1 b)%float.

Definition area (b : t) : float := (width b * height b)%float.

(** The reconstruction the specification pairs with [center], [width] and
    [height]: (cx - w/2, cy - h/2, cx + w/2, cy + h/2). *)
Definition of_center (c : float * float) (w h : float) : t :=
  mk (fst c - w / 2) (snd c - h / 2) (fst c + w / 2) (snd c + h / 2)%float.

Definition roundtrip (b : t) : t := of_center (center b) (width b) (height b).

End BoundingBox.

(* ===================================================================== *)
(** ** shared/config/loader.py *)
(* ===================================================================== *)

Module ConfigLoader.

(** A value of the loaded YAML document: a mapping, or anything else (a
    scalar, a list, [None]).  Only string keys are kept: [get] and
    [get_section] look up strings, which no other key equals.  A mapping is
    an association list read by its first entry for a key. *)
#[warnings="-register-all"] Inductive Value (Scalar : Type) : Type :=
| Dict (items : list (string * Value Scalar))
| Other (scalar : Scalar).
Arguments Dict {Scalar} items.
Arguments Other {Scalar} scalar.

(** What a method returns, or the [AttributeError] of calling [.get] on a
    document that is not a mapping. *)
Inductive outcome (A : Type) : Type :=
| Returned (a : A)
| AttributeError.
Arguments Returned {A} a.
Arguments AttributeError {A}.

Section Document.

Context {Scalar : Type}.

(** [key in value] and [value[key]] on a mapping. *)
Fixpoint lookup (key : string) (items : list (string * Value Scalar))
    : option (Value Scalar) :=
  match items with
  | [] => None
  | (k, v) :: rest => if String.eqb k key then Some v else lookup key rest
  end.

(** The character '.' (code 46). *)
Definition dot : Ascii.ascii := Ascii.Ascii false true true true false true false false.

(** [key_path.split('.')]. *)
Fixpoint split (key_path : string) : list string :=
  match key_path with
  | EmptyString => [EmptyString]
  | String c rest =>
      if Ascii.eqb c dot then EmptyString :: split rest
      else
        match split rest with
        | first :: others => String c first :: others
        | [] => [String c EmptyString]
        end
  end.

(** The loop of [get] over the keys. *)
Fixpoint walk (keys : list string) (value default : Value Scalar) : Value Scalar :=
  match keys with
  | [] => value
  | key :: rest =>
      match value with
      | Dict items =>
          match lookup key items with
          | Some v => walk rest v default
          | None => default
          end
      | Other _ => default
      end
  end.

(** [ConfigLoader.get] on the loaded document [_config]. *)
Definition get (_config : Value Scalar) (key_path : string) (default : Value Scalar)
    : Value Scalar :=
  walk (split key_path) _config default.

(** [ConfigLoader.get_section]: [self._config.get(section, {})]. *)
Definition get_section (_config : Value Scalar) (section : string)
    : outcome (Value Scalar) :=
  match _config with
  | Dict items =>
      match lookup section items with
      | Some v => Returned v
      | None => Returned (Dict [])
      end
  | Other _ => AttributeError
  end.

End Document.

End ConfigLoader.

(* ===================================================================== *)
(** ** services/vision-service/detector.py, the class table *)
(* ===================================================================== *)

Module VehicleDetector.

(** [VEHICLE_CLASSES], the dict display of lines 23-29: its items are
    assigned in order, so a key written twice keeps its first position and
    its last value. *)
Definition VEHICLE_CLASSES : list (Z * VehicleClass) :=
  fold_left (fun d kv => Py.dict_set (fst kv) (snd kv) d)
            [(2, CAR); (3, CAR); (5, BUS); (7, TRUCK); (3, MOTORCYCLE)] [].

(** [list(self.VEHICLE_CLASSES.keys())], the classes [detect] asks the
    model for. *)
Definition requested_classes : list Z := map fst VEHICLE_CLASSES.

(** [self.VEHICLE_CLASSES.get(class_id, VehicleClass.UNKNOWN)] (lines
    108-111). *)
Definition vehicle_class_of (class_id : Z) : VehicleClass :=
  match List.find (fun kv => fst kv =? class_id) VEHICLE_CLASSES with
  | Some (_, vehicle_class) => vehicle_class
  | None => UNKNOWN
  end.

End VehicleDetector.

(* ===================================================================== *)
(** ** services/vision-service/tracker.py *)
(* ===================================================================== *)

Module Track.

Record t : Type := mk {
  track_id : Z;
  bbox : BoundingBox.t;
  vehicle_class : VehicleClass;
  confidence : float;
  age : Z;                              (* frames since creation *)
  hits : Z;                             (* number of associated detections *)
  time_since_update : Z;                (* frames since last update *)
  max_history : nat;                    (* maxlen of the trajectory deque *)
  trajectory : list (float * float);
  velocity : float * float
}.

(** [Track.__init__]. *)
Definition init (track_id : Z) (bbox : BoundingBox.t) (vehicle_class : VehicleClass)
    (confidence : float) (max_history : nat) : t :=
  {| track_id := track_id;
     bbox := bbox;
     vehicle_class := vehicle_class;
     confidence := confidence;
     age := 0;
     hits := 1;
     time_since_update := 0;
     max_history := max_history;
     trajectory := Py.deque_append max_history [] (BoundingBox.center bbox);
     velocity := (0, 0)%float |}.

(** The default [max_history = 30]. *)
Definition new (track_id : Z) (bbox : BoundingBox.t) (vehicle_class : VehicleClass)
    (confidence : float) : t :=
  init track_id bbox vehicle_class confidence 30.

(** [Track.update]. *)
Definition update (self : t) (bbox : BoundingBox.t) (confidence : float) : t :=
  let center := BoundingBox.center bbox in
  let trajectory' := Py.deque_append (max_history self) (trajectory self) center in
  let velocity' :=
    if (2 <=? length trajectory')%nat then
      match trajectory' !! (length trajectory' - 2)%nat with
      | Some prev_center =>
          (fst center - fst prev_center, snd center - snd prev_center)%float
      | None => velocity self
      end
    else velocity self in
  {| track_id := track_id self;
     bbox := bbox;
     vehicle_class := vehicle_class self;
     confidence := confidence;
     age := age self;
     hits := hits self + 1;
     time_since_update := 0;
     max_history := max_history self;
     trajectory := trajectory';
     velocity := velocity' |}.

(** [self.velocity != (0.0, 0.0)]: tuples differ when some component
    differs under [==]. *)
Definition velocity_nonzero (v : float * float) : bool :=
  negb ((fst v =? 0)%float && (snd v =? 0)%float).

(** [Track.predict]. *)
Definition predict (self : t) : t :=
  let bbox' :=
    if velocity_nonzero (velocity self) then
      let '(vx, vy) := velocity self in
      BoundingBox.mk (BoundingBox.x1 (bbox self) + vx) (BoundingBox.y1 (bbox self) + vy)
                     (BoundingBox.x2 (bbox self) + vx) (BoundingBox.y2 (bbox self) + vy)%float
    else bbox self in
  {| track_id := track_id self;
     bbox := bbox';
     vehicle_class := vehicle_class self;
     confidence := confidence self;
     age := age self + 1;
     hits := hits self;
     time_since_update := time_since_update self + 1;
     max_history := max_history self;
     trajectory := trajectory self;
     velocity := velocity self |}.

End Track.

(** A detection: (bbox, class, confidence). *)
Definition Detection : Type := BoundingBox.t * VehicleClass * float.

Module VehicleTracker.

(** [self.tracks] is a [dict]; the association loop iterates it in
    insertion order, so it is kept as an association list in that order. *)
Record t : Type := mk {
  max_age : Z;
  min_hits : Z;
  iou_threshold : float;
  tracks : list (Z * Track.t);
  next_id : Z
}.

(** [VehicleTracker.__init__] for a given tracking configuration. *)
Definition init (max_age min_hits : Z) (iou_threshold : float) : t :=
  mk max_age min_hits iou_threshold [] 1.

(** [calculate_iou]. *)
Definition calculate_iou (bbox1 bbox2 : BoundingBox.t) : float :=
  let x1 := Py.max (BoundingBox.x1 bbox1) (BoundingBox.x1 bbox2) in
  let y1 := Py.max (BoundingBox.y1 bbox1) (BoundingBox.y1 bbox2) in
  let x2 := Py.min (BoundingBox.x2 bbox1) (BoundingBox.x2 bbox2) in
  let y2 := Py.min (BoundingBox.y2 bbox1) (BoundingBox.y2 bbox2) in
  if (x2 <? x1)%float || (y2 <? y1)%float then 0%float
  else
    let intersection := ((x2 - x1) * (y2 - y1))%float in
    let area1 := BoundingBox.area bbox1 in
    let area2 := BoundingBox.area bbox2 in
    let union := (area1 + area2 - intersection)%float in
    if (union =? 0)%float then 0%float
    else (intersection / union)%float.

(** One iteration of the inner loop of [_associate_detections] (lines
    189-197) on the pair (best_iou, best_det_idx). *)
Definition scan_step (thr : float) (track_bbox : BoundingBox.t) (used : gset Z)
    (best : float * Z) (det_idx : Z) (det : Detection) : float * Z :=
  if decide (det_idx ∈ used) then best
  else
    let iou := calculate_iou track_bbox (fst (fst det)) in
    if (fst best <? iou)%float && (thr <? iou)%float then (iou, det_idx) else best.

(** The inner loop over [enumerate(detections)], from index [det_idx]. *)
Fixpoint scan (thr : float) (track_bbox : BoundingBox.t) (used : gset Z)
    (best : float * Z) (det_idx : Z) (detections : list Detection) : float * Z :=
  match detections with
  | [] => best
  | det :: rest =>
      scan thr track_bbox used (scan_step thr track_bbox used best det_idx det)
           (det_idx + 1) rest
  end.

(** The whole inner loop, started at best_iou = 0.0, best_det_idx = -1. *)
Definition best_detection (thr : float) (track_bbox : BoundingBox.t) (used : gset Z)
    (detections : list Detection) : float * Z :=
  scan thr track_bbox used (0%float, -1) 0 detections.

(** The loop over [self.tracks.items()] (lines 185-204).  It returns the
    tracks after the in-place updates, the final [used_detections], and the
    matches in the order they were made; next to each matched track id the
    list records the detection index that line 203 adds to
    [used_detections], so [matched_track_ids] is its first projection. *)
Fixpoint match_tracks (thr : float) (detections : list Detection)
    (trs : list (Z * Track.t)) (used : gset Z)
    : list (Z * Track.t) * gset Z * list (Z * Z) :=
  match trs with
  | [] => ([], used, [])
  | (track_id, track) :: rest =>
      let best_det_idx := snd (best_detection thr (Track.bbox track) used detections) in
      if 0 <=? best_det_idx then
        match detections !! Z.to_nat best_det_idx with
        | Some (bbox, _, conf) =>
            let '(rest', used', matches) :=
              match_tracks thr detections rest ({[best_det_idx]} ∪ used) in
            ((track_id, Track.update track bbox conf) :: rest', used',
             (track_id, best_det_idx) :: matches)
        | None =>
            (* detections[best_det_idx] out of range: never the case, see
               [best_detection_range] *)
            let '(rest', used', matches) := match_tracks thr detections rest used in
            ((track_id, track) :: rest', used', matches)
        end
      else
        let '(rest', used', matches) := match_tracks thr detections rest used in
        ((track_id, track) :: rest', used', matches)
  end.

(** The spawning loop (lines 207-216) over [enumerate(detections)]. *)
Fixpoint spawn (used : gset Z) (det_idx : Z) (detections : list Detection)
    (trs : list (Z * Track.t)) (next_id : Z) : list (Z * Track.t) * Z :=
  match detections with
  | [] => (trs, next_id)
  | (bbox, vehicle_class, conf) :: rest =>
      if decide (det_idx ∈ used) then spawn used (det_idx + 1) rest trs next_id
      else
        spawn used (det_idx + 1) rest
              (Py.dict_set next_id (Track.new next_id bbox vehicle_class conf) trs)
              (next_id + 1)
  end.

(** [_associate_detections]: the new tracker and [matched_track_ids]. *)
Definition _associate_detections (self : t) (detections : list Detection)
    : t * list Z :=
  let '(trs, used, matches) :=
    match_tracks (iou_threshold self) detections (tracks self) ∅ in
  let '(trs', next_id') := spawn used 0 detections trs (next_id self) in
  (mk (max_age self) (min_hits self) (iou_threshold self) trs' next_id',
   map fst matches).

(** [_remove_dead_tracks]: collect the dead ids, then delete each. *)
Definition dead_track_ids (self : t) : list Z :=
  map fst (List.filter (fun kv => max_age self <? Track.time_since_update (snd kv))
                       (tracks self)).

Definition _remove_dead_tracks (self : t) : t :=
  mk (max_age self) (min_hits self) (iou_threshold self)
     (fold_left (fun d k => Py.dict_del k d) (dead_track_ids self) (tracks self))
     (next_id self).

(** [VehicleTracker.update]: the new tracker and the confirmed tracks. *)
Definition update (self : t) (detections : list Detection) : t * list Track.t :=
  let predicted :=
    mk (max_age self) (min_hits self) (iou_threshold self)
       (map (fun kv => (fst kv, Track.predict (snd kv))) (tracks self))
       (next_id self) in
  let '(associated, matched_tracks) :=
    if (length detections =? 0)%nat then (predicted, [])
    else _associate_detections predicted detections in
  let alive := _remove_dead_tracks associated in
  (alive,
   List.filter (fun track => min_hits alive <=? Track.hits track)
               (map snd (tracks alive))).

(** [get_track]: [self.tracks.get(track_id)]. *)
Definition get_track (self : t) (track_id : Z) : option Track.t :=
  option_map snd (List.find (fun kv => fst kv =? track_id) (tracks self)).

(** [get_all_tracks]: [list(self.tracks.values())]. *)
Definition get_all_tracks (self : t) : list Track.t := map snd (tracks self).

(** The tracker states a run can reach: the initial one, then any number
    of [update] calls. *)
Inductive reachable : t -> Prop :=
| reachable_init max_age min_hits iou_threshold :
    reachable (init max_age min_hits iou_threshold)
| reachable_update self detections :
    reachable self -> reachable (fst (update self detections)).

End VehicleTracker.

(* ===================================================================== *)
(** ** services/vision-service/plate_proposer.py *)
(* ===================================================================== *)

Module PlateProposer.

(** The two pixel thresholds are configured as integers (150 and 200 by
    default) and only ever compared with, or divided by, a float; they are
    kept as the binary64 value of the configured number.
    [stable_tracks] is the dict track_id -> frame_count. *)
Record t : Type := mk {
  min_plate_height : float;
  target_plate_height : float;
  stability_frames : Z;
  stable_tracks : gmap Z Z
}.

(** [PlateProposer.__init__] for a given ANPR configuration. *)
Definition init (min_plate_height target_plate_height : float) (stability_frames : Z) : t :=
  mk min_plate_height target_plate_height stability_frames ∅.

(** The stability counter of a track id, 0 when the dict has no entry. *)
Definition counter (self : t) (track_id : Z) : Z :=
  default 0 (stable_tracks self !! track_id).

(** [estimate_plate_region]. *)
Definition estimate_plate_region (track : Track.t) : BoundingBox.t :=
  let vehicle_bbox := Track.bbox track in
  let plate_height := (BoundingBox.height vehicle_bbox * 0.15)%float in
  let plate_width := (BoundingBox.width vehicle_bbox * 0.6)%float in
  let plate_x1 :=
    (BoundingBox.x1 vehicle_bbox + (BoundingBox.width vehicle_bbox - plate_width) / 2)%float in
  let plate_y1 :=
    (BoundingBox.y2 vehicle_bbox - BoundingBox.height vehicle_bbox * 0.25)%float in
  let plate_x2 := (plate_x1 + plate_width)%float in
  let plate_y2 := (plate_y1 + plate_height)%float in
  BoundingBox.mk plate_x1 plate_y1 plate_x2 plate_y2.

(** [is_ready_for_capture]: the proposer after the call and either the
    returned pair (is_ready, zoom_factor_needed) or the exception raised by
    the division. *)
Definition is_ready_for_capture (self : t) (track : Track.t) (plate_bbox : BoundingBox.t)
    : t * Py.result (bool * float) :=
  let current_height := BoundingBox.height plate_bbox in
  if (current_height <? min_plate_height self)%float then
    match Py.truediv (target_plate_height self) current_height with
    | Py.Ok zoom_factor => (self, Py.Ok (false, zoom_factor))
    | Py.ZeroDivisionError => (self, Py.ZeroDivisionError)
    end
  else
    let track_id := Track.track_id track in
    let stable0 :=
      match stable_tracks self !! track_id with
      | None => <[track_id := 0]> (stable_tracks self)
      | Some _ => stable_tracks self
      end in
    let count := default 0 (stable0 !! track_id) + 1 in
    let self' :=
      mk (min_plate_height self) (target_plate_height self) (stability_frames self)
         (<[track_id := count]> stable0) in
    if count <? stability_frames self then (self', Py.Ok (false, 1%float))
    else if (target_plate_height self <=? current_height)%float then
      (self', Py.Ok (true, 1%float))
    else
      match Py.truediv (target_plate_height self) current_height with
      | Py.Ok zoom_factor => (self', Py.Ok (false, zoom_factor))
      | Py.ZeroDivisionError => (self', Py.ZeroDivisionError)
      end.

(** [reset_stability]. *)
Definition reset_stability (self : t) (track_id : Z) : t :=
  mk (min_plate_height self) (target_plate_height self) (stability_frames self)
     (delete track_id (stable_tracks self)).

(** [cleanup_old_tracks]. *)
Definition cleanup_old_tracks (self : t) (active_track_ids : gset Z) : t :=
  mk (min_plate_height self) (target_plate_height self) (stability_frames self)
     (filter (fun kv => fst kv ∈ active_track_ids) (stable_tracks self)).

End PlateProposer.

(* ===================================================================== *)
(** ** services/vision-service/prioritizer.py *)
(* ===================================================================== *)

Module TargetPrioritizer.

(** Two library functions the module calls are taken as given: [pow2 x]
    is the value of [x ** 2] on a float (CPython hands it to the platform's
    [pow]), and [contains polygon point] is shapely's
    [polygon.contains(Point(point))].  [np.sqrt] is the IEEE square root,
    and a division of numpy floats never raises. *)
Section Libraries.

Variable Polygon : Type.
Variable pow2 : float -> float.
Variable contains : Polygon -> float * float -> bool.

(** An entry of [self.roi_zones]. *)
Record Zone : Type := mkZone {
  zone_name : option string;
  polygon : Polygon;
  weight : float
}.

(** [self.weights], with its four keys. *)
Record Weights : Type := mkWeights {
  proximity : float;
  roi : float;
  speed : float;
  novelty : float
}.

(** [min_target_size] is configured as a whole number of pixels and only
    compared with a float; it is kept as the binary64 value of that number. *)
Record t : Type := mk {
  strategy : string;
  weights : Weights;
  roi_zones : list Zone;
  min_target_size : float;
  tracked_ids : gset Z
}.

(** [distance_to_center] of [_select_by_proximity], and the distance of
    [_select_weighted]. *)
Definition distance_to_center (center_x center_y : float) (track : Track.t) : float :=
  let '(tx, ty) := BoundingBox.center (Track.bbox track) in
  sqrt (pow2 (tx - center_x) + pow2 (ty - center_y)).

(** [_select_by_proximity]; [min] of an empty list raises [ValueError],
    rendered as [None]: [select_target] never passes one. *)
Definition _select_by_proximity (tracks : list Track.t) (frame_width frame_height : Z)
    : option Track.t :=
  let center_x := (Py.float_of_int frame_width / 2)%float in
  let center_y := (Py.float_of_int frame_height / 2)%float in
  match tracks with
  | [] => None
  | first :: rest => Some (Py.min_key (distance_to_center center_x center_y) first rest)
  end.

(** The body of the inner loop of [_select_by_roi] on the pair
    (best_track, best_weight). *)
Definition roi_step (track : Track.t) (best : option Track.t * float) (zone : Zone)
    : option Track.t * float :=
  if contains (polygon zone) (BoundingBox.center (Track.bbox track)) then
    if (snd best <? weight zone)%float then (Some track, weight zone) else best
  else best.

(** [_select_by_roi]. *)
Definition _select_by_roi (self : t) (tracks : list Track.t) : option Track.t :=
  let best :=
    fold_left (fun best track => fold_left (roi_step track) (roi_zones self) best)
              tracks (None, 0%float) in
  match fst best with
  | Some track => Some track
  | None => head tracks
  end.

(** The score [_select_weighted] gives a track. *)
Definition score (self : t) (center_x center_y : float) (track : Track.t) : float :=
  let distance := distance_to_center center_x center_y track in
  let max_distance := sqrt (pow2 center_x + pow2 center_y) in
  let proximity_score := (1 - distance / max_distance)%float in
  let score := (0 + proximity (weights self) * proximity_score)%float in
  let roi_score :=
    match List.find (fun zone => contains (polygon zone)
                                   (BoundingBox.center (Track.bbox track)))
                    (roi_zones self) with
    | Some zone => weight zone
    | None => 0%float
    end in
  let score := (score + roi (weights self) * roi_score)%float in
  let '(vx, vy) := Track.velocity track in
  let speed_value := sqrt (pow2 vx + pow2 vy) in
  let speed_score := Py.min 1 (speed_value / 20) in
  let score := (score + speed (weights self) * speed_score)%float in
  let novelty_score :=
    if decide (Track.track_id track ∈ tracked_ids self) then 0%float else 1%float in
  (score + novelty (weights self) * novelty_score)%float.

(** [_select_weighted]: [max(scores, key=lambda x: x[1])] over the pairs
    (track, score), which is the track of the first maximal score. *)
Definition _select_weighted (self : t) (tracks : list Track.t) (frame_width frame_height : Z)
    : option Track.t :=
  let center_x := (Py.float_of_int frame_width / 2)%float in
  let center_y := (Py.float_of_int frame_height / 2)%float in
  match tracks with
  | [] => None
  | first :: rest => Some (Py.max_key (score self center_x center_y) first rest)
  end.

(** The tracks [select_target] keeps: those at least [min_target_size] high. *)
Definition valid_tracks (self : t) (tracks : list Track.t) : list Track.t :=
  List.filter
    (fun track => (min_target_size self <=? BoundingBox.height (Track.bbox track))%float)
    tracks.

(** [select_target]. *)
Definition select_target (self : t) (tracks : list Track.t) (frame_width frame_height : Z)
    : option Track.t :=
  match tracks with
  | [] => None
  | _ :: _ =>
      match valid_tracks self tracks with
      | [] => None
      | first :: _ =>
          if String.eqb (strategy self) "proximity" then
            _select_by_proximity (valid_tracks self tracks) frame_width frame_height
          else if String.eqb (strategy self) "roi" then
            _select_by_roi self (valid_tracks self tracks)
          else if String.eqb (strategy self) "weighted" then
            _select_weighted self (valid_tracks self tracks) frame_width frame_height
          else Some first
      end
  end.

(** [mark_tracked]. *)
Definition mark_tracked (self : t) (track_id : Z) : t :=
  mk (strategy self) (weights self) (roi_zones self) (min_target_size self)
     ({[track_id]} ∪ tracked_ids self).

End Libraries.

End TargetPrioritizer.

(* ===================================================================== *)
(** ** services/vision-service/main.py, the target branch of the loop *)
(* ===================================================================== *)

Module VisionMain.

(** Lines 164-182: with a target selected, reset the proposer's counter of
    the new id when the target changed, estimate the plate and ask for
    readiness.  The state is [current_target_id] and the proposer. *)
Definition on_target (current_target_id : option Z) (plate_proposer : PlateProposer.t)
    (target : Track.t)
    : option Z * PlateProposer.t * Py.result (bool * float) :=
  let changed :=
    match current_target_id with
    | Some id => negb (id =? Track.track_id target)
    | None => true
    end in
  let current_target_id' :=
    if changed then Some (Track.track_id target) else current_target_id in
  let plate_proposer1 :=
    if changed then PlateProposer.reset_stability plate_proposer (Track.track_id target)
    else plate_proposer in
  let plate_bbox := PlateProposer.estimate_plate_region target in
  let '(plate_proposer2, verdict) :=
    PlateProposer.is_ready_for_capture plate_proposer1 target plate_bbox in
  (current_target_id', plate_proposer2, verdict).

(** The loop body from the tracker update to the readiness verdict (lines
    139-145, 161-182 and 231-235), for the detections of one frame: the
    tracker is updated, the proposer forgets the ids that were not
    returned, a target is selected and, if there is one, [on_target] runs.
    The calls that publish events are left out (they are taken to return);
    what follows the verdict (the crop, the ANPR request, [mark_tracked],
    the PTZ event) is not part of this fragment.  The value is the list of
    returned tracks and, with a target, the target and the verdict. *)
Section Frame.

Variable Polygon : Type.
Variable pow2 : float -> float.
Variable contains : Polygon -> float * float -> bool.

Record State : Type := mkState {
  tracker : VehicleTracker.t;
  plate_proposer : PlateProposer.t;
  current_target_id : option Z
}.

Definition frame (prioritizer : TargetPrioritizer.t Polygon) (st : State)
    (detections : list Detection) (frame_width frame_height : Z)
    : State * (list Track.t * option (Track.t * Py.result (bool * float))) :=
  let '(tracker', tracks) := VehicleTracker.update (tracker st) detections in
  let active_track_ids : gset Z := list_to_set (map Track.track_id tracks) in
  let plate_proposer1 := PlateProposer.cleanup_old_tracks (plate_proposer st) active_track_ids in
  match TargetPrioritizer.select_target Polygon pow2 contains prioritizer tracks
          frame_width frame_height with
  | Some target =>
      let '(current_target_id', plate_proposer2, verdict) :=
        on_target (current_target_id st) plate_proposer1 target in
      (mkState tracker' plate_proposer2 current_target_id', (tracks, Some (target, verdict)))
  | None =>
      (mkState tracker' plate_proposer1 None, (tracks, None))
  end.

End Frame.

End VisionMain.

(* ===================================================================== *)
(** ** services/ptz-controller: the objects and what surrounds them *)
(* ===================================================================== *)

(** The outside of the controller process: the wall clock read by
    [time.time()] and the ONVIF device behind [ptz_service].  Of the
    exceptions a request can raise only [Fault], the one the client
    catches, is represented. *)
Module World.

(** A preset as [get_presets] returns it. *)
Record Preset : Type := mkPreset {
  token : string;
  name : string;
  preset_pan : float;
  preset_tilt : float;
  preset_zoom : float
}.

(** The service requests the modelled methods send. *)
Inductive Request : Type :=
| GetStatus
| RelativeMove (pan tilt zoom speed : float)
| GotoPreset (preset_token : string).

(** A motion command, as opposed to a status query. *)
Definition is_motion (r : Request) : bool :=
  match r with GetStatus => false | _ => true end.

Definition is_goto_preset (r : Request) : bool :=
  match r with GotoPreset _ => true | _ => false end.

(** [clock k] is what the k-th call of [time.time()] returns, [faults k]
    tells whether the device answers the k-th request with a [Fault], and
    [wire] lists the requests sent so far, oldest first. *)
Record t : Type := mk {
  clock : nat -> float;
  reads : nat;
  faults : nat -> bool;
  wire : list Request
}.

End World.

Module Obj.

(** The state of a [PTZClient] (the connection handles are left out). *)
Record PTZClient : Type := mkPTZClient {
  last_move_time : float;
  move_rate_limit_s : float
}.

(** The state of a [PresetManager]; its [ptz] attribute is the shared
    client of the heap below. *)
Record PresetManager : Type := mkPresetManager {
  presets : list World.Preset;
  current_preset_idx : Z;
  idle_enabled : bool;
  idle_timeout_s : float;
  default_preset_id : Z;
  sweep_enabled : bool;
  sweep_interval_s : float;
  last_activity_time : float;
  is_idle : bool;
  running : bool
}.

(** The state of a [PTZController]; its [ptz] and [preset_mgr] attributes
    are the shared objects of the heap below. *)
Record PTZController : Type := mkPTZController {
  hysteresis_pixels : float;
  pan_speed : float;
  tilt_speed : float;
  zoom_step : float;
  last_target_position : option (float * float);
  current_zoom : float
}.

End Obj.

(** The three objects of the controller service refer to each other (the
    controller and the preset manager hold the same client), so they live
    in one store together with the world. *)
Record Heap : Type := mkHeap {
  world : World.t;
  ptz : Obj.PTZClient;
  preset_mgr : Obj.PresetManager;
  controller : Obj.PTZController
}.

(** Computations on the store. *)
Definition M (A : Type) : Type := Heap -> A * Heap.

Definition ret {A : Type} (a : A) : M A := fun h => (a, h).

Definition bind {A B : Type} (m : M A) (k : A -> M B) : M B :=
  fun h => let '(a, h') := m h in k a h'.

Notation "'let*' x ':=' m 'in' k" := (bind m (fun x => k))
  (at level 10, x name, m at level 100, k at level 200).
Notation "m ';;' k" := (bind m (fun _ => k))
  (at level 100, k at level 200, right associativity).

Definition get : M Heap := fun h => (h, h).

Definition set_world (w : World.t) : M unit :=
  fun h => (tt, mkHeap w (ptz h) (preset_mgr h) (controller h)).

Definition set_ptz (c : Obj.PTZClient) : M unit :=
  fun h => (tt, mkHeap (world h) c (preset_mgr h) (controller h)).

Definition set_preset_mgr (p : Obj.PresetManager) : M unit :=
  fun h => (tt, mkHeap (world h) (ptz h) p (controller h)).

Definition set_controller (c : Obj.PTZController) : M unit :=
  fun h => (tt, mkHeap (world h) (ptz h) (preset_mgr h) c).

(** [time.time()]. *)
Definition time_time : M float :=
  let* h := get in
  let w := world h in
  set_world (World.mk (World.clock w) (S (World.reads w)) (World.faults w) (World.wire w)) ;;
  ret (World.clock w (World.reads w)).

(** A request to [ptz_service]: [true] when it returns, [false] when it
    raises [Fault].  Either way the request has gone out. *)
Definition send (r : World.Request) : M bool :=
  let* h := get in
  let w := world h in
  set_world (World.mk (World.clock w) (World.reads w) (World.faults w) (World.wire w ++ [r])) ;;
  ret (negb (World.faults w (length (World.wire w)))).

(** [time.sleep(seconds)]: no attribute changes; the time that passes
    shows in what the later readings of the clock return. *)
Definition time_sleep (seconds : float) : M unit := ret tt.

(* ===================================================================== *)
(** ** services/ptz-controller/onvif_client.py *)
(* ===================================================================== *)

Module PTZClient.

(** [_check_rate_limit]. *)
Definition _check_rate_limit : M bool :=
  let* current_time := time_time in
  let* h := get in
  let elapsed := (current_time - Obj.last_move_time (ptz h))%float in
  if (elapsed <? Obj.move_rate_limit_s (ptz h))%float then ret false
  else ret true.

(** [self.last_move_time = time.time()]. *)
Definition touch_last_move_time : M unit :=
  let* now := time_time in
  let* h := get in
  set_ptz (Obj.mkPTZClient now (Obj.move_rate_limit_s (ptz h))).

(** [max(lo, min(hi, x))]. *)
Definition clamp (lo hi x : float) : float := Py.max lo (Py.min hi x).

(** [relative_move].  The [try] block asks the device for its status twice
    (to obtain the Translation and Speed containers) and then sends the
    move; a [Fault] anywhere in it is caught and gives [False]. *)
Definition relative_move (pan tilt zoom speed : float) : M bool :=
  let* allowed := _check_rate_limit in
  if negb allowed then ret false
  else
    let* ok1 := send World.GetStatus in
    if negb ok1 then ret false
    else
      let* ok2 := send World.GetStatus in
      if negb ok2 then ret false
      else
        let* ok3 := send (World.RelativeMove (clamp (-1) 1 pan) (clamp (-1) 1 tilt)
                                             (clamp (-1) 1 zoom) speed) in
        if negb ok3 then ret false
        else touch_last_move_time ;; ret true.

(** [goto_preset]. *)
Definition goto_preset (preset_token : string) : M bool :=
  let* allowed := _check_rate_limit in
  if negb allowed then ret false
  else
    let* ok := send (World.GotoPreset preset_token) in
    if negb ok then ret false
    else touch_last_move_time ;; ret true.

End PTZClient.

(* ===================================================================== *)
(** ** services/ptz-controller/preset_manager.py *)
(* ===================================================================== *)

Module PresetManager.

Definition set_last_activity_time (v : float) (p : Obj.PresetManager) : Obj.PresetManager :=
  Obj.mkPresetManager (Obj.presets p) (Obj.current_preset_idx p) (Obj.idle_enabled p)
    (Obj.idle_timeout_s p) (Obj.default_preset_id p) (Obj.sweep_enabled p)
    (Obj.sweep_interval_s p) v (Obj.is_idle p) (Obj.running p).

Definition set_is_idle (v : bool) (p : Obj.PresetManager) : Obj.PresetManager :=
  Obj.mkPresetManager (Obj.presets p) (Obj.current_preset_idx p) (Obj.idle_enabled p)
    (Obj.idle_timeout_s p) (Obj.default_preset_id p) (Obj.sweep_enabled p)
    (Obj.sweep_interval_s p) (Obj.last_activity_time p) v (Obj.running p).

Definition set_current_preset_idx (v : Z) (p : Obj.PresetManager) : Obj.PresetManager :=
  Obj.mkPresetManager (Obj.presets p) v (Obj.idle_enabled p)
    (Obj.idle_timeout_s p) (Obj.default_preset_id p) (Obj.sweep_enabled p)
    (Obj.sweep_interval_s p) (Obj.last_activity_time p) (Obj.is_idle p) (Obj.running p).

(** [mark_activity]. *)
Definition mark_activity : M unit :=
  let* now := time_time in
  let* h := get in
  set_preset_mgr (set_last_activity_time now (preset_mgr h)) ;;
  let* h := get in
  if Obj.is_idle (preset_mgr h) then set_preset_mgr (set_is_idle false (preset_mgr h))
  else ret tt.

(** [str(preset_id)]. *)
Definition str (preset_id : Z) : string := pretty preset_id.

(** [goto_preset_by_id]. *)
Definition goto_preset_by_id (preset_id : Z) : M bool :=
  let* h := get in
  let preset :=
    List.find (fun p => String.eqb (World.token p) (str preset_id))
              (Obj.presets (preset_mgr h)) in
  match preset with
  | None => ret false
  | Some _ =>
      let* success := PTZClient.goto_preset (str preset_id) in
      (if success then mark_activity else ret tt) ;;
      ret success
  end.

(** [next_preset]. *)
Definition next_preset : M bool :=
  let* h := get in
  let p := preset_mgr h in
  match Obj.presets p with
  | [] => ret false
  | _ =>
      let idx := (Obj.current_preset_idx p + 1) mod Z.of_nat (length (Obj.presets p)) in
      set_preset_mgr (set_current_preset_idx idx p) ;;
      match Obj.presets p !! Z.to_nat idx with
      | Some preset => PTZClient.goto_preset (World.token preset)
      | None => ret false
      end
  end.

(** The loop of [startup_sweep] over [self.presets]. *)
Fixpoint sweep_presets (presets : list World.Preset) : M unit :=
  match presets with
  | [] => ret tt
  | preset :: rest =>
      PTZClient.goto_preset (World.token preset) ;;
      time_sleep 2 ;;
      sweep_presets rest
  end.

(** [startup_sweep]. *)
Definition startup_sweep : M unit :=
  let* h := get in
  match Obj.presets (preset_mgr h) with
  | [] => ret tt
  | _ :: _ => sweep_presets (Obj.presets (preset_mgr h))
  end.

(** One pass through the body of the [while self.running] loop of
    [_idle_monitor_loop]; the value is the duration of the [time.sleep]
    that ends the pass.  The loop runs in a thread of its own; a pass is
    taken here as one step on the store, not interleaved with the commands
    of the main thread. *)
Definition idle_monitor_tick : M float :=
  let* current_time := time_time in
  let* h := get in
  let p := preset_mgr h in
  let elapsed_since_activity := (current_time - Obj.last_activity_time p)%float in
  (if Obj.idle_enabled p && (Obj.idle_timeout_s p <? elapsed_since_activity)%float then
     if negb (Obj.is_idle p) then
       set_preset_mgr (set_is_idle true p) ;;
       if negb (Obj.default_preset_id p =? 0) then
         goto_preset_by_id (Obj.default_preset_id p) ;; ret tt
       else ret tt
     else ret tt
   else ret tt) ;;
  let* h := get in
  let p := preset_mgr h in
  if Obj.sweep_enabled p && Obj.is_idle p then
    next_preset ;; ret (Obj.sweep_interval_s p)
  else ret 1%float.

(** [_idle_monitor_loop] for at most [n] passes. *)
Fixpoint _idle_monitor_loop (n : nat) : M unit :=
  match n with
  | O => ret tt
  | S n' =>
      let* h := get in
      if Obj.running (preset_mgr h) then idle_monitor_tick ;; _idle_monitor_loop n'
      else ret tt
  end.

End PresetManager.

(* ===================================================================== *)
(** ** services/ptz-controller/controller.py *)
(* ===================================================================== *)

Module PTZController.

Definition set_last_target_position (v : option (float * float)) (c : Obj.PTZController)
    : Obj.PTZController :=
  Obj.mkPTZController (Obj.hysteresis_pixels c) (Obj.pan_speed c) (Obj.tilt_speed c)
    (Obj.zoom_step c) v (Obj.current_zoom c).

Definition set_current_zoom (v : float) (c : Obj.PTZController) : Obj.PTZController :=
  Obj.mkPTZController (Obj.hysteresis_pixels c) (Obj.pan_speed c) (Obj.tilt_speed c)
    (Obj.zoom_step c) (Obj.last_target_position c) v.

(** [PTZController.__init__] on a client and a preset manager, for a given
    control configuration. *)
Definition init (hysteresis_pixels pan_speed tilt_speed zoom_step : float)
    : Obj.PTZController :=
  Obj.mkPTZController hysteresis_pixels pan_speed tilt_speed zoom_step None 0.

(** The dead-zone test of lines 74-77; without a recorded position the
    outer [if] fails and there is no test. *)
Definition within_hysteresis (c : Obj.PTZController) (target_x target_y : float) : bool :=
  match Obj.last_target_position c with
  | Some (last_x, last_y) =>
      (abs (target_x - last_x) <? Obj.hysteresis_pixels c)%float
      && (abs (target_y - last_y) <? Obj.hysteresis_pixels c)%float
  | None => false
  end.

(** [point_to_target]; [frame_width] and [frame_height] are ints. *)
Definition point_to_target (target_x target_y : float) (frame_width frame_height : Z)
    (track_id : option Z) : M (Py.result bool) :=
  let center_x := (Py.float_of_int frame_width / 2)%float in
  let center_y := (Py.float_of_int frame_height / 2)%float in
  let offset_x := (target_x - center_x)%float in
  let offset_y := (target_y - center_y)%float in
  let* h := get in
  if within_hysteresis (controller h) target_x target_y then ret (Py.Ok false)
  else
    match Py.truediv offset_x (Py.float_of_int frame_width) with
    | Py.ZeroDivisionError => ret Py.ZeroDivisionError
    | Py.Ok pan_offset =>
        match Py.truediv (- offset_y)%float (Py.float_of_int frame_height) with
        | Py.ZeroDivisionError => ret Py.ZeroDivisionError
        | Py.Ok tilt_offset =>
            let* success :=
              PTZClient.relative_move pan_offset tilt_offset 0 (Obj.pan_speed (controller h)) in
            (if success then
               let* h := get in
               set_controller
                 (set_last_target_position (Some (target_x, target_y)) (controller h)) ;;
               PresetManager.mark_activity
             else ret tt) ;;
            ret (Py.Ok success)
        end
    end.

(** [zoom_to_target]. *)
Definition zoom_to_target (target_height desired_height : float) (track_id : option Z)
    : M (Py.result bool) :=
  if (target_height <=? 0)%float then ret (Py.Ok false)
  else
    match Py.truediv desired_height target_height with
    | Py.ZeroDivisionError => ret Py.ZeroDivisionError
    | Py.Ok zoom_factor =>
        let* h := get in
        let c := controller h in
        let go (zoom_change : float) : M (Py.result bool) :=
          let new_zoom := Py.max 0 (Py.min 1 (Obj.current_zoom c + zoom_change))%float in
          let* success := PTZClient.relative_move 0 0 zoom_change 0.3 in
          (if success then
             let* h := get in
             set_controller (set_current_zoom new_zoom (controller h)) ;;
             PresetManager.mark_activity
           else ret tt) ;;
          ret (Py.Ok success) in
        if (1.2 <? zoom_factor)%float then go (Obj.zoom_step c)
        else if (zoom_factor <? 0.8)%float then go (- Obj.zoom_step c)%float
        else ret (Py.Ok false)
    end.

(** [track_and_zoom]. *)
Definition track_and_zoom (bbox_center_x bbox_center_y bbox_height : float)
    (frame_width frame_height : Z) (desired_bbox_height : float) (track_id : option Z)
    : M (Py.result (bool * bool)) :=
  let* tracking := point_to_target bbox_center_x bbox_center_y frame_width frame_height
                     track_id in
  match tracking with
  | Py.ZeroDivisionError => ret Py.ZeroDivisionError
  | Py.Ok tracking_success =>
      (if tracking_success then time_sleep 0.5 else ret tt) ;;
      let* zooming := zoom_to_target bbox_height desired_bbox_height track_id in
      match zooming with
      | Py.ZeroDivisionError => ret Py.ZeroDivisionError
      | Py.Ok zooming_success => ret (Py.Ok (tracking_success, zooming_success))
      end
  end.

End PTZController.

(* ===================================================================== *)
(** ** Notions the statements below are written with *)
(* ===================================================================== *)

(** *** On the tracker *)

(** What every entry of [self.tracks] satisfies between two frames: its
    key is the track's own id and below [next_id], and its counters are
    those of a track that was matched at most once per frame since it was
    created. *)
Definition entry_ok (next_id : Z) (kv : Z * Track.t) : Prop :=
  fst kv < next_id
  /\ Track.track_id (snd kv) = fst kv
  /\ 1 <= Track.hits (snd kv) <= Track.age (snd kv) + 1
  /\ 0 <= Track.time_since_update (snd kv).

(** The same entry right after [predict], before any match of the frame. *)
Definition entry_predicted (next_id : Z) (kv : Z * Track.t) : Prop :=
  fst kv < next_id
  /\ Track.track_id (snd kv) = fst kv
  /\ 1 <= Track.hits (snd kv) <= Track.age (snd kv)
  /\ 1 <= Track.time_since_update (snd kv).

(** The dict iterates in ascending key order. *)
Definition wf (self : VehicleTracker.t) : Prop :=
  StronglySorted Z.lt (map fst (VehicleTracker.tracks self))
  /\ List.Forall (entry_ok (VehicleTracker.next_id self)) (VehicleTracker.tracks self).

(** The track is the one held under its id before the call, after
    [predict], updated with a detection of the frame. *)
Definition matched_in (self : VehicleTracker.t) (detections : list Detection)
    (track : Track.t) : Prop :=
  exists old bbox vehicle_class conf,
    In (Track.track_id track, old) (VehicleTracker.tracks self)
    /\ In (bbox, vehicle_class, conf) detections
    /\ track = Track.update (Track.predict old) bbox conf.

(** The track was created in the call, from a detection of the frame,
    under an id not allocated before. *)
Definition spawned_in (self : VehicleTracker.t) (detections : list Detection)
    (track : Track.t) : Prop :=
  exists bbox vehicle_class conf,
    In (bbox, vehicle_class, conf) detections
    /\ VehicleTracker.next_id self <= Track.track_id track
    /\ track = Track.new (Track.track_id track) bbox vehicle_class conf.

(** The track is the one held under its id before the call, as [predict]
    left it: no detection of the frame was associated with it. *)
Definition coasting_in (self : VehicleTracker.t) (track : Track.t) : Prop :=
  exists old,
    In (Track.track_id track, old) (VehicleTracker.tracks self)
    /\ track = Track.predict old.

(** *** Two frames of one car *)

Module Frames.

Definition car : Detection := (BoundingBox.mk 0 0 10 10, CAR, 0.5%float).

(** A tracker with [max_age = 30], [min_hits = 1], [iou_threshold = 0.3]. *)
Definition tracker0 : VehicleTracker.t := VehicleTracker.init 30 1 0.3.

(** After a first frame that shows the car: track 1 is spawned. *)
Definition tracker1 : VehicleTracker.t := fst (VehicleTracker.update tracker0 [car]).

(** The track spawned in the first frame. *)
Definition track1 : Track.t := Track.new 1 (BoundingBox.mk 0 0 10 10) CAR 0.5.

End Frames.

(** The IoU the inner loop computes for a detection. *)
Definition iou_of (track_bbox : BoundingBox.t) (det : Detection) : float :=
  VehicleTracker.calculate_iou track_bbox (fst (fst det)).

(** The tracks as the association loop of [update] finds them: after
    [predict], in dict order. *)
Definition scanned (self : VehicleTracker.t) : list (Z * Track.t) :=
  map (fun kv => (fst kv, Track.predict (snd kv))) (VehicleTracker.tracks self).

(** The matches the association loop of [update] makes on a frame. *)
Definition matches_of (self : VehicleTracker.t) (detections : list Detection)
    : list (Z * Z) :=
  snd (VehicleTracker.match_tracks (VehicleTracker.iou_threshold self) detections
         (scanned self) ∅).

(** *** Two vehicles side by side *)

Module TwoVehicles.

Definition det (a b c d : float) : Detection := (BoundingBox.mk a b c d, CAR, 0.5%float).

(** Frame 1 creates T1 at (0,0,50,50) and T2 at (100,0,150,50). *)
Definition tracker1 : VehicleTracker.t :=
  fst (VehicleTracker.update (VehicleTracker.init 30 1 0.3)
         [det 0 0 50 50; det 100 0 150 50]).

(** Frame 2. *)
Definition frame2 : list Detection := [det 5 0 55 50; det 105 0 155 50].

End TwoVehicles.

(** *** On the plate proposer *)

(** A proposer whose entry for [track_id] has been increased by one, the
    entry counting from 0 when there is none. *)
Definition bump (self : PlateProposer.t) (track_id : Z) : PlateProposer.t :=
  PlateProposer.mk (PlateProposer.min_plate_height self)
    (PlateProposer.target_plate_height self) (PlateProposer.stability_frames self)
    (<[track_id := PlateProposer.counter self track_id + 1]>
       (PlateProposer.stable_tracks self)).

(** *** Capture readiness on a vehicle 400 pixels high *)

Module Capture.

(** [min_plate_height_pixels = 30], [target_plate_height = 60],
    [stability_frames = 3]. *)
Definition proposer0 : PlateProposer.t := PlateProposer.init 30 60 3.

(** The target: a vehicle box of height 400. *)
Definition target : Track.t := Track.new 7 (BoundingBox.mk 100 100 300 500) CAR 0.5.

Definition plate : BoundingBox.t := PlateProposer.estimate_plate_region target.

(** The proposer after [n] successive calls for the target. *)
Fixpoint after (n : nat) : PlateProposer.t :=
  match n with
  | O => proposer0
  | S n' => fst (PlateProposer.is_ready_for_capture (after n') target plate)
  end.

(** The verdict of call [n + 1]. *)
Definition verdict (n : nat) : Py.result (bool * float) :=
  snd (PlateProposer.is_ready_for_capture (after n) target plate).

(** Another vehicle, and a plate below the minimal height. *)
Definition other : Track.t := Track.new 8 (BoundingBox.mk 400 100 600 500) CAR 0.5.

Definition small_plate : BoundingBox.t := BoundingBox.mk 0 0 40 10.

End Capture.

(** *** On bounding boxes *)

(** The two coordinates the round trip gives back on one axis of a box
    whose ends on that axis are [a] and [b]. *)
Definition axis_roundtrip (a b : float) : float * float :=
  (((a + b) / 2 - (b - a) / 2)%float, ((a + b) / 2 + (b - a) / 2)%float).

(** The whole pixel coordinates 0, 1, ..., n - 1. *)
Definition pixels (n : nat) : list Z := map Z.of_nat (seq 0 n).

(** The frames considered are at most 4096 pixels wide and high. *)
Definition frame_limit : nat := 4096.

(** The binary64 number [m * 2^e]: that number itself when [|m| < 2^53]
    and it is in range (see [normalize_finite]), the binary64 nearest to
    it otherwise.  [Py.float_of_int m] is [dyadic m 0]. *)
Definition dyadic (m e : Z) : float := SF2Prim (binary_normalize prec emax m e false).

(** The exponent and the mantissa of the binary64 representation of
    [m * 2^g], for [0 < |m| < 2^53] and [-1074 <= g <= 971]. *)
Definition cexp (m g : Z) : Z := Z.max (Z.log2 (Z.abs m) + 1 + g - 53) (-1074).

Definition cman (m g : Z) : positive := Z.to_pos (Z.abs m * 2 ^ (g - cexp m g)).

(** A box with whole pixel coordinates. *)
Definition pixel_box (x1 y1 x2 y2 : Z) : BoundingBox.t :=
  BoundingBox.mk (Py.float_of_int x1) (Py.float_of_int y1)
                 (Py.float_of_int x2) (Py.float_of_int y2).

(** A box whose abscissas are [x1] and [x2] steps of [2^ex] and whose
    ordinates are [y1] and [y2] steps of [2^ey]: whole pixels for the
    exponent 0, half pixels for -1, and so on. *)
Definition grid_box (ex ey x1 y1 x2 y2 : Z) : BoundingBox.t :=
  BoundingBox.mk (dyadic x1 ex) (dyadic y1 ey) (dyadic x2 ex) (dyadic y2 ey).

(** *** On the PTZ controller service *)

(** The store after one more reading of the clock. *)
Definition clock_read (h : Heap) : Heap :=
  mkHeap (World.mk (World.clock (world h)) (S (World.reads (world h)))
                   (World.faults (world h)) (World.wire (world h)))
         (ptz h) (preset_mgr h) (controller h).

(** The store after one more request. *)
Definition sent (r : World.Request) (h : Heap) : Heap :=
  mkHeap (World.mk (World.clock (world h)) (World.reads (world h))
                   (World.faults (world h)) (World.wire (world h) ++ [r]))
         (ptz h) (preset_mgr h) (controller h).

(** The time the next call of [time.time()] returns. *)
Definition now (h : Heap) : float := World.clock (world h) (World.reads (world h)).

(** Whether a motion command arriving now is within [move_rate_limit_s] of
    the last accepted one: the test of [_check_rate_limit]. *)
Definition rate_limited (h : Heap) : bool :=
  (now h - Obj.last_move_time (ptz h) <? Obj.move_rate_limit_s (ptz h))%float.

(** Whether the device answers the next request with a fault. *)
Definition faulty (h : Heap) : bool :=
  World.faults (world h) (length (World.wire (world h))).

(** The store after [self.last_move_time = time.time()]. *)
Definition moved (h : Heap) : Heap :=
  mkHeap (World.mk (World.clock (world h)) (S (World.reads (world h)))
                   (World.faults (world h)) (World.wire (world h)))
         (Obj.mkPTZClient (now h) (Obj.move_rate_limit_s (ptz h)))
         (preset_mgr h) (controller h).

(** The store after [mark_activity]. *)
Definition active (h : Heap) : Heap :=
  mkHeap (World.mk (World.clock (world h)) (S (World.reads (world h)))
                   (World.faults (world h)) (World.wire (world h)))
         (ptz h)
         (if Obj.is_idle (preset_mgr h)
          then PresetManager.set_is_idle false
                 (PresetManager.set_last_activity_time (now h) (preset_mgr h))
          else PresetManager.set_last_activity_time (now h) (preset_mgr h))
         (controller h).

(** The store after [self.last_target_position = (target_x, target_y)]. *)
Definition targeted (p : float * float) (h : Heap) : Heap :=
  mkHeap (world h) (ptz h) (preset_mgr h)
         (PTZController.set_last_target_position (Some p) (controller h)).

(** The offsets [point_to_target] computes. *)
Definition pan_offset (target_x : float) (frame_width : Z) : float :=
  ((target_x - Py.float_of_int frame_width / 2) / Py.float_of_int frame_width)%float.

Definition tilt_offset (target_y : float) (frame_height : Z) : float :=
  (- (target_y - Py.float_of_int frame_height / 2) / Py.float_of_int frame_height)%float.

(** The request [relative_move] sends for given arguments. *)
Definition relative_move_request (pan tilt zoom speed : float) : World.Request :=
  World.RelativeMove (PTZClient.clamp (-1) 1 pan) (PTZClient.clamp (-1) 1 tilt)
                     (PTZClient.clamp (-1) 1 zoom) speed.

(** The device raises no fault on the next [n] requests. *)
Definition no_fault (n : nat) (h : Heap) : Prop :=
  forall k, (k < n)%nat ->
            World.faults (world h) (length (World.wire (world h)) + k) = false.

(** *** A controller at rest *)

Module Rest.

(** A clock that starts at 1000 s and advances by 1 ms per reading. *)
Definition clock (k : nat) : float :=
  (1000 + Py.float_of_int (Z.of_nat k) / 1000)%float.

Definition presets : list World.Preset :=
  [World.mkPreset "1" "gate" 0 0 0; World.mkPreset "2" "yard" 0.5 0 0].

(** A device that raises no fault; the last move was accepted at
    [last_move]; the last activity was at 998.8 s, 1.2 s ago;
    [idle_timeout_s = 1], default preset 2, sweep enabled every 60 s;
    [hysteresis_pixels = 50]; no target position recorded. *)
Definition heap (last_move : float) : Heap :=
  mkHeap (World.mk clock 0 (fun _ => false) [])
         (Obj.mkPTZClient last_move 2)
         (Obj.mkPresetManager presets 0 true 1 2 true 60 998.8 false true)
         (PTZController.init 50 0.5 0.5 0.1).

(** The store after a first [point_to_target(640, 360, 1280, 720)]. *)
Definition pointed : Heap :=
  snd (PTZController.point_to_target 640 360 1280 720 None (heap 0)).

End Rest.

(** The preset [goto_preset_by_id] looks for. *)
Definition preset_by_id (preset_id : Z) (h : Heap) : option World.Preset :=
  List.find (fun p => String.eqb (World.token p) (PresetManager.str preset_id))
            (Obj.presets (preset_mgr h)).

(** The store right after the monitor has set [self.is_idle = True]. *)
Definition idled (h : Heap) : Heap :=
  mkHeap (world h) (ptz h) (PresetManager.set_is_idle true (preset_mgr h)) (controller h).

(** *** On runs of the tracker *)

(** The tracker after a sequence of frames, each a list of detections. *)
Definition run (self : VehicleTracker.t) (frames : list (list Detection))
    : VehicleTracker.t :=
  fold_left (fun s detections => fst (VehicleTracker.update s detections)) frames self.

(** The tracker after [n] frames without detections. *)
Definition coast (n : nat) (self : VehicleTracker.t) : VehicleTracker.t :=
  Nat.iter n (fun s => fst (VehicleTracker.update s [])) self.

(** The ids under which the tracker holds a track. *)
Definition ids (self : VehicleTracker.t) : list Z :=
  map fst (VehicleTracker.tracks self).

(** What [trajectory] and [velocity] of a track record: the centers of the
    detections the track was built from, and the displacement between the
    last two of them (zero while there is only one). *)
Definition velocity_of_trajectory (track : Track.t) : Prop :=
  (exists c, Track.trajectory track = [c] /\ Track.velocity track = (0, 0)%float)
  \/ (exists older p q,
        Track.trajectory track = older ++ [p; q]
        /\ Track.velocity track = (fst q - fst p, snd q - snd p)%float).

(** *** On plate regions *)

(** The ends of the estimated plate on the horizontal axis, for a vehicle
    box that spans [x1 .. x2] (lines 58, 61 and 63 of plate_proposer.py). *)
Definition plate_span_x (x1 x2 : float) : float * float :=
  let plate_width := ((x2 - x1) * 0.6)%float in
  let plate_x1 := (x1 + ((x2 - x1) - plate_width) / 2)%float in
  (plate_x1, (plate_x1 + plate_width)%float).

(** The ends of the estimated plate on the vertical axis, for a vehicle
    box that spans [y1 .. y2] (lines 57, 62 and 64). *)
Definition plate_span_y (y1 y2 : float) : float * float :=
  let plate_height := ((y2 - y1) * 0.15)%float in
  let plate_y1 := (y2 - (y2 - y1) * 0.25)%float in
  (plate_y1, (plate_y1 + plate_height)%float).

(** Whether the span [p] lies within [a .. b], its ends in order. *)
Definition span_within (a b : float) (p : float * float) : bool :=
  (a <=? fst p)%float && (fst p <=? snd p)%float && (snd p <=? b)%float.

(** Whether both plate spans of a vehicle that spans [a .. b] on an axis
    lie within [a .. b]. *)
Definition plate_spans_within (a b : float) : bool :=
  span_within a b (plate_span_x a b) && span_within a b (plate_span_y a b).

(** Whether [ok a b] holds for every [a] of the list and every [b] that
    is [a] or comes after it. *)
Fixpoint forall_ordered_pairs (ok : float -> float -> bool) (coords : list float) : bool :=
  match coords with
  | [] => true
  | a :: rest => forallb (ok a) coords && forall_ordered_pairs ok rest
  end.

(** *** On the target prioritizer *)

(** The pairs (track, zone) in the order the double loop of
    [_select_by_roi] visits them. *)
Definition roi_visits {Polygon : Type} (zones : list (TargetPrioritizer.Zone Polygon))
    (tracks : list Track.t) : list (Track.t * TargetPrioritizer.Zone Polygon) :=
  flat_map (fun track => map (fun zone => (track, zone)) zones) tracks.

(** Whether, on a visit, the zone contains the center of the track. *)
Definition roi_hit {Polygon : Type} (contains : Polygon -> float * float -> bool)
    (visit : Track.t * TargetPrioritizer.Zone Polygon) : bool :=
  contains (TargetPrioritizer.polygon Polygon (snd visit))
           (BoundingBox.center (Track.bbox (fst visit))).

(** Whether a track is at least [min_target_size] high. *)
Definition tall_enough {Polygon : Type} (self : TargetPrioritizer.t Polygon)
    (track : Track.t) : bool :=
  (TargetPrioritizer.min_target_size Polygon self
     <=? BoundingBox.height (Track.bbox track))%float.

(** What the pair (best_track, best_weight) of [_select_by_roi] is after
    a list of visits: still (None, 0.0) if no zone of positive weight was
    hit, and otherwise a track with a zone that was hit, of positive weight,
    that no zone hit so far outweighs. *)
Definition roi_chosen {Polygon : Type} (contains : Polygon -> float * float -> bool)
    (visits : list (Track.t * TargetPrioritizer.Zone Polygon))
    (best : option Track.t * float) : Prop :=
  (fst best = None /\ snd best = 0%float
   /\ forall v, In v visits -> roi_hit contains v = true ->
        (0 <? TargetPrioritizer.weight Polygon (snd v))%float = false)
  \/ (exists track zone,
        fst best = Some track /\ In (track, zone) visits
        /\ roi_hit contains (track, zone) = true
        /\ snd best = TargetPrioritizer.weight Polygon zone
        /\ (0 <? TargetPrioritizer.weight Polygon zone)%float = true
        /\ forall v, In v visits -> roi_hit contains v = true ->
             (TargetPrioritizer.weight Polygon zone
                <? TargetPrioritizer.weight Polygon (snd v))%float = false).

(** A prioritizer without zones, on a platform where [x ** 2] is [x * x]. *)
Module Scene.

Definition pow2 (x : float) : float := (x * x)%float.

Definition contains (polygon : unit) (point : float * float) : bool := false.

Definition prioritizer (strategy : string) : TargetPrioritizer.t unit :=
  TargetPrioritizer.mk unit strategy (TargetPrioritizer.mkWeights 0.4 0.3 0.2 0.1) [] 100 ∅.

(** One zone, of weight 1, whose polygon is taken to contain the points
    with x below 350. *)
Definition left_of_350 (polygon : unit) (point : float * float) : bool :=
  (fst point <? 350)%float.

Definition zoned : TargetPrioritizer.t unit :=
  TargetPrioritizer.mk unit "roi" (TargetPrioritizer.mkWeights 0.4 0.3 0.2 0.1)
    [TargetPrioritizer.mkZone unit (Some "gate") tt 1] 100 ∅.

(** Two tracks, 400 pixels high, centered at (200, 300) and (500, 300). *)
Definition tracks : list Track.t := [Capture.target; Capture.other].

End Scene.

(** *** On sequences of PTZ operations *)

(** [lo <= x <= hi]. *)
Definition in_range (lo hi x : float) : Prop :=
  (lo <=? x)%float = true /\ (x <=? hi)%float = true.

(** A request whose translation, if it has one, is within [-1, 1] on the
    three axes. *)
Definition translation_in_range (r : World.Request) : Prop :=
  match r with
  | World.RelativeMove pan tilt zoom _ =>
      in_range (-1) 1 pan /\ in_range (-1) 1 tilt /\ in_range (-1) 1 zoom
  | _ => True
  end.

(** The software zoom level of the controller is within [0, 1]. *)
Definition zoom_in_range (h : Heap) : Prop :=
  in_range 0 1 (Obj.current_zoom (controller h)).

(** The requests sent between the store [h] and the later store [h']. *)
Definition sent_since (h h' : Heap) (new : list World.Request) : Prop :=
  World.wire (world h') = World.wire (world h) ++ new.

(** The store [h'] comes from [h] by sending requests that satisfy [Q]. *)
Definition extends (Q : World.Request -> Prop) (h h' : Heap) : Prop :=
  exists new, sent_since h h' new /\ List.Forall Q new.

(** The computation [m] takes every store to one that is related to it
    by [R]. *)
Definition keeps_rel (R : Heap -> Heap -> Prop) {A : Type} (m : M A) : Prop :=
  forall h, R h (snd (m h)).

(** Operations of the controller service: those of the controller, those
    of the preset manager, a pass of the idle monitor, and the
    [relative_move] that [process_ptz_command] calls on the client for the
    bus commands MOVE_RELATIVE and ZOOM.  These are the operations that send
    the device status queries, relative moves and goto-presets.  The
    absolute move ([absolute_move], called for MOVE_ABSOLUTE and by
    [reset_zoom]) and [stop] (called for STOP) are not among them: their
    requests are not represented in [World.Request]. *)
Inductive Command : Type :=
| PointToTarget (target_x target_y : float) (frame_width frame_height : Z)
| ZoomToTarget (target_height desired_height : float)
| TrackAndZoom (bbox_center_x bbox_center_y bbox_height : float)
    (frame_width frame_height : Z) (desired_bbox_height : float)
| GotoPresetById (preset_id : Z)
| NextPreset
| StartupSweep
| IdleMonitorPass
| ClientRelativeMove (pan tilt zoom speed : float).

(** The effect of an operation on the store, its result dropped. *)
Definition exec (c : Command) : M unit :=
  match c with
  | PointToTarget target_x target_y frame_width frame_height =>
      PTZController.point_to_target target_x target_y frame_width frame_height None ;; ret tt
  | ZoomToTarget target_height desired_height =>
      PTZController.zoom_to_target target_height desired_height None ;; ret tt
  | TrackAndZoom cx cy bh frame_width frame_height desired =>
      PTZController.track_and_zoom cx cy bh frame_width frame_height desired None ;; ret tt
  | GotoPresetById preset_id => PresetManager.goto_preset_by_id preset_id ;; ret tt
  | NextPreset => PresetManager.next_preset ;; ret tt
  | StartupSweep => PresetManager.startup_sweep
  | IdleMonitorPass => PresetManager.idle_monitor_tick ;; ret tt
  | ClientRelativeMove pan tilt zoom speed =>
      PTZClient.relative_move pan tilt zoom speed ;; ret tt
  end.

(** The store after a sequence of operations, one after the other. *)
Definition run_commands (commands : list Command) (h : Heap) : Heap :=
  fold_left (fun h c => snd (exec c h)) commands h.

(** *** On the configuration and the detector's class table *)

(** Whether a string holds the character '.'. *)
Fixpoint has_dot (s : string) : bool :=
  match s with
  | EmptyString => false
  | String c rest => Ascii.eqb c ConfigLoader.dot || has_dot rest
  end.

(** The value a list of keys leads to in a document, if every key but the
    last is found in a mapping and the last is found too. *)
Fixpoint resolve {Scalar : Type} (keys : list string) (value : ConfigLoader.Value Scalar)
    : option (ConfigLoader.Value Scalar) :=
  match keys with
  | [] => Some value
  | key :: rest =>
      match value with
      | ConfigLoader.Dict items =>
          match ConfigLoader.lookup key items with
          | Some v => resolve rest v
          | None => None
          end
      | ConfigLoader.Other _ => None
      end
  end.

(** A path made of two parts joined by a '.'. *)
Definition dotted (p q : string) : string :=
  String.append p (String ConfigLoader.dot q).

(* ===================================================================== *)
(** * Properties *)
(* ===================================================================== *)

(** ** Order facts on binary64, from the specification of the primitives *)

Section FloatOrder.

Local Ltac cmp_cases :=
  repeat match goal with
  | |- context [Z.compare ?a ?b] => destruct (Z.compare_spec a b); subst
  | H : context [Z.compare ?a ?b] |- _ => destruct (Z.compare_spec a b); subst
  | |- context [Pos.compare_cont Eq ?a ?b] =>
      change (Pos.compare_cont Eq a b) with (Pos.compare a b);
      destruct (Pos.compare_spec a b); subst
  | H : context [Pos.compare_cont Eq ?a ?b] |- _ =>
      change (Pos.compare_cont Eq a b) with (Pos.compare a b) in H;
      destruct (Pos.compare_spec a b); subst
  end.

Local Ltac sf_cases a b c :=
  unfold SFltb, SFleb, SFcompare;
  destruct a as [[]|[]| |[] ? ?], b as [[]|[]| |[] ? ?], c as [[]|[]| |[] ? ?];
  try discriminate; try reflexivity; intros;
  cmp_cases; simpl in *; try discriminate; try reflexivity; try lia.

Lemma SFltb_trans (a b c : spec_float) :
  SFltb a b = true -> SFltb b c = true -> SFltb a c = true.
Proof. sf_cases a b c. Qed.

Lemma SFltb_leb_trans (a b c : spec_float) :
  SFltb a b = true -> SFleb b c = true -> SFltb a c = true.
Proof. sf_cases a b c. Qed.

Lemma SFltb_irrefl (a : spec_float) : SFltb a a = false.
Proof.
  unfold SFltb, SFcompare.
  destruct a as [[]|[]| |[] m e]; try reflexivity;
    rewrite Z.compare_refl;
    change (Pos.compare_cont Eq m m) with (Pos.compare m m);
    rewrite Pos.compare_refl; reflexivity.
Qed.

Lemma ltb_trans (a b c : float) :
  (a <? b)%float = true -> (b <? c)%float = true -> (a <? c)%float = true.
Proof. rewrite !ltb_spec. apply SFltb_trans. Qed.

Lemma ltb_leb_trans (a b c : float) :
  (a <? b)%float = true -> (b <=? c)%float = true -> (a <? c)%float = true.
Proof. rewrite !ltb_spec, leb_spec. apply SFltb_leb_trans. Qed.

Lemma ltb_irrefl (a : float) : (a <? a)%float = false.
Proof. rewrite ltb_spec. apply SFltb_irrefl. Qed.

(** [a < b] excludes [b <= a]. *)
Lemma ltb_not_leb (a b : float) :
  (a <? b)%float = true -> (b <=? a)%float = false.
Proof.
  intros Hab. destruct (b <=? a)%float eqn:Hba; [|reflexivity].
  pose proof (ltb_leb_trans _ _ _ Hab Hba) as H.
  rewrite ltb_irrefl in H. discriminate.
Qed.

Lemma ltb_asym (a b : float) :
  (a <? b)%float = true -> (b <? a)%float = false.
Proof.
  intros Hab. destruct (b <? a)%float eqn:Hba; [|reflexivity].
  pose proof (ltb_trans _ _ _ Hab Hba) as H.
  rewrite ltb_irrefl in H. discriminate.
Qed.

End FloatOrder.

(** ** The tracker *)

Section DictFacts.

Context {V : Type}.
Implicit Types (d : list (Z * V)) (k : Z) (v : V).

Lemma dict_del_In k d k' v :
  In (k', v) (Py.dict_del k d) <-> In (k', v) d /\ k' <> k.
Proof.
  unfold Py.dict_del. rewrite List.filter_In. simpl.
  rewrite negb_true_iff, Z.eqb_neq. reflexivity.
Qed.

Lemma fold_dict_del_In ks d k' v :
  In (k', v) (fold_left (fun d k => Py.dict_del k d) ks d)
  <-> In (k', v) d /\ ~ In k' ks.
Proof.
  revert d. induction ks as [|k ks IH]; intros d; simpl.
  - tauto.
  - rewrite IH, dict_del_In. intuition congruence.
Qed.

Lemma dict_del_keys_sorted k d :
  StronglySorted Z.lt (map fst d) -> StronglySorted Z.lt (map fst (Py.dict_del k d)).
Proof.
  unfold Py.dict_del. induction d as [|[k0 v0] d IH]; simpl; intros Hs.
  - constructor.
  - apply StronglySorted_inv in Hs as [Hs Hall].
    destruct (negb (k0 =? k)); simpl; [|auto].
    constructor; [auto|].
    rewrite List.Forall_forall in *. intros x Hx. apply Hall.
    rewrite in_map_iff in *. destruct Hx as (kv & <- & Hin).
    apply List.filter_In in Hin as [Hin _]. eauto.
Qed.

Lemma fold_dict_del_keys_sorted ks d :
  StronglySorted Z.lt (map fst d) ->
  StronglySorted Z.lt (map fst (fold_left (fun d k => Py.dict_del k d) ks d)).
Proof.
  revert d. induction ks as [|k ks IH]; intros d Hs; simpl; [assumption|].
  apply IH, dict_del_keys_sorted, Hs.
Qed.

(** Assigning a key above every present key appends the entry. *)
Lemma dict_set_fresh k v d :
  List.Forall (fun kv => fst kv < k) d -> Py.dict_set k v d = d ++ [(k, v)].
Proof.
  induction d as [|[k0 v0] d IH]; simpl; intros Hall; [reflexivity|].
  apply List.Forall_cons_iff in Hall as [Hlt Hall]. simpl in Hlt.
  destruct (k0 =? k) eqn:E; [apply Z.eqb_eq in E; lia|].
  rewrite IH by assumption. reflexivity.
Qed.

Lemma keys_sorted_snoc k v d :
  StronglySorted Z.lt (map fst d) -> List.Forall (fun kv => fst kv < k) d ->
  StronglySorted Z.lt (map fst (d ++ [(k, v)])).
Proof.
  induction d as [|[k0 v0] d IH]; simpl; intros Hs Hall.
  - repeat constructor.
  - apply StronglySorted_inv in Hs as [Hs Hk0].
    apply List.Forall_cons_iff in Hall as [Hlt Hall]. simpl in Hlt.
    constructor; [auto|].
    rewrite map_app, List.Forall_app. split; [assumption|].
    repeat constructor. assumption.
Qed.

End DictFacts.

Section TrackerFacts.

Import VehicleTracker.

Lemma associate_config self detections :
  max_age (fst (_associate_detections self detections)) = max_age self
  /\ min_hits (fst (_associate_detections self detections)) = min_hits self
  /\ iou_threshold (fst (_associate_detections self detections)) = iou_threshold self.
Proof.
  unfold _associate_detections.
  destruct (match_tracks _ _ _ _) as [[trs used] matches].
  destruct (spawn _ _ _ _ _) as [trs' nid]. simpl. auto.
Qed.

Lemma update_config self detections :
  max_age (fst (update self detections)) = max_age self
  /\ min_hits (fst (update self detections)) = min_hits self
  /\ iou_threshold (fst (update self detections)) = iou_threshold self.
Proof.
  unfold update.
  destruct (length detections =? 0)%nat; simpl; [auto|].
  pose proof (associate_config
    (mk (max_age self) (min_hits self) (iou_threshold self)
        (map (fun kv => (fst kv, Track.predict (snd kv))) (tracks self)) (next_id self))
    detections) as H.
  destruct (_associate_detections _ _) as [a m]. simpl in *. exact H.
Qed.

(** What survives [_remove_dead_tracks] was there before and is not dead. *)
Lemma remove_dead_In self k track :
  In (k, track) (tracks (_remove_dead_tracks self)) ->
  In (k, track) (tracks self) /\ Track.time_since_update track <= max_age self.
Proof.
  unfold _remove_dead_tracks, dead_track_ids. simpl.
  rewrite fold_dict_del_In. intros [Hin Hnot]. split; [assumption|].
  destruct (max_age self <? Track.time_since_update track) eqn:E.
  - exfalso. apply Hnot. apply in_map_iff. exists (k, track). split; [reflexivity|].
    apply List.filter_In. split; assumption.
  - apply Z.ltb_ge in E. exact E.
Qed.

End TrackerFacts.

(** The tracks [update] returns are confirmed entries of the new dict. *)
Lemma update_returned_In (self : VehicleTracker.t) (detections : list Detection)
    (track : Track.t) :
  In track (snd (VehicleTracker.update self detections)) ->
  VehicleTracker.min_hits self <= Track.hits track
  /\ exists k, In (k, track) (VehicleTracker.tracks (fst (VehicleTracker.update self detections))).
Proof.
  pose proof (update_config self detections) as (_ & Hhits & _).
  unfold VehicleTracker.update in *.
  destruct (if (length detections =? 0)%nat then _ else _) as [associated matched].
  simpl in *. intros Hin.
  apply List.filter_In in Hin as [Hin Hconf].
  apply Z.leb_le in Hconf.
  apply in_map_iff in Hin as ([k t] & <- & Hin). simpl in *.
  split; [lia|]. exists k. exact Hin.
Qed.

(** *** Well-formed tracker states *)

Section TrackerInvariant.

Import VehicleTracker.

Lemma entry_ok_mono n n' kv : n <= n' -> entry_ok n kv -> entry_ok n' kv.
Proof. unfold entry_ok. intuition lia. Qed.

Lemma predict_entry n kv :
  entry_ok n kv -> entry_predicted n (fst kv, Track.predict (snd kv)).
Proof. unfold entry_ok, entry_predicted. simpl. intuition lia. Qed.

Lemma predicted_entry_ok n kv : entry_predicted n kv -> entry_ok n kv.
Proof. unfold entry_ok, entry_predicted. intuition lia. Qed.

Lemma update_entry n k track bbox conf :
  entry_predicted n (k, track) -> entry_ok n (k, Track.update track bbox conf).
Proof. unfold entry_ok, entry_predicted. simpl. intuition lia. Qed.

Lemma new_entry n bbox vehicle_class conf :
  entry_ok (n + 1) (n, Track.new n bbox vehicle_class conf).
Proof. unfold entry_ok. simpl. intuition lia. Qed.

(** The matching loop keeps the keys, in order, and touches each track at
    most once. *)
Lemma match_tracks_entries thr detections trs :
  forall used trs' used' matches,
    match_tracks thr detections trs used = (trs', used', matches) ->
    map fst trs' = map fst trs
    /\ forall n, List.Forall (entry_predicted n) trs -> List.Forall (entry_ok n) trs'.
Proof.
  induction trs as [|[k track] trs IH]; simpl; intros used trs' used' matches Hm.
  - injection Hm as <- <- <-. split; [reflexivity|]. constructor.
  - destruct (0 <=? snd (best_detection thr (Track.bbox track) used detections)).
    + destruct (detections !! _) as [[[bbox vc] conf]|].
      * destruct (match_tracks thr detections trs _) as [[r u] m] eqn:E.
        injection Hm as <- <- <-. destruct (IH _ _ _ _ E) as [Hk Hall].
        split; [simpl; congruence|].
        intros n Hp. apply List.Forall_cons_iff in Hp as [Hp Hps].
        constructor; [apply update_entry, Hp | apply Hall, Hps].
      * destruct (match_tracks thr detections trs _) as [[r u] m] eqn:E.
        injection Hm as <- <- <-. destruct (IH _ _ _ _ E) as [Hk Hall].
        split; [simpl; congruence|].
        intros n Hp. apply List.Forall_cons_iff in Hp as [Hp Hps].
        constructor; [apply predicted_entry_ok, Hp | apply Hall, Hps].
    + destruct (match_tracks thr detections trs _) as [[r u] m] eqn:E.
      injection Hm as <- <- <-. destruct (IH _ _ _ _ E) as [Hk Hall].
      split; [simpl; congruence|].
      intros n Hp. apply List.Forall_cons_iff in Hp as [Hp Hps].
      constructor; [apply predicted_entry_ok, Hp | apply Hall, Hps].
Qed.

(** Spawning appends the new tracks under fresh, increasing ids. *)
Lemma spawn_wf used detections :
  forall det_idx trs next_id trs' next_id',
    spawn used det_idx detections trs next_id = (trs', next_id') ->
    StronglySorted Z.lt (map fst trs) -> List.Forall (entry_ok next_id) trs ->
    next_id <= next_id'
    /\ StronglySorted Z.lt (map fst trs') /\ List.Forall (entry_ok next_id') trs'.
Proof.
  induction detections as [|[[bbox vc] conf] detections IH]; simpl;
    intros det_idx trs next_id trs' next_id' Hs Hsorted Hall.
  - injection Hs as <- <-. split; [lia|]. split; assumption.
  - destruct (decide (det_idx ∈ used)).
    + eapply IH; eassumption.
    + assert (Hlt : List.Forall (fun kv => fst kv < next_id) trs).
      { eapply List.Forall_impl; [|exact Hall]. intros kv H. apply H. }
      rewrite dict_set_fresh in Hs by assumption.
      apply IH in Hs.
      * destruct Hs as (Hle & Hs' & Hall'). split; [lia|]. split; assumption.
      * apply keys_sorted_snoc; assumption.
      * apply List.Forall_app. split.
        -- eapply List.Forall_impl; [|exact Hall].
           intros kv. apply entry_ok_mono. lia.
        -- repeat constructor; try apply new_entry.
Qed.

Lemma remove_dead_wf self : wf self -> wf (_remove_dead_tracks self).
Proof.
  intros [Hs Hall]. split; simpl.
  - apply fold_dict_del_keys_sorted, Hs.
  - rewrite List.Forall_forall in *. intros [k t] Hin.
    apply fold_dict_del_In in Hin as [Hin _]. apply Hall, Hin.
Qed.

Lemma update_wf self detections : wf self -> wf (fst (update self detections)).
Proof.
  intros [Hs Hall]. unfold update.
  set (ptracks := map (fun kv => (fst kv, Track.predict (snd kv))) (tracks self)).
  assert (Hpk : map fst ptracks = map fst (tracks self)).
  { unfold ptracks. rewrite map_map. reflexivity. }
  assert (Hpp : List.Forall (entry_predicted (next_id self)) ptracks).
  { unfold ptracks. rewrite List.Forall_map.
    eapply List.Forall_impl; [|exact Hall]. intros kv. apply predict_entry. }
  destruct (length detections =? 0)%nat.
  - simpl. apply remove_dead_wf. split; simpl.
    + rewrite Hpk. exact Hs.
    + eapply List.Forall_impl; [|exact Hpp]. intros kv. apply predicted_entry_ok.
  - unfold _associate_detections. simpl.
    destruct (match_tracks _ _ _ _) as [[trs used] matches] eqn:Em.
    destruct (spawn _ _ _ _ _) as [trs' nid] eqn:Es.
    apply match_tracks_entries in Em as [Hk Hok].
    apply spawn_wf in Es as (_ & Hs' & Hall').
    + simpl. apply remove_dead_wf. split; assumption.
    + rewrite Hk, Hpk. exact Hs.
    + apply Hok, Hpp.
Qed.

Lemma reachable_wf self : reachable self -> wf self.
Proof.
  induction 1 as [a h i|self detections _ IH].
  - split; simpl; constructor.
  - apply update_wf, IH.
Qed.

End TrackerInvariant.

(** *** Where the tracks held after a frame come from *)

Section TrackOrigin.

Import VehicleTracker.

Lemma dict_set_In {V : Type} (k : Z) (v : V) (d : list (Z * V)) (kv : Z * V) :
  In kv (Py.dict_set k v d) -> kv = (k, v) \/ In kv d.
Proof.
  induction d as [|[k1 v1] d IH]; simpl.
  - intros [<-|[]]. left. reflexivity.
  - destruct (k1 =? k); simpl.
    + intros [<-|H]; auto.
    + intros [<-|H]; auto. destruct (IH H); auto.
Qed.

(** After the matching loop an entry is the entry it was, or that entry
    updated with a detection of the frame. *)
Lemma match_tracks_origin thr detections trs :
  forall used trs' used' matches,
    match_tracks thr detections trs used = (trs', used', matches) ->
    forall k track', In (k, track') trs' ->
      exists track, In (k, track) trs
        /\ (track' = track
            \/ exists bbox vehicle_class conf,
                 In (bbox, vehicle_class, conf) detections
                 /\ track' = Track.update track bbox conf).
Proof.
  induction trs as [|[k0 track0] trs IH]; simpl;
    intros used trs' used' matches Hm k track' Hin.
  - injection Hm as <- <- <-. destruct Hin.
  - destruct (0 <=? snd (best_detection thr (Track.bbox track0) used detections)).
    + destruct (detections !! _) as [[[bbox vc] conf]|] eqn:El.
      * destruct (match_tracks thr detections trs _) as [[r u] m] eqn:E.
        injection Hm as <- <- <-. destruct Hin as [Heq|Hin].
        -- injection Heq as <- <-. exists track0. split; [left; reflexivity|].
           right. exists bbox, vc, conf. split; [|reflexivity].
           apply list_elem_of_In. eapply list_elem_of_lookup_2. exact El.
        -- destruct (IH _ _ _ _ E k track' Hin) as (t & Ht & Hc).
           exists t. split; [right; exact Ht|exact Hc].
      * destruct (match_tracks thr detections trs _) as [[r u] m] eqn:E.
        injection Hm as <- <- <-. destruct Hin as [Heq|Hin].
        -- injection Heq as <- <-. exists track0. split; [left; reflexivity|].
           left. reflexivity.
        -- destruct (IH _ _ _ _ E k track' Hin) as (t & Ht & Hc).
           exists t. split; [right; exact Ht|exact Hc].
    + destruct (match_tracks thr detections trs _) as [[r u] m] eqn:E.
      injection Hm as <- <- <-. destruct Hin as [Heq|Hin].
      * injection Heq as <- <-. exists track0. split; [left; reflexivity|].
        left. reflexivity.
      * destruct (IH _ _ _ _ E k track' Hin) as (t & Ht & Hc).
        exists t. split; [right; exact Ht|exact Hc].
Qed.

(** After the spawning loop an entry was there before, or is a new track
    built from a detection of the frame under one of the new ids. *)
Lemma spawn_origin used detections :
  forall det_idx trs nid trs' nid',
    spawn used det_idx detections trs nid = (trs', nid') ->
    forall k track, In (k, track) trs' ->
      In (k, track) trs
      \/ (nid <= k
          /\ exists bbox vehicle_class conf,
               In (bbox, vehicle_class, conf) detections
               /\ track = Track.new k bbox vehicle_class conf).
Proof.
  induction detections as [|[[bbox vc] conf] detections IH]; simpl;
    intros det_idx trs nid trs' nid' Hs k track Hin.
  - injection Hs as <- <-. left. exact Hin.
  - destruct (decide (det_idx ∈ used)).
    + destruct (IH _ _ _ _ _ Hs k track Hin) as [H|(Hle & b & v & c & Hd & Ht)];
        [left; exact H|].
      right. split; [exact Hle|]. exists b, v, c. split; [right; exact Hd|exact Ht].
    + destruct (IH _ _ _ _ _ Hs k track Hin) as [H|(Hle & b & v & c & Hd & Ht)].
      * apply dict_set_In in H as [Heq|H]; [|left; exact H].
        injection Heq as -> ->. right. split; [lia|].
        exists bbox, vc, conf. split; [left; reflexivity|reflexivity].
      * right. split; [lia|]. exists b, v, c. split; [right; exact Hd|exact Ht].
Qed.

(** An entry held after [update]: it is not dead, and it is the old entry
    after [predict], or that updated with a detection of the frame, or a
    track created from a detection of the frame. *)
Lemma update_origin self detections k track :
  In (k, track) (tracks (fst (update self detections))) ->
  Track.time_since_update track <= max_age self
  /\ ((exists old, In (k, old) (tracks self) /\ track = Track.predict old)
      \/ (exists old bbox vehicle_class conf,
            In (k, old) (tracks self)
            /\ In (bbox, vehicle_class, conf) detections
            /\ track = Track.update (Track.predict old) bbox conf)
      \/ (next_id self <= k
          /\ exists bbox vehicle_class conf,
               In (bbox, vehicle_class, conf) detections
               /\ track = Track.new k bbox vehicle_class conf)).
Proof.
  unfold update.
  assert (Hpred : forall t,
    In (k, t) (map (fun kv => (fst kv, Track.predict (snd kv))) (tracks self)) ->
    exists old, In (k, old) (tracks self) /\ t = Track.predict old).
  { intros t Ht. apply in_map_iff in Ht as ([k1 old] & Heq & Hold).
    simpl in Heq. injection Heq as <- <-. exists old. auto. }
  destruct (length detections =? 0)%nat.
  - cbn [fst]. intros Hin. apply remove_dead_In in Hin as [Hin Hle].
    cbn [tracks max_age] in Hin, Hle. split; [exact Hle|]. left. apply Hpred, Hin.
  - unfold _associate_detections. cbn [iou_threshold tracks next_id max_age min_hits].
    destruct (match_tracks _ _ _ _) as [[trs used] matches] eqn:Em.
    destruct (spawn _ _ _ _ _) as [trs' nid] eqn:Es.
    cbn [fst]. intros Hin. apply remove_dead_In in Hin as [Hin Hle].
    cbn [tracks max_age] in Hin, Hle. split; [exact Hle|].
    destruct (spawn_origin _ _ _ _ _ _ _ Es k track Hin) as [H|[Hle' Hnew]].
    + destruct (match_tracks_origin _ _ _ _ _ _ _ Em k track H) as (t & Ht & [->|Hupd]).
      * left. apply Hpred, Ht.
      * right. left. destruct Hupd as (bbox & vc & conf & Hd & ->).
        destruct (Hpred t Ht) as (old & Hold & ->).
        exists old, bbox, vc, conf. auto.
    + right. right. split; assumption.
Qed.

End TrackOrigin.

Lemma tracker1_reachable : VehicleTracker.reachable Frames.tracker1.
Proof. apply VehicleTracker.reachable_update, VehicleTracker.reachable_init. Qed.

Lemma tracker1_tracks : VehicleTracker.tracks Frames.tracker1 = [(1, Frames.track1)].
Proof. vm_compute. reflexivity. Qed.

(** C1.  Every track that [VehicleTracker.update] returns, from a tracker
    a run has reached, has [hits >= min_hits].  Its [time_since_update] is
    0 if the call matched it with a detection of the frame or spawned it
    from one; otherwise it found no detection, is returned as [predict]
    left it, and [1 <= time_since_update <= max_age].  So the counter is 0
    exactly for the returned tracks that were seen in this frame, not for
    every returned track. *)
Theorem update_returns_confirmed_alive
    (self : VehicleTracker.t) (detections : list Detection) (track : Track.t) :
  VehicleTracker.reachable self ->
  In track (snd (VehicleTracker.update self detections)) ->
  VehicleTracker.min_hits self <= Track.hits track
  /\ ((Track.time_since_update track = 0
       /\ (matched_in self detections track \/ spawned_in self detections track))
      \/ (coasting_in self track
          /\ 1 <= Track.time_since_update track <= VehicleTracker.max_age self)).
Proof.
  intros Hr Hin.
  apply update_returned_In in Hin as (Hhits & k & Hin).
  split; [exact Hhits|].
  pose proof (reachable_wf self Hr) as [_ Hold].
  pose proof (update_wf self detections (reachable_wf self Hr)) as [_ Hall].
  rewrite List.Forall_forall in Hold, Hall.
  pose proof (Hall _ Hin) as (_ & Hid & _ & _). simpl in Hid.
  apply update_origin in Hin as (Hle & [Hc|[Hm|Hs]]).
  - right. destruct Hc as (old & Ho & ->).
    pose proof (Hold _ Ho) as (_ & _ & _ & Hpos). simpl in Hpos.
    split; [exists old; simpl in *; subst k; auto|].
    simpl in *. lia.
  - left. destruct Hm as (old & bbox & vc & conf & Ho & Hd & ->).
    split; [reflexivity|]. left. exists old, bbox, vc, conf.
    simpl in *. subst k. auto.
  - left. destruct Hs as (Hn & bbox & vc & conf & Hd & ->).
    split; [reflexivity|]. right. exists bbox, vc, conf. simpl in *. auto.
Qed.

(** A frame without detections returns track 1, coasting. *)
Lemma coasting_returned :
  snd (VehicleTracker.update Frames.tracker1 []) = [Track.predict Frames.track1].
Proof. vm_compute. reflexivity. Qed.

(** C1, witness: the track returned by the second frame, which shows no
    detection. *)
Lemma update_returns_confirmed_alive_witness :
  VehicleTracker.min_hits Frames.tracker1 <= Track.hits (Track.predict Frames.track1)
  /\ ((Track.time_since_update (Track.predict Frames.track1) = 0
       /\ (matched_in Frames.tracker1 [] (Track.predict Frames.track1)
           \/ spawned_in Frames.tracker1 [] (Track.predict Frames.track1)))
      \/ (coasting_in Frames.tracker1 (Track.predict Frames.track1)
          /\ 1 <= Track.time_since_update (Track.predict Frames.track1)
               <= VehicleTracker.max_age Frames.tracker1)).
Proof.
  apply (update_returns_confirmed_alive Frames.tracker1 []).
  - exact tracker1_reachable.
  - rewrite coasting_returned. left. reflexivity.
Defined.

(** C1 as stated fails: after a frame that spawns a track (with
    [min_hits = 1]) a frame without detections returns that track with
    [time_since_update = 1]. *)
Lemma returned_track_not_fresh :
  ~ (forall (self : VehicleTracker.t) (detections : list Detection) (track : Track.t),
        In track (snd (VehicleTracker.update self detections)) ->
        VehicleTracker.min_hits self <= Track.hits track
        /\ Track.time_since_update track = 0).
Proof.
  intros H.
  destruct (H Frames.tracker1 [] (Track.predict Frames.track1)) as [_ Hz].
  - rewrite coasting_returned. left. reflexivity.
  - discriminate Hz.
Qed.

(** C4.  A freshly spawned track has [age = 0], [hits = 1],
    [time_since_update = 0] and [velocity = (0, 0)], so [age >= hits] does
    not hold for it; what holds for every track of every tracker state a
    run reaches is [hits >= 1] and [age + 1 >= hits]: [age] counts the frames
    after the one that created the track, [hits] counts that frame too. *)
Theorem track_counters_invariant :
  (forall track_id bbox vehicle_class confidence,
      let track := Track.new track_id bbox vehicle_class confidence in
      Track.age track = 0 /\ Track.hits track = 1
      /\ Track.time_since_update track = 0
      /\ Track.velocity track = (0%float, 0%float))
  /\ (forall self track_id track,
         VehicleTracker.reachable self ->
         In (track_id, track) (VehicleTracker.tracks self) ->
         1 <= Track.hits track /\ Track.hits track <= Track.age track + 1).
Proof.
  split.
  - intros. simpl. auto.
  - intros self track_id track Hr Hin.
    apply reachable_wf in Hr as [_ Hall].
    rewrite List.Forall_forall in Hall. apply Hall in Hin.
    unfold entry_ok in Hin. simpl in Hin. lia.
Qed.

(** C4, witness: track 1 after the first frame. *)
Lemma track_counters_invariant_witness :
  1 <= Track.hits Frames.track1
  /\ Track.hits Frames.track1 <= Track.age Frames.track1 + 1.
Proof.
  apply (proj2 track_counters_invariant Frames.tracker1 1 Frames.track1).
  - exact tracker1_reachable.
  - rewrite tracker1_tracks. left. reflexivity.
Defined.

(** C4 as stated fails on the track the first frame spawns: [age = 0] and
    [hits = 1]. *)
Lemma fresh_track_age_below_hits :
  ~ (forall self track_id track,
        VehicleTracker.reachable self ->
        In (track_id, track) (VehicleTracker.tracks self) ->
        Track.age track >= Track.hits track /\ Track.hits track >= 1).
Proof.
  intros H.
  destruct (H Frames.tracker1 1 Frames.track1) as [Hge _].
  - exact tracker1_reachable.
  - rewrite tracker1_tracks. left. reflexivity.
  - vm_compute in Hge. apply Hge. reflexivity.
Qed.

(** *** Greedy association *)

Section Association.

Import VehicleTracker.

Variables (thr : float) (track_bbox : BoundingBox.t) (used : gset Z).

Lemma scan_step_cases best det_idx det :
  let best' := scan_step thr track_bbox used best det_idx det in
  (best' = best
   /\ (det_idx ∈ used
       \/ (fst best <? iou_of track_bbox det)%float = false
       \/ (thr <? iou_of track_bbox det)%float = false))
  \/ (best' = (iou_of track_bbox det, det_idx)
      /\ (det_idx ∉ used)
      /\ (fst best <? iou_of track_bbox det)%float = true
      /\ (thr <? iou_of track_bbox det)%float = true).
Proof.
  unfold scan_step, iou_of. simpl.
  destruct (decide (det_idx ∈ used)); [left; auto|].
  destruct (fst best <? _)%float eqn:E1, (thr <? _)%float eqn:E2; simpl; auto 8.
Qed.

(** The inner loop either keeps the pair it started from, and then no
    unclaimed detection it saw both exceeds that IoU and the threshold; or
    it stops on an unclaimed detection above the threshold that strictly
    beats every unclaimed detection before it and is not beaten by any
    after it. *)
Lemma scan_spec detections :
  forall best i,
    let r := scan thr track_bbox used best i detections in
    (r = best
     /\ forall n d, detections !! n = Some d -> i + Z.of_nat n ∉ used ->
          (fst best <? iou_of track_bbox d)%float = false
          \/ (thr <? iou_of track_bbox d)%float = false)
    \/ (exists n d,
          snd r = i + Z.of_nat n
          /\ detections !! n = Some d
          /\ (i + Z.of_nat n ∉ used)
          /\ fst r = iou_of track_bbox d
          /\ (thr <? iou_of track_bbox d)%float = true
          /\ (fst best <? iou_of track_bbox d)%float = true
          /\ (forall n' d', detections !! n' = Some d' -> i + Z.of_nat n' ∉ used ->
                (n' < n)%nat ->
                (iou_of track_bbox d <=? iou_of track_bbox d')%float = false)
          /\ (forall n' d', detections !! n' = Some d' -> i + Z.of_nat n' ∉ used ->
                (n < n')%nat ->
                (iou_of track_bbox d <? iou_of track_bbox d')%float = false)).
Proof.
  induction detections as [|d rest IH]; intros best i; simpl.
  - left. split; [reflexivity|]. intros n d' H. rewrite lookup_nil in H. discriminate.
  - pose proof (scan_step_cases best i d) as Hstep.
    specialize (IH (scan_step thr track_bbox used best i d) (i + 1)).
    simpl in Hstep, IH.
    set (best1 := scan_step thr track_bbox used best i d) in *.
    set (r := scan thr track_bbox used best1 (i + 1) rest) in *.
    destruct IH as [[Hr Hlater]
                   |(n & dn & Hk & Hlk & Hfree & Hb & Hthr & Hgt & Hearlier & Hlater)].
    + destruct Hstep as [[Hb1 Hno]|(Hb1 & Hfree & Hgt & Hthr)].
      * left. split; [congruence|].
        intros [|n'] d' Hlk Hf; simpl in Hlk.
        -- injection Hlk as <-. replace (i + Z.of_nat 0) with i in Hf by lia.
           destruct Hno as [Hu|H]; [contradiction|exact H].
        -- rewrite <- Hb1. apply (Hlater n' d' Hlk).
           replace (i + 1 + Z.of_nat n') with (i + Z.of_nat (S n')) by lia. exact Hf.
      * right. exists 0%nat, d.
        replace (i + Z.of_nat 0) with i by lia.
        rewrite Hr, Hb1. simpl. repeat split; try assumption; try reflexivity.
        -- intros n' d' _ _ Hlt. lia.
        -- intros [|n'] d' Hlk Hf Hlt; [lia|]. simpl in Hlk.
           destruct (Hlater n' d' Hlk) as [H|H].
           ++ replace (i + 1 + Z.of_nat n') with (i + Z.of_nat (S n')) by lia. exact Hf.
           ++ rewrite Hb1 in H. exact H.
           ++ destruct (iou_of track_bbox d <? iou_of track_bbox d')%float eqn:E;
                [|reflexivity].
              rewrite (ltb_trans _ _ _ Hthr E) in H. discriminate.
    + right. exists (S n), dn.
      replace (i + Z.of_nat (S n)) with (i + 1 + Z.of_nat n) by lia.
      assert (Hbest : (fst best <? iou_of track_bbox dn)%float = true).
      { destruct Hstep as [[Hb1 _]|(Hb1 & _ & Hg & _)].
        - rewrite <- Hb1. exact Hgt.
        - rewrite Hb1 in Hgt. simpl in Hgt. exact (ltb_trans _ _ _ Hg Hgt). }
      repeat split; try assumption.
      * intros [|n'] d' Hlk' Hf Hlt; simpl in Hlk'.
        -- injection Hlk' as <-. replace (i + Z.of_nat 0) with i in Hf by lia.
           destruct (iou_of track_bbox dn <=? iou_of track_bbox d)%float eqn:E;
             [|reflexivity].
           destruct Hstep as [[Hb1 [Hu|[H|H]]]|(Hb1 & _ & _ & _)].
           ++ contradiction.
           ++ rewrite (ltb_leb_trans _ _ _ Hbest E) in H. discriminate.
           ++ rewrite (ltb_leb_trans _ _ _ Hthr E) in H. discriminate.
           ++ rewrite Hb1 in Hgt. simpl in Hgt.
              rewrite (ltb_not_leb _ _ Hgt) in E. discriminate.
        -- apply (Hearlier n' d' Hlk'); [|lia].
           replace (i + 1 + Z.of_nat n') with (i + Z.of_nat (S n')) by lia. exact Hf.
      * intros [|n'] d' Hlk' Hf Hlt; [lia|]. simpl in Hlk'.
        apply (Hlater n' d' Hlk'); [|lia].
        replace (i + 1 + Z.of_nat n') with (i + Z.of_nat (S n')) by lia. exact Hf.
Qed.

(** [best_detection]: index -1 when no unclaimed detection exceeds both 0
    and the threshold, and otherwise the first unclaimed detection of
    maximal IoU. *)
Lemma best_detection_spec detections :
  let r := best_detection thr track_bbox used detections in
  (snd r = -1)
  \/ (exists n d,
        snd r = Z.of_nat n
        /\ detections !! n = Some d
        /\ (Z.of_nat n ∉ used)
        /\ (thr <? iou_of track_bbox d)%float = true
        /\ (forall n' d', detections !! n' = Some d' -> Z.of_nat n' ∉ used ->
              (n' < n)%nat ->
              (iou_of track_bbox d <=? iou_of track_bbox d')%float = false)
        /\ (forall n' d', detections !! n' = Some d' -> Z.of_nat n' ∉ used ->
              (n < n')%nat ->
              (iou_of track_bbox d <? iou_of track_bbox d')%float = false)).
Proof.
  unfold best_detection.
  destruct (scan_spec detections (0%float, -1) 0)
    as [[Hr _]|(n & d & Hk & Hlk & Hf & _ & Hthr & _ & He & Hl)].
  - left. rewrite Hr. reflexivity.
  - right. exists n, d. simpl in *. repeat split; auto.
Qed.

(** [detections[best_det_idx]] is in range whenever [best_det_idx >= 0]. *)
Lemma best_detection_range detections :
  0 <= snd (best_detection thr track_bbox used detections) ->
  is_Some (detections !! Z.to_nat (snd (best_detection thr track_bbox used detections))).
Proof.
  destruct (best_detection_spec detections) as [H|(n & d & H & Hlk & _)];
    rewrite H; [lia|].
  intros _. rewrite Nat2Z.id, Hlk. eauto.
Qed.

End Association.

Section Greedy.

Import VehicleTracker.

Lemma sublist_StronglySorted (l1 l2 : list Z) :
  sublist l1 l2 -> StronglySorted Z.lt l2 -> StronglySorted Z.lt l1.
Proof.
  induction 1 as [|x l1 l2 Hsub IH|x l1 l2 Hsub IH]; intros Hs.
  - constructor.
  - apply StronglySorted_inv in Hs as [Hs Hall]. constructor; [auto|].
    rewrite List.Forall_forall in *. intros y Hy. apply Hall.
    apply list_elem_of_In. eapply elem_of_sublist; [|exact Hsub].
    apply list_elem_of_In, Hy.
  - apply StronglySorted_inv in Hs as [Hs _]. auto.
Qed.

Lemma StronglySorted_lt_NoDup (l : list Z) : StronglySorted Z.lt l -> List.NoDup l.
Proof.
  induction 1 as [|x l Hs IH Hall]; constructor; [|assumption].
  intros Hin. rewrite List.Forall_forall in Hall. specialize (Hall x Hin). lia.
Qed.

(** The matches the loop over the tracks makes: in scan order, on distinct
    detections that were unclaimed when the loop started, and each chosen by
    [best_detection] among the detections no earlier match had claimed. *)
Lemma match_tracks_spec thr detections trs :
  forall used trs' used' matches,
    match_tracks thr detections trs used = (trs', used', matches) ->
    sublist (map fst matches) (map fst trs)
    /\ List.NoDup (map snd matches)
    /\ (forall k, In k (map snd matches) -> k ∉ used)
    /\ (forall m1 track_id k m2,
          matches = m1 ++ (track_id, k) :: m2 ->
          exists track U,
            In (track_id, track) trs
            /\ (forall j, j ∈ U <-> j ∈ used \/ In j (map snd m1))
            /\ k = snd (best_detection thr (Track.bbox track) U detections)
            /\ 0 <= k).
Proof.
  induction trs as [|[tid track] trs IH]; intros used trs' used' matches Hm;
    cbn [match_tracks] in Hm.
  - injection Hm as <- <- <-. simpl. repeat split.
    + constructor.
    + constructor.
    + intros k [].
    + intros [|? ?] ? ? ? H; discriminate H.
  - destruct (0 <=? snd (best_detection thr (Track.bbox track) used detections)) eqn:Ebest.
    + apply Z.leb_le in Ebest.
      destruct (best_detection_range thr (Track.bbox track) used detections Ebest)
        as [[[bbox vc] conf] Hlk].
      unfold Detection in *. rewrite Hlk in Hm.
      set (best := snd (best_detection thr (Track.bbox track) used detections)) in *.
      destruct (match_tracks thr detections trs ({[best]} ∪ used)) as [[r u] m] eqn:E.
      injection Hm as <- <- <-.
      destruct (IH _ _ _ _ E) as (Hsub & Hnd & Hfree & Hpre). simpl.
      assert (Hbfree : best ∉ used).
      { destruct (best_detection_spec thr (Track.bbox track) used detections)
          as [H|(n & d & H & _ & Hf & _)]; fold best in H; [lia|].
        rewrite H. exact Hf. }
      split; [constructor; exact Hsub|].
      split.
      { constructor; [|exact Hnd]. intros Hin. apply (Hfree _ Hin).
        apply elem_of_union_l, elem_of_singleton. reflexivity. }
      split.
      { intros k [<-|Hin]; [exact Hbfree|].
        intros Hk. apply (Hfree _ Hin). apply elem_of_union_r, Hk. }
      intros [|[t0 k0] m1] track_id k m2 Heq; simpl in Heq.
      * injection Heq as <- <- <-. exists track, used.
        split; [left; reflexivity|].
        split; [intros j; simpl; tauto|].
        split; [reflexivity|exact Ebest].
      * injection Heq as <- <- ->.
        destruct (Hpre _ _ _ _ eq_refl) as (track' & U & Hin & HU & Hk & Hk0).
        exists track', U.
        split; [right; exact Hin|].
        split; [|split; assumption].
        intros j. rewrite HU, elem_of_union, elem_of_singleton. simpl.
        intuition congruence.
    + destruct (match_tracks thr detections trs used) as [[r u] m] eqn:E.
      injection Hm as <- <- <-.
      destruct (IH _ _ _ _ E) as (Hsub & Hnd & Hfree & Hpre).
      split; [constructor; exact Hsub|].
      split; [exact Hnd|]. split; [exact Hfree|].
      intros m1 track_id k m2 Heq.
      destruct (Hpre _ _ _ _ Heq) as (track' & U & Hin & HU & Hk & Hk0).
      exists track', U.
      split; [right; exact Hin|]. split; [exact HU|]. split; assumption.
Qed.

(** [matched_track_ids], the value [_associate_detections] returns, lists
    the first components of the matches. *)
Lemma associate_matched_ids self detections :
  snd (_associate_detections self detections)
  = map fst (snd (match_tracks (iou_threshold self) detections (tracks self) ∅)).
Proof.
  unfold _associate_detections.
  destruct (match_tracks _ _ _ _) as [[trs used] matches].
  destruct (spawn _ _ _ _ _) as [trs' nid]. reflexivity.
Qed.

End Greedy.

(** C5.  In one [update] call of a tracker a run has reached, the greedy
    association scans the tracks in ascending id order and records its
    matches in that order; no track id and no detection index occurs in two
    matches; and the detection matched to a track exceeds the threshold, has
    a strictly larger IoU than every earlier-indexed detection not claimed
    by an earlier match, and no smaller IoU than any later-indexed one: ties
    go to the smallest index. *)
Theorem greedy_association (self : VehicleTracker.t) (detections : list Detection) :
  VehicleTracker.reachable self ->
  StronglySorted Z.lt (map fst (scanned self))
  /\ StronglySorted Z.lt (map fst (matches_of self detections))
  /\ List.NoDup (map fst (matches_of self detections))
  /\ List.NoDup (map snd (matches_of self detections))
  /\ (forall m1 track_id k m2,
        matches_of self detections = m1 ++ (track_id, k) :: m2 ->
        exists track dk,
          In (track_id, track) (scanned self)
          /\ 0 <= k
          /\ detections !! Z.to_nat k = Some dk
          /\ ~ In k (map snd m1)
          /\ (VehicleTracker.iou_threshold self <? iou_of (Track.bbox track) dk)%float = true
          /\ (forall j dj,
                detections !! j = Some dj -> ~ In (Z.of_nat j) (map snd m1) ->
                (Z.of_nat j < k ->
                 (iou_of (Track.bbox track) dk <=? iou_of (Track.bbox track) dj)%float = false)
                /\ (k < Z.of_nat j ->
                    (iou_of (Track.bbox track) dk <? iou_of (Track.bbox track) dj)%float = false))).
Proof.
  intros Hr. apply reachable_wf in Hr as [Hsorted _].
  assert (Hkeys : map fst (scanned self) = map fst (VehicleTracker.tracks self)).
  { unfold scanned. rewrite map_map. reflexivity. }
  unfold matches_of.
  destruct (VehicleTracker.match_tracks _ _ _ _) as [[trs' used'] matches] eqn:E.
  apply match_tracks_spec in E as (Hsub & Hnd & _ & Hpre). simpl.
  rewrite Hkeys in *.
  assert (Hms : StronglySorted Z.lt (map fst matches))
    by (eapply sublist_StronglySorted; eassumption).
  repeat split; auto using StronglySorted_lt_NoDup.
  intros m1 track_id k m2 Heq.
  destruct (Hpre _ _ _ _ Heq) as (track & U & Hin & HU & Hk & Hk0).
  destruct (best_detection_spec (VehicleTracker.iou_threshold self) (Track.bbox track) U detections)
    as [H|(n & d & H & Hlk & Hf & Hthr & Hearlier & Hlater)];
    rewrite <- Hk in H; [lia|].
  clear Hk. subst k. exists track, d.
  assert (HU' : forall j, ~ In j (map snd m1) -> j ∉ U).
  { intros j Hj HjU. apply HU in HjU as [HjU|HjU]; [|contradiction].
    revert HjU. apply not_elem_of_empty. }
  split; [exact Hin|]. split; [lia|].
  split; [rewrite Nat2Z.id; exact Hlk|].
  split; [intros Hin'; apply Hf, HU; right; exact Hin'|].
  split; [exact Hthr|].
  intros j dj Hj Hnot. split; intros Hlt.
  - apply (Hearlier j dj Hj (HU' _ Hnot)). lia.
  - apply (Hlater j dj Hj (HU' _ Hnot)). lia.
Qed.

Lemma two_vehicles_matches :
  matches_of TwoVehicles.tracker1 TwoVehicles.frame2 = [(1, 0); (2, 1)].
Proof. vm_compute. reflexivity. Qed.

(** C5, witness: the second frame of the two vehicles. *)
Lemma greedy_association_witness :
  StronglySorted Z.lt (map fst (matches_of TwoVehicles.tracker1 TwoVehicles.frame2))
  /\ List.NoDup (map snd (matches_of TwoVehicles.tracker1 TwoVehicles.frame2)).
Proof.
  destruct (greedy_association TwoVehicles.tracker1 TwoVehicles.frame2)
    as (_ & Hs & _ & Hn & _).
  - apply VehicleTracker.reachable_update, VehicleTracker.reachable_init.
  - split; assumption.
Defined.

(** ** The plate proposer *)

Section ProposerFacts.

Import PlateProposer.

(** The proposer after [is_ready_for_capture]: untouched below the minimal
    height, and otherwise with the target's counter increased, whatever the
    verdict. *)
Lemma is_ready_state self track plate_bbox :
  fst (is_ready_for_capture self track plate_bbox)
  = if (BoundingBox.height plate_bbox <? min_plate_height self)%float then self
    else bump self (Track.track_id track).
Proof.
  unfold is_ready_for_capture.
  destruct (BoundingBox.height plate_bbox <? min_plate_height self)%float.
  - destruct (Py.truediv _ _); reflexivity.
  - set (id := Track.track_id track).
    assert (Hst :
      <[id := default 0
                (match stable_tracks self !! id with
                 | Some _ => stable_tracks self
                 | None => <[id := 0]> (stable_tracks self)
                 end !! id) + 1]>
        (match stable_tracks self !! id with
         | Some _ => stable_tracks self
         | None => <[id := 0]> (stable_tracks self)
         end)
      = <[id := counter self id + 1]> (stable_tracks self)).
    { unfold counter. destruct (stable_tracks self !! id) as [c|] eqn:E.
      - rewrite E. reflexivity.
      - rewrite lookup_insert_eq, insert_insert_eq. reflexivity. }
    rewrite Hst. fold (bump self id).
    destruct (_ <? stability_frames self); [reflexivity|].
    destruct (_ <=? _)%float; [reflexivity|].
    destruct (Py.truediv _ _); reflexivity.
Qed.

Lemma counter_bump_eq self track_id :
  counter (bump self track_id) track_id = counter self track_id + 1.
Proof. unfold counter at 1, bump. simpl. rewrite lookup_insert_eq. reflexivity. Qed.

Lemma lookup_bump_ne self track_id other :
  other <> track_id ->
  stable_tracks (bump self track_id) !! other = stable_tracks self !! other.
Proof. intros Hne. unfold bump. simpl. apply lookup_insert_ne. congruence. Qed.

(** A verdict READY comes only from the third exit of the function. *)
Lemma is_ready_true self track plate_bbox self' zoom :
  is_ready_for_capture self track plate_bbox = (self', Py.Ok (true, zoom)) ->
  (BoundingBox.height plate_bbox <? min_plate_height self)%float = false
  /\ self' = bump self (Track.track_id track)
  /\ stability_frames self <= counter self (Track.track_id track) + 1
  /\ (target_plate_height self <=? BoundingBox.height plate_bbox)%float = true
  /\ zoom = 1%float.
Proof.
  intros H. pose proof (is_ready_state self track plate_bbox) as Hs.
  rewrite H in Hs. simpl in Hs.
  unfold is_ready_for_capture in H.
  destruct (BoundingBox.height plate_bbox <? min_plate_height self)%float.
  - destruct (Py.truediv _ _); discriminate H.
  - split; [reflexivity|]. split; [exact Hs|].
    set (id := Track.track_id track) in *.
    assert (Hc : default 0
                (match stable_tracks self !! id with
                 | Some _ => stable_tracks self
                 | None => <[id := 0]> (stable_tracks self)
                 end !! id) = counter self id).
    { unfold counter. destruct (stable_tracks self !! id) as [c|] eqn:E.
      - rewrite E. reflexivity.
      - rewrite lookup_insert_eq. reflexivity. }
    rewrite Hc in H.
    destruct (counter self id + 1 <? stability_frames self) eqn:Est; [discriminate H|].
    apply Z.ltb_ge in Est.
    destruct (target_plate_height self <=? BoundingBox.height plate_bbox)%float.
    + injection H as _ <-. auto.
    + destruct (Py.truediv _ _); discriminate H.
Qed.

End ProposerFacts.

(** C2.  [is_ready_for_capture] answers READY only if the track's
    stability counter, increased by this call, has reached
    [stability_frames] and the plate height is at least
    [target_plate_height] (the zoom factor is then 1); with thresholds 30 and
    60 and [stability_frames = 3], a target whose plate is 60 pixels high is
    NOT READY on calls 1 and 2 and READY with zoom factor 1 on calls 3
    and 4. *)
Theorem ready_only_if_stable_and_tall :
  (forall self track plate_bbox self' zoom,
      PlateProposer.is_ready_for_capture self track plate_bbox
        = (self', Py.Ok (true, zoom)) ->
      PlateProposer.counter self' (Track.track_id track)
        = PlateProposer.counter self (Track.track_id track) + 1
      /\ PlateProposer.stability_frames self
           <= PlateProposer.counter self' (Track.track_id track)
      /\ (PlateProposer.target_plate_height self <=? BoundingBox.height plate_bbox)%float
           = true
      /\ zoom = 1%float)
  /\ BoundingBox.height Capture.plate = 60%float
  /\ Capture.verdict 0 = Py.Ok (false, 1%float)
  /\ Capture.verdict 1 = Py.Ok (false, 1%float)
  /\ Capture.verdict 2 = Py.Ok (true, 1%float)
  /\ Capture.verdict 3 = Py.Ok (true, 1%float).
Proof.
  split.
  - intros self track plate_bbox self' zoom H.
    apply is_ready_true in H as (_ & -> & Hst & Hh & Hz).
    rewrite counter_bump_eq. auto.
  - repeat split; vm_compute; reflexivity.
Qed.

(** C3.  A call of [is_ready_for_capture] whose plate reaches
    [min_plate_height] increases the target's counter by one, whatever it
    answers; a call below [min_plate_height] changes nothing; no call
    changes the entry of another id.  [reset_stability(id)] removes the
    entry of [id], which puts its counter back to 0, and nothing else.  The
    main loop resets the counter of the target it switches to, so that the
    first counted frame of a new target gives 1. *)
Theorem stability_counter_steps :
  (forall self track plate_bbox,
      let self' := fst (PlateProposer.is_ready_for_capture self track plate_bbox) in
      ((BoundingBox.height plate_bbox <? PlateProposer.min_plate_height self)%float = false ->
       PlateProposer.counter self' (Track.track_id track)
         = PlateProposer.counter self (Track.track_id track) + 1)
      /\ ((BoundingBox.height plate_bbox <? PlateProposer.min_plate_height self)%float = true ->
          self' = self)
      /\ (forall other, other <> Track.track_id track ->
            PlateProposer.stable_tracks self' !! other
              = PlateProposer.stable_tracks self !! other))
  /\ (forall self track_id,
         PlateProposer.counter (PlateProposer.reset_stability self track_id) track_id = 0
         /\ (forall other, other <> track_id ->
               PlateProposer.stable_tracks (PlateProposer.reset_stability self track_id) !! other
                 = PlateProposer.stable_tracks self !! other))
  /\ (forall current_target_id plate_proposer target,
         current_target_id <> Some (Track.track_id target) ->
         let '(current_target_id', plate_proposer', _) :=
           VisionMain.on_target current_target_id plate_proposer target in
         current_target_id' = Some (Track.track_id target)
         /\ PlateProposer.counter plate_proposer' (Track.track_id target)
            = if (BoundingBox.height (PlateProposer.estimate_plate_region target)
                    <? PlateProposer.min_plate_height plate_proposer)%float
              then 0 else 1).
Proof.
  split; [|split].
  - intros self track plate_bbox self'. subst self'.
    rewrite is_ready_state.
    destruct (BoundingBox.height plate_bbox <? PlateProposer.min_plate_height self)%float.
    + repeat split; auto; discriminate.
    + repeat split; try discriminate.
      * intros _. apply counter_bump_eq.
      * intros other Hne. apply lookup_bump_ne, Hne.
  - intros self track_id. unfold PlateProposer.counter, PlateProposer.reset_stability.
    simpl. split.
    + rewrite lookup_delete_eq. reflexivity.
    + intros other Hne. apply lookup_delete_ne. congruence.
  - intros cur pp target Hne. unfold VisionMain.on_target.
    assert (Hch : match cur with
                  | Some id => negb (id =? Track.track_id target)
                  | None => true
                  end = true).
    { destruct cur as [id|]; [|reflexivity].
      apply negb_true_iff, Z.eqb_neq. congruence. }
    rewrite Hch.
    pose proof (is_ready_state
                  (PlateProposer.reset_stability pp (Track.track_id target)) target
                  (PlateProposer.estimate_plate_region target)) as Hs.
    destruct (PlateProposer.is_ready_for_capture _ _ _) as [pp' v].
    simpl in Hs. subst pp'. split; [reflexivity|].
    destruct (_ <? _)%float.
    + unfold PlateProposer.counter, PlateProposer.reset_stability. simpl.
      rewrite lookup_delete_eq. reflexivity.
    + rewrite counter_bump_eq.
      unfold PlateProposer.counter, PlateProposer.reset_stability. simpl.
      rewrite lookup_delete_eq. reflexivity.
Qed.

(** C3 as stated fails twice: a call for the target with a plate below
    [min_plate_height] leaves the target's counter where it was, and a call
    for another target leaves the first target's counter at 1. *)
Lemma stability_counter_not_as_stated :
  ~ (forall self track plate_bbox,
        PlateProposer.counter
          (fst (PlateProposer.is_ready_for_capture self track plate_bbox))
          (Track.track_id track)
        = PlateProposer.counter self (Track.track_id track) + 1)
  /\ ~ (forall self track plate_bbox other,
          other <> Track.track_id track ->
          PlateProposer.counter
            (fst (PlateProposer.is_ready_for_capture self track plate_bbox)) other = 0).
Proof.
  split; intros H.
  - specialize (H Capture.proposer0 Capture.target Capture.small_plate).
    vm_compute in H. discriminate H.
  - assert (Hne : 7 <> Track.track_id Capture.other) by (vm_compute; discriminate).
    specialize (H (Capture.after 1) Capture.other Capture.plate 7 Hne).
    vm_compute in H. discriminate H.
Qed.

(** ** Bounding boxes *)

Section RoundTrip.

Lemma roundtrip_axes (b : BoundingBox.t) :
  BoundingBox.roundtrip b
  = BoundingBox.mk
      (fst (axis_roundtrip (BoundingBox.x1 b) (BoundingBox.x2 b)))
      (fst (axis_roundtrip (BoundingBox.y1 b) (BoundingBox.y2 b)))
      (snd (axis_roundtrip (BoundingBox.x1 b) (BoundingBox.x2 b)))
      (snd (axis_roundtrip (BoundingBox.y1 b) (BoundingBox.y2 b))).
Proof. reflexivity. Qed.

Lemma frame_limit_Z : Z.of_nat frame_limit = 4096.
Proof. reflexivity. Qed.

End RoundTrip.

(** *** Binary64 arithmetic on numbers of one grid

    The operations of the round trip, followed through the definitions of
    the standard library's specification of binary64 ([SpecFloat]): on
    integer multiples of one power of two that are small enough, the sum,
    the difference and the half are computed without rounding. *)

Section Dyadic.

Lemma fexp_eq (e : Z) : fexp prec emax e = Z.max (e - 53) (-1074).
Proof. reflexivity. Qed.

Lemma digits2_pos_size (p : positive) : digits2_pos p = Pos.size p.
Proof. induction p as [p IH|p IH|]; simpl; congruence. Qed.

Lemma Zdigits2_log2 (z : Z) : 0 < z -> Zdigits2 z = Z.log2 z + 1.
Proof.
  destruct z as [|p|p]; try lia. intros _. cbn [Zdigits2].
  rewrite digits2_pos_size. destruct p; cbn [Pos.size Z.log2]; lia.
Qed.

Lemma log2_bound (m : Z) : 0 < m < 2 ^ 53 -> 0 <= Z.log2 m <= 52.
Proof.
  intros [Hpos Hlt]. split; [apply Z.log2_nonneg|].
  apply Z.log2_lt_pow2 in Hlt; [lia|exact Hpos].
Qed.

Lemma cexp_bounds (m g : Z) :
  m <> 0 -> Z.abs m < 2 ^ 53 -> -1074 <= g <= 971 ->
  -1074 <= cexp m g <= g.
Proof.
  intros Hm Hlt Hg. unfold cexp.
  pose proof (log2_bound (Z.abs m) ltac:(lia)). lia.
Qed.

Lemma cman_pos (m g : Z) :
  m <> 0 -> Z.abs m < 2 ^ 53 -> -1074 <= g <= 971 ->
  Zpos (cman m g) = Z.abs m * 2 ^ (g - cexp m g).
Proof.
  intros Hm Hlt Hg. unfold cman. apply Z2Pos.id.
  pose proof (cexp_bounds m g Hm Hlt Hg).
  apply Z.mul_pos_pos; [lia|]. apply Z.pow_pos_nonneg; lia.
Qed.

Lemma shr_1_even (q : Z) :
  0 < q -> shr_1 (Build_shr_record (q * 2) false false) = Build_shr_record q false false.
Proof. destruct q as [|p|p]; try lia. intros _. rewrite Z.mul_comm. reflexivity. Qed.

Lemma iter_shr_1 (p : positive) :
  forall q, 0 < q ->
    SpecFloat.iter_pos shr_1 p (Build_shr_record (q * 2 ^ Zpos p) false false)
    = Build_shr_record q false false.
Proof.
  induction p as [p IH|p IH|]; intros q Hq; cbn [SpecFloat.iter_pos].
  - replace (q * 2 ^ Zpos p~1) with (q * 2 ^ Zpos p * 2 ^ Zpos p * 2).
    + rewrite shr_1_even, IH, IH; [reflexivity|lia| |].
      * apply Z.mul_pos_pos; [lia|]. apply Z.pow_pos_nonneg; lia.
      * apply Z.mul_pos_pos; [|apply Z.pow_pos_nonneg; lia].
        apply Z.mul_pos_pos; [lia|]. apply Z.pow_pos_nonneg; lia.
    + replace (Zpos p~1) with (Zpos p + Zpos p + 1) by lia.
      rewrite !Z.pow_add_r, Z.pow_1_r by lia. ring.
  - replace (q * 2 ^ Zpos p~0) with (q * 2 ^ Zpos p * 2 ^ Zpos p).
    + rewrite IH, IH; [reflexivity|lia|].
      apply Z.mul_pos_pos; [lia|]. apply Z.pow_pos_nonneg; lia.
    + replace (Zpos p~0) with (Zpos p + Zpos p) by lia.
      rewrite Z.pow_add_r by lia. ring.
  - rewrite Z.pow_1_r. apply shr_1_even, Hq.
Qed.

(** Shifting out [n] zero bits is exact. *)
Lemma shr_exact (q e n : Z) :
  0 < q -> 0 <= n ->
  shr (Build_shr_record (q * 2 ^ n) false false) e n
  = (Build_shr_record q false false, e + n).
Proof.
  intros Hq Hn. destruct n as [|p|p]; try lia; cbn [shr].
  - rewrite Z.pow_0_r, Z.mul_1_r, Z.add_0_r. reflexivity.
  - rewrite iter_shr_1 by exact Hq. reflexivity.
Qed.

(** Rounding [|m| * 2^g], given as [Q * 2^e'] with [e'] at or below its
    exponent, gives its representation: nothing is rounded away. *)
Lemma binary_round_aux_exact (s : bool) (Q e' m g : Z) :
  m <> 0 -> Z.abs m < 2 ^ 53 -> -1074 <= g <= 971 ->
  e' <= cexp m g -> Q = Z.abs m * 2 ^ (g - e') ->
  binary_round_aux prec emax s Q e' loc_Exact = S754_finite s (cman m g) (cexp m g).
Proof.
  intros Hm Hlt Hg He HQ.
  pose proof (cexp_bounds m g Hm Hlt Hg) as Hc.
  pose proof (cman_pos m g Hm Hlt Hg) as Hq.
  pose proof (log2_bound (Z.abs m) ltac:(lia)) as Hl.
  set (c := cexp m g) in *. set (q := Zpos (cman m g)) in *.
  assert (Hqpos : 0 < q) by (unfold q; lia).
  assert (HQq : Q = q * 2 ^ (c - e')).
  { rewrite HQ, Hq, <- Z.mul_assoc, <- Z.pow_add_r by lia. do 2 f_equal. lia. }
  assert (Hlq : Z.log2 q = g - c + Z.log2 (Z.abs m)).
  { rewrite Hq. apply Z.log2_mul_pow2; lia. }
  assert (HlQ : Z.log2 Q = g - e' + Z.log2 (Z.abs m)).
  { rewrite HQ. apply Z.log2_mul_pow2; lia. }
  assert (HQpos : 0 < Q).
  { rewrite HQq. apply Z.mul_pos_pos; [lia|]. apply Z.pow_pos_nonneg; lia. }
  assert (H1 : shr_fexp prec emax Q e' loc_Exact = (Build_shr_record q false false, c)).
  { unfold shr_fexp. rewrite fexp_eq, Zdigits2_log2, HlQ by exact HQpos.
    replace (Z.max (g - e' + Z.log2 (Z.abs m) + 1 + e' - 53) (-1074) - e') with (c - e')
      by (unfold c, cexp; lia).
    cbn [shr_record_of_loc]. rewrite HQq, shr_exact by lia. f_equal. lia. }
  assert (H2 : shr_fexp prec emax q c loc_Exact = (Build_shr_record q false false, c)).
  { unfold shr_fexp. rewrite fexp_eq, Zdigits2_log2, Hlq by exact Hqpos.
    replace (Z.max (g - c + Z.log2 (Z.abs m) + 1 + c - 53) (-1074) - c) with 0
      by (unfold c, cexp; lia).
    reflexivity. }
  unfold binary_round_aux. rewrite H1.
  cbn [shr_m loc_of_shr_record round_nearest_even]. rewrite H2. cbn [shr_m].
  unfold q. replace (c <=? emax - prec) with true; [reflexivity|].
  symmetry. apply Z.leb_le. change (emax - prec) with 971. lia.
Qed.

Lemma iter_xO (m d : positive) : Zpos (Pos.iter xO m d) = Zpos m * 2 ^ Zpos d.
Proof.
  induction d as [|d IH] using Pos.peano_ind.
  - cbn [Pos.iter]. rewrite Z.pow_1_r. lia.
  - rewrite Pos.iter_succ, Pos2Z.inj_xO, IH, Pos2Z.inj_succ, Z.pow_succ_r by lia. ring.
Qed.

(** [binary_round] of [|m| * 2^k] at exponent [e]: the representation of
    [|m| * 2^(e + k)]. *)
Lemma binary_round_exact (s : bool) (M : positive) (e m k : Z) :
  m <> 0 -> Z.abs m < 2 ^ 53 -> 0 <= k -> Zpos M = Z.abs m * 2 ^ k ->
  -1074 <= e + k <= 971 ->
  binary_round prec emax s M e = S754_finite s (cman m (e + k)) (cexp m (e + k)).
Proof.
  intros Hm Hlt Hk HM Hg.
  pose proof (cexp_bounds m (e + k) Hm Hlt Hg) as Hc.
  pose proof (log2_bound (Z.abs m) ltac:(lia)) as Hl.
  assert (Hd : fexp prec emax (Zpos (digits2_pos M) + e) = cexp m (e + k)).
  { rewrite fexp_eq. change (Zpos (digits2_pos M)) with (Zdigits2 (Zpos M)).
    rewrite Zdigits2_log2, HM, Z.log2_mul_pow2 by lia. unfold cexp. lia. }
  unfold binary_round. rewrite Hd. unfold shl_align.
  destruct (cexp m (e + k) - e) as [|p|p] eqn:E.
  - apply binary_round_aux_exact; try assumption; [lia|].
    rewrite HM. do 2 f_equal. lia.
  - apply binary_round_aux_exact; try assumption; [lia|].
    rewrite HM. do 2 f_equal. lia.
  - apply binary_round_aux_exact; try assumption; [lia|].
    rewrite iter_xO, HM, <- Z.mul_assoc, <- Z.pow_add_r by lia. do 2 f_equal. lia.
Qed.

(** The representation of [m * 2^g]. *)
Lemma normalize_finite (m g : Z) :
  m <> 0 -> Z.abs m < 2 ^ 53 -> -1074 <= g <= 971 ->
  binary_normalize prec emax m g false = S754_finite (m <? 0) (cman m g) (cexp m g).
Proof.
  intros Hm Hlt Hg. replace g with (g + 0) at 2 3 by lia.
  destruct m as [|p|p]; [contradiction| |]; cbn [binary_normalize].
  - apply binary_round_exact; try assumption; try lia; rewrite Z.pow_0_r; cbn [Z.abs]; lia.
  - apply binary_round_exact; try assumption; try lia; rewrite Z.pow_0_r; cbn [Z.abs]; lia.
Qed.

(** [m * 2^k] at exponent [e] and [m] at exponent [e + k] are the same
    number. *)
Lemma normalize_scale (m k e : Z) :
  Z.abs m < 2 ^ 53 -> 0 <= k -> -1074 <= e + k <= 971 ->
  binary_normalize prec emax (m * 2 ^ k) e false
  = binary_normalize prec emax m (e + k) false.
Proof.
  intros Hlt Hk Hg. destruct (Z.eq_dec m 0) as [->|Hm]; [reflexivity|].
  rewrite (normalize_finite m (e + k)) by assumption.
  assert (Hp : 0 < 2 ^ k) by (apply Z.pow_pos_nonneg; lia).
  destruct (m * 2 ^ k) as [|M|M] eqn:E; cbn [binary_normalize].
  - nia.
  - replace (m <? 0) with false by (symmetry; apply Z.ltb_ge; nia).
    apply binary_round_exact; try assumption. rewrite Z.abs_eq by nia. lia.
  - replace (m <? 0) with true by (symmetry; apply Z.ltb_lt; nia).
    apply binary_round_exact; try assumption. rewrite Z.abs_neq by nia. lia.
Qed.

Lemma normalize_valid (m g : Z) :
  Z.abs m < 2 ^ 53 -> -1074 <= g <= 971 ->
  valid_binary (binary_normalize prec emax m g false) = true.
Proof.
  intros Hlt Hg. destruct (Z.eq_dec m 0) as [->|Hm]; [reflexivity|].
  rewrite normalize_finite by assumption.
  pose proof (cexp_bounds m g Hm Hlt Hg) as Hc.
  pose proof (cman_pos m g Hm Hlt Hg) as Hq.
  cbn [valid_binary]. unfold bounded, canonical_mantissa.
  apply andb_true_intro. split.
  - apply Z.eqb_eq. rewrite fexp_eq.
    change (Zpos (digits2_pos (cman m g))) with (Zdigits2 (Zpos (cman m g))).
    rewrite Zdigits2_log2, Hq, Z.log2_mul_pow2 by lia. unfold cexp. lia.
  - apply Z.leb_le. change (emax - prec) with 971. lia.
Qed.

Lemma Prim2SF_dyadic (m g : Z) :
  Z.abs m < 2 ^ 53 -> -1074 <= g <= 971 ->
  Prim2SF (dyadic m g) = binary_normalize prec emax m g false.
Proof. intros Hlt Hg. apply Prim2SF_SF2Prim, normalize_valid; assumption. Qed.

Lemma shl_align_fst (mx : positive) (ex ez : Z) :
  ez <= ex -> Zpos (fst (shl_align mx ex ez)) = Zpos mx * 2 ^ (ex - ez).
Proof.
  intros Hle. unfold shl_align. destruct (ez - ex) as [|p|p] eqn:E; cbn [fst].
  - replace (ex - ez) with 0 by lia. rewrite Z.pow_0_r. lia.
  - lia.
  - rewrite iter_xO. do 2 f_equal. lia.
Qed.

Lemma cman_signed (m g : Z) :
  m <> 0 -> Z.abs m < 2 ^ 53 -> -1074 <= g <= 971 ->
  cond_Zopp (m <? 0) (Zpos (cman m g)) = m * 2 ^ (g - cexp m g).
Proof.
  intros Hm Hlt Hg. rewrite cman_pos by assumption. unfold cond_Zopp.
  destruct (m <? 0) eqn:E.
  - apply Z.ltb_lt in E. rewrite Z.abs_neq by lia. ring.
  - apply Z.ltb_ge in E. rewrite Z.abs_eq by lia. reflexivity.
Qed.

(** The aligned mantissa of [m * 2^g] at an exponent [ez] at or below its
    own. *)
Lemma aligned (m g ez : Z) :
  m <> 0 -> Z.abs m < 2 ^ 53 -> -1074 <= g <= 971 -> ez <= cexp m g ->
  cond_Zopp (m <? 0) (Zpos (fst (shl_align (cman m g) (cexp m g) ez)))
  = m * 2 ^ (g - ez).
Proof.
  intros Hm Hlt Hg Hez.
  pose proof (cexp_bounds m g Hm Hlt Hg) as Hc.
  pose proof (cman_signed m g Hm Hlt Hg) as Hs.
  rewrite shl_align_fst by exact Hez.
  replace (m * 2 ^ (g - ez)) with (m * 2 ^ (g - cexp m g) * 2 ^ (cexp m g - ez)).
  - rewrite <- Hs. unfold cond_Zopp. destruct (m <? 0); ring.
  - rewrite <- Z.mul_assoc, <- Z.pow_add_r by lia. do 2 f_equal. lia.
Qed.

(** Adding two numbers of one grid [2^g] whose sum has less than 54
    bits gives the sum. *)
Lemma SFadd_grid (a b g : Z) :
  Z.abs a < 2 ^ 53 -> Z.abs b < 2 ^ 53 -> Z.abs (a + b) < 2 ^ 53 ->
  -1074 <= g <= 971 ->
  SFadd prec emax (binary_normalize prec emax a g false)
                  (binary_normalize prec emax b g false)
  = binary_normalize prec emax (a + b) g false.
Proof.
  intros Ha Hb Hab Hg.
  destruct (Z.eq_dec a 0) as [->|Ha0], (Z.eq_dec b 0) as [->|Hb0].
  - reflexivity.
  - rewrite Z.add_0_l, (normalize_finite b) by assumption. reflexivity.
  - rewrite Z.add_0_r, (normalize_finite a) by assumption. reflexivity.
  - rewrite (normalize_finite a), (normalize_finite b) by assumption.
    pose proof (cexp_bounds a g Ha0 Ha Hg). pose proof (cexp_bounds b g Hb0 Hb Hg).
    cbn [SFadd]. cbv zeta.
    rewrite !aligned by (try assumption; lia).
    rewrite <- Z.mul_add_distr_r, normalize_scale by lia.
    f_equal. lia.
Qed.

(** Likewise for the difference. *)
Lemma SFsub_grid (a b g : Z) :
  Z.abs a < 2 ^ 53 -> Z.abs b < 2 ^ 53 -> Z.abs (a - b) < 2 ^ 53 ->
  -1074 <= g <= 971 ->
  SFsub prec emax (binary_normalize prec emax a g false)
                  (binary_normalize prec emax b g false)
  = binary_normalize prec emax (a - b) g false.
Proof.
  intros Ha Hb Hab Hg.
  destruct (Z.eq_dec a 0) as [->|Ha0], (Z.eq_dec b 0) as [->|Hb0].
  - reflexivity.
  - rewrite Z.sub_0_l, (normalize_finite b), (normalize_finite (- b)) by (try assumption; lia).
    cbn [binary_normalize SFsub]. unfold cman, cexp. rewrite Z.abs_opp.
    replace (- b <? 0) with (negb (b <? 0)); [reflexivity|].
    destruct (Z.ltb_spec b 0), (Z.ltb_spec (- b) 0); try reflexivity; lia.
  - rewrite Z.sub_0_r, (normalize_finite a) by assumption. reflexivity.
  - rewrite (normalize_finite a), (normalize_finite b) by assumption.
    pose proof (cexp_bounds a g Ha0 Ha Hg). pose proof (cexp_bounds b g Hb0 Hb Hg).
    cbn [SFsub]. cbv zeta.
    rewrite !aligned by (try assumption; lia).
    rewrite <- Z.mul_sub_distr_r, normalize_scale by lia.
    f_equal. lia.
Qed.

(** Halving a number of the grid [2^g] gives that number of the grid
    [2^(g - 1)]. *)
Lemma SFdiv_two (m g : Z) :
  Z.abs m < 2 ^ 53 -> -1073 <= g <= 971 ->
  SFdiv prec emax (binary_normalize prec emax m g false) (Prim2SF 2)
  = binary_normalize prec emax m (g - 1) false.
Proof.
  intros Hlt Hg. change (Prim2SF 2) with (S754_finite false 4503599627370496 (-51)).
  destruct (Z.eq_dec m 0) as [->|Hm]; [reflexivity|].
  rewrite (normalize_finite m g), (normalize_finite m (g - 1)) by (try assumption; lia).
  pose proof (cexp_bounds m g Hm Hlt ltac:(lia)) as Hc.
  pose proof (cman_pos m g Hm Hlt ltac:(lia)) as Hq.
  pose proof (log2_bound (Z.abs m) ltac:(lia)) as Hl.
  set (e' := Z.max (Z.log2 (Z.abs m) + 1 + g - 55) (-1074)).
  assert (Hcore :
    SFdiv_core_binary prec emax (Zpos (cman m g)) (cexp m g) 4503599627370496 (-51)
    = (Z.abs m * 2 ^ (g - 1 - e'), e', loc_Exact)).
  { unfold SFdiv_core_binary.
    change (Zdigits2 4503599627370496) with 53.
    rewrite fexp_eq, Zdigits2_log2, Hq, Z.log2_mul_pow2 by lia.
    replace (Z.min (Z.max (g - cexp m g + Z.log2 (Z.abs m) + 1 + cexp m g - (53 + -51) - 53)
                          (-1074)) (cexp m g - -51)) with e' by (unfold e', cexp; lia).
    cbv zeta.
    destruct (cexp m g - -51 - e') as [|p|p] eqn:Es; try (unfold e', cexp in Es; lia).
    replace (IntDef.Z.shiftl (Z.abs m * 2 ^ (g - cexp m g)) (Zpos p))
      with (Z.abs m * 2 ^ (g - cexp m g) * 2 ^ Zpos p)
      by (symmetry; apply Z.shiftl_mul_pow2; lia).
    replace (Z.abs m * 2 ^ (g - cexp m g) * 2 ^ Zpos p)
      with (Z.abs m * 2 ^ (g - 1 - e') * 4503599627370496).
    - pose proof (Z.div_mul (Z.abs m * 2 ^ (g - 1 - e')) 4503599627370496 ltac:(lia)) as Hdiv.
      pose proof (Z.mod_mul (Z.abs m * 2 ^ (g - 1 - e')) 4503599627370496 ltac:(lia)) as Hmod.
      unfold Z.div, Z.modulo in Hdiv, Hmod.
      destruct (Z.div_eucl _ _) as [q r]. subst q r. reflexivity.
    - rewrite <- Es, <- !Z.mul_assoc. f_equal.
      change 4503599627370496 with (2 ^ 52).
      rewrite <- !Z.pow_add_r by (unfold e'; lia). f_equal. lia. }
  cbn [SFdiv]. rewrite Hcore, xorb_false_r.
  apply binary_round_aux_exact; try assumption; try lia.
  all: unfold cexp, e'; lia.
Qed.

(** The three operations of the round trip on numbers of one grid. *)
Lemma dyadic_add (a b g : Z) :
  Z.abs a < 2 ^ 53 -> Z.abs b < 2 ^ 53 -> Z.abs (a + b) < 2 ^ 53 ->
  -1074 <= g <= 971 ->
  (dyadic a g + dyadic b g)%float = dyadic (a + b) g.
Proof.
  intros Ha Hb Hab Hg. apply Prim2SF_inj.
  rewrite add_spec, !Prim2SF_dyadic by assumption. apply SFadd_grid; assumption.
Qed.

Lemma dyadic_sub (a b g : Z) :
  Z.abs a < 2 ^ 53 -> Z.abs b < 2 ^ 53 -> Z.abs (a - b) < 2 ^ 53 ->
  -1074 <= g <= 971 ->
  (dyadic a g - dyadic b g)%float = dyadic (a - b) g.
Proof.
  intros Ha Hb Hab Hg. apply Prim2SF_inj.
  rewrite sub_spec, !Prim2SF_dyadic by assumption. apply SFsub_grid; assumption.
Qed.

Lemma dyadic_half (m g : Z) :
  Z.abs m < 2 ^ 53 -> -1073 <= g <= 971 ->
  (dyadic m g / 2)%float = dyadic m (g - 1).
Proof.
  intros Hm Hg. apply Prim2SF_inj.
  rewrite div_spec, !Prim2SF_dyadic by (try assumption; lia). apply SFdiv_two; assumption.
Qed.

Lemma dyadic_double (m g : Z) :
  Z.abs m < 2 ^ 53 -> -1073 <= g <= 971 -> dyadic (m * 2) (g - 1) = dyadic m g.
Proof.
  intros Hm Hg. unfold dyadic. f_equal.
  change (m * 2) with (m * 2 ^ 1). rewrite normalize_scale by lia. f_equal. lia.
Qed.

End Dyadic.

Section GridRoundTrip.

(** What the names denote. *)
Lemma dyadic_examples :
  dyadic 3 (-1) = 1.5%float
  /\ dyadic (-1601) (-2) = (-400.25)%float
  /\ dyadic 26555188 (-18) = 101.30000305175781%float
  /\ dyadic 5000 0 = 5000%float.
Proof. vm_compute. repeat split; reflexivity. Qed.

Lemma pixel_box_grid (x1 y1 x2 y2 : Z) :
  pixel_box x1 y1 x2 y2 = grid_box 0 0 x1 y1 x2 y2.
Proof. reflexivity. Qed.

(** On one axis: for two ends on one grid, each less than [2^52] steps
    from 0, the center, the extent, their halves, and the difference and
    the sum that rebuild the ends are all exact. *)
Lemma axis_roundtrip_grid (a b g : Z) :
  Z.abs a < 2 ^ 52 -> Z.abs b < 2 ^ 52 -> -1073 <= g <= 971 ->
  axis_roundtrip (dyadic a g) (dyadic b g) = (dyadic a g, dyadic b g).
Proof.
  intros Ha Hb Hg. unfold axis_roundtrip.
  rewrite (dyadic_add a b g), (dyadic_sub b a g) by lia.
  rewrite !dyadic_half by lia.
  rewrite (dyadic_sub (a + b) (b - a) (g - 1)), (dyadic_add (a + b) (b - a) (g - 1)) by lia.
  replace (a + b - (b - a)) with (a * 2) by lia.
  replace (a + b + (b - a)) with (b * 2) by lia.
  rewrite !dyadic_double by lia. reflexivity.
Qed.

End GridRoundTrip.

(** C9.  For every bounding box whose abscissas are integer multiples of
    one power of two [2^ex] and whose ordinates are integer multiples of
    one power of two [2^ey], each coordinate less than [2^52] steps from 0
    (and [-1073 <= ex, ey <= 971], so that nothing overflows or
    underflows), taking the center, the width and the height and
    rebuilding (cx - w/2, cy - h/2, cx + w/2, cy + h/2) gives the box back,
    bit for bit.  This covers whole and half pixels, negative coordinates
    and coordinates beyond any frame size, and the binary32 coordinates a
    detector returns as long as the two ends on an axis are within a
    factor [2^28] of each other.  (On arbitrary binary64 coordinates the
    sums and halves round, and the rebuilt box can differ in the last
    place.) *)
Theorem grid_box_roundtrip (ex ey x1 y1 x2 y2 : Z) :
  -1073 <= ex <= 971 -> -1073 <= ey <= 971 ->
  Z.abs x1 < 2 ^ 52 -> Z.abs y1 < 2 ^ 52 -> Z.abs x2 < 2 ^ 52 -> Z.abs y2 < 2 ^ 52 ->
  BoundingBox.roundtrip (grid_box ex ey x1 y1 x2 y2) = grid_box ex ey x1 y1 x2 y2.
Proof.
  intros Hex Hey Hx1 Hy1 Hx2 Hy2. rewrite roundtrip_axes. unfold grid_box.
  cbn [BoundingBox.x1 BoundingBox.y1 BoundingBox.x2 BoundingBox.y2].
  rewrite (axis_roundtrip_grid x1 x2 ex Hx1 Hx2 Hex).
  rewrite (axis_roundtrip_grid y1 y2 ey Hy1 Hy2 Hey).
  reflexivity.
Qed.

(** C9, witness: the box (101.3, -50.7, 640.2, 4809.5) as a detector
    working in binary32 returns it, that is (101.30000305175781,
    -50.70000076293945, 640.2000122070312, 4809.5), on the grid [2^-18]. *)
Lemma grid_box_roundtrip_witness :
  BoundingBox.roundtrip (grid_box (-18) (-18) 26555188 (-13290701) 167824592 1260781568)
  = grid_box (-18) (-18) 26555188 (-13290701) 167824592 1260781568.
Proof.
  apply (grid_box_roundtrip (-18) (-18) 26555188 (-13290701) 167824592 1260781568); lia.
Defined.

(** C9 as stated fails on the box (0.1, 0, 0.7, 1): its center abscissa is
    0.39999999999999997, its width 0.6, and the rebuilt x1 is
    0.09999999999999998.  (On their common grid [2^-55], 0.7 is more than
    [2^54] steps from 0.) *)
Lemma roundtrip_rounds :
  BoundingBox.roundtrip (BoundingBox.mk 0.1 0 0.7 1) <> BoundingBox.mk 0.1 0 0.7 1.
Proof.
  intros H.
  apply (f_equal (fun b => (BoundingBox.x1 b =? 0.1)%float)) in H.
  vm_compute in H. discriminate H.
Qed.

(** ** The PTZ client, the preset manager and the controller *)

Section StoreFacts.

Lemma bind_run {A B : Type} (m : M A) (k : A -> M B) (h : Heap) :
  bind m k h = k (fst (m h)) (snd (m h)).
Proof. unfold bind. destruct (m h). reflexivity. Qed.

Lemma get_run (h : Heap) : get h = (h, h).
Proof. reflexivity. Qed.

Lemma set_controller_run (c : Obj.PTZController) (h : Heap) :
  set_controller c h = (tt, mkHeap (world h) (ptz h) (preset_mgr h) c).
Proof. reflexivity. Qed.

Lemma set_preset_mgr_run (p : Obj.PresetManager) (h : Heap) :
  set_preset_mgr p h = (tt, mkHeap (world h) (ptz h) p (controller h)).
Proof. reflexivity. Qed.

Lemma time_time_run (h : Heap) : time_time h = (now h, clock_read h).
Proof. reflexivity. Qed.

Lemma send_run (r : World.Request) (h : Heap) : send r h = (negb (faulty h), sent r h).
Proof. reflexivity. Qed.

Lemma touch_run (h : Heap) : PTZClient.touch_last_move_time h = (tt, moved h).
Proof. reflexivity. Qed.

Lemma mark_activity_run (h : Heap) : PresetManager.mark_activity h = (tt, active h).
Proof.
  destruct h as [w c [ps idx en tmo dflt sw swi act idle run] ctl].
  destruct idle; reflexivity.
Qed.

Lemma active_not_idle (h : Heap) : Obj.is_idle (preset_mgr (active h)) = false.
Proof.
  unfold active. cbn [preset_mgr].
  destruct (Obj.is_idle (preset_mgr h)) eqn:E; cbn; [reflexivity|exact E].
Qed.

Lemma check_rate_limit_run (h : Heap) :
  PTZClient._check_rate_limit h = (negb (rate_limited h), clock_read h).
Proof.
  unfold PTZClient._check_rate_limit. rewrite bind_run, time_time_run. cbn [fst snd].
  rewrite bind_run. rewrite !get_run. cbn [fst snd].
  unfold rate_limited, now. cbn [ptz clock_read].
  destruct (_ <? _)%float; reflexivity.
Qed.

(** [relative_move], exit by exit. *)
Lemma relative_move_run (pan tilt zoom speed : float) (h : Heap) :
  PTZClient.relative_move pan tilt zoom speed h =
  if rate_limited h then (false, clock_read h)
  else
    let h1 := clock_read h in
    if faulty h1 then (false, sent World.GetStatus h1)
    else
      let h2 := sent World.GetStatus h1 in
      if faulty h2 then (false, sent World.GetStatus h2)
      else
        let h3 := sent World.GetStatus h2 in
        let req := relative_move_request pan tilt zoom speed in
        if faulty h3 then (false, sent req h3) else (true, moved (sent req h3)).
Proof.
  unfold PTZClient.relative_move.
  rewrite bind_run, check_rate_limit_run. cbn [fst snd].
  destruct (rate_limited h); cbn [negb]; [reflexivity|].
  rewrite bind_run, send_run. cbn [fst snd].
  destruct (faulty (clock_read h)); cbn [negb]; [reflexivity|].
  rewrite bind_run, send_run. cbn [fst snd].
  destruct (faulty (sent World.GetStatus (clock_read h))); cbn [negb]; [reflexivity|].
  rewrite bind_run, send_run. cbn [fst snd].
  destruct (faulty _); cbn [negb]; [reflexivity|].
  rewrite bind_run, touch_run. reflexivity.
Qed.

(** [goto_preset], exit by exit. *)
Lemma goto_preset_run (preset_token : string) (h : Heap) :
  PTZClient.goto_preset preset_token h =
  if rate_limited h then (false, clock_read h)
  else
    let h1 := clock_read h in
    if faulty h1 then (false, sent (World.GotoPreset preset_token) h1)
    else (true, moved (sent (World.GotoPreset preset_token) h1)).
Proof.
  unfold PTZClient.goto_preset.
  rewrite bind_run, check_rate_limit_run. cbn [fst snd].
  destruct (rate_limited h); cbn [negb]; [reflexivity|].
  rewrite bind_run, send_run. cbn [fst snd].
  destruct (faulty (clock_read h)); cbn [negb]; [reflexivity|].
  rewrite bind_run, touch_run. reflexivity.
Qed.

(** A refused move: nothing but the clock has been touched. *)
Lemma relative_move_limited (pan tilt zoom speed : float) (h : Heap) :
  rate_limited h = true ->
  PTZClient.relative_move pan tilt zoom speed h = (false, clock_read h).
Proof. intros Hl. rewrite relative_move_run, Hl. reflexivity. Qed.

(** An accepted move on a device that raises no fault. *)
Lemma relative_move_accepted (pan tilt zoom speed : float) (h : Heap) :
  rate_limited h = false -> no_fault 3 h ->
  PTZClient.relative_move pan tilt zoom speed h
  = (true,
     moved (sent (relative_move_request pan tilt zoom speed)
              (sent World.GetStatus (sent World.GetStatus (clock_read h))))).
Proof.
  intros Hl Hf. rewrite relative_move_run, Hl.
  pose proof (Hf 0%nat ltac:(lia)) as H0.
  pose proof (Hf 1%nat ltac:(lia)) as H1.
  pose proof (Hf 2%nat ltac:(lia)) as H2.
  rewrite Nat.add_0_r in H0.
  cbv zeta. unfold faulty.
  cbn [world clock_read sent World.faults World.wire].
  rewrite H0. rewrite length_app. cbn [length]. rewrite H1.
  rewrite !length_app. cbn [length].
  replace (length (World.wire (world h)) + 1 + 1)%nat
    with (length (World.wire (world h)) + 2)%nat by lia.
  rewrite H2. reflexivity.
Qed.

Lemma SFeqb_leb (a b : spec_float) : SFeqb a b = true -> SFleb a b = true.
Proof. unfold SFeqb, SFleb. destruct (SFcompare a b) as [[]|]; congruence. Qed.

Lemma eqb_leb (a b : float) : (a =? b)%float = true -> (a <=? b)%float = true.
Proof. rewrite FloatAxioms.eqb_spec, FloatAxioms.leb_spec. apply SFeqb_leb. Qed.

(** The division of [zoom_to_target] never fails: the guard before it has
    excluded both zeros. *)
Lemma truediv_positive (a b : float) :
  (b <=? 0)%float = false -> Py.truediv a b = Py.Ok (a / b)%float.
Proof.
  intros Hb. unfold Py.truediv.
  destruct (b =? 0)%float eqn:E; [|reflexivity].
  apply eqb_leb in E. congruence.
Qed.

Lemma truediv_nonzero (a b : float) :
  (b =? 0)%float = false -> Py.truediv a b = Py.Ok (a / b)%float.
Proof. intros Hb. unfold Py.truediv. rewrite Hb. reflexivity. Qed.

(** [point_to_target] outside the dead zone, on a frame of non-zero
    width and height: the call of [relative_move] and what follows it. *)
Lemma point_to_target_outside (h : Heap) (target_x target_y : float)
    (frame_width frame_height : Z) (track_id : option Z) :
  PTZController.within_hysteresis (controller h) target_x target_y = false ->
  (Py.float_of_int frame_width =? 0)%float = false ->
  (Py.float_of_int frame_height =? 0)%float = false ->
  PTZController.point_to_target target_x target_y frame_width frame_height track_id h
  = let m := PTZClient.relative_move (pan_offset target_x frame_width)
               (tilt_offset target_y frame_height) 0 (Obj.pan_speed (controller h)) h in
    if fst m then (Py.Ok true, active (targeted (target_x, target_y) (snd m)))
    else (Py.Ok false, snd m).
Proof.
  intros Hz Hw Hh. unfold PTZController.point_to_target.
  rewrite bind_run. rewrite !get_run. cbn [fst snd].
  rewrite Hz, (truediv_nonzero _ _ Hw), (truediv_nonzero _ _ Hh).
  fold (pan_offset target_x frame_width). fold (tilt_offset target_y frame_height).
  cbv zeta. rewrite bind_run.
  destruct (PTZClient.relative_move _ _ _ _ h) as [[|] h1]; cbn [fst snd].
  - rewrite bind_run, bind_run, get_run. cbn [fst snd].
    rewrite bind_run, set_controller_run. cbn [fst snd].
    rewrite mark_activity_run. reflexivity.
  - rewrite bind_run. reflexivity.
Qed.

End StoreFacts.

(** C7.  A [relative_move] that arrives within [move_rate_limit_s] of the
    last accepted motion command returns false, sends nothing to the device
    and leaves [last_move_time] (the whole client) as it was; a
    [zoom_to_target] called in that situation returns false and leaves
    [current_zoom] (the whole controller) as it was. *)
Theorem rate_limited_move_refused (h : Heap) (pan tilt zoom speed : float) :
  rate_limited h = true ->
  (let r := PTZClient.relative_move pan tilt zoom speed h in
   fst r = false
   /\ World.wire (world (snd r)) = World.wire (world h)
   /\ ptz (snd r) = ptz h)
  /\ (forall target_height desired_height track_id,
        let r := PTZController.zoom_to_target target_height desired_height track_id h in
        fst r = Py.Ok false
        /\ Obj.current_zoom (controller (snd r)) = Obj.current_zoom (controller h)
        /\ controller (snd r) = controller h
        /\ ptz (snd r) = ptz h
        /\ World.wire (world (snd r)) = World.wire (world h)).
Proof.
  intros Hl. split.
  - rewrite relative_move_limited by assumption. auto.
  - intros target_height desired_height track_id.
    unfold PTZController.zoom_to_target.
    destruct (target_height <=? 0)%float eqn:Eg; [cbn; auto 6|].
    rewrite truediv_positive by assumption.
    rewrite bind_run. rewrite !get_run. cbn [fst snd].
    destruct (1.2 <? desired_height / target_height)%float.
    + rewrite bind_run, relative_move_limited by assumption. cbn. auto 6.
    + destruct (desired_height / target_height <? 0.8)%float.
      * rewrite bind_run, relative_move_limited by assumption. cbn. auto 6.
      * cbn. auto 6.
Qed.

(** C7, witness: a move 0.5 s after the last accepted one. *)
Lemma rate_limited_move_refused_witness :
  let r := PTZClient.relative_move 0.1 0.1 0 0.5 (Rest.heap 999.5) in
  fst r = false
  /\ World.wire (world (snd r)) = World.wire (world (Rest.heap 999.5))
  /\ ptz (snd r) = ptz (Rest.heap 999.5).
Proof.
  apply (rate_limited_move_refused (Rest.heap 999.5) 0.1 0.1 0 0.5).
  vm_compute. reflexivity.
Defined.

(** C6.  With a last target position recorded, a target within
    [hysteresis_pixels] of it on both axes makes [point_to_target] return
    false with the store untouched: no request, no clock reading.  A target
    outside that zone (on a frame of non-zero size) makes it call
    [relative_move] with pan_offset = (tx - W/2)/W, tilt_offset =
    -(ty - H/2)/H, zoom 0 and the pan speed, and return what that call
    returns; when the rate limit lets the move through and the device raises
    no fault, the device receives that move (offsets clamped to [-1, 1]) and
    the position is recorded. *)
Theorem hysteresis_gate (h : Heap) (target_x target_y : float)
    (frame_width frame_height : Z) (track_id : option Z) (last_x last_y : float) :
  Obj.last_target_position (controller h) = Some (last_x, last_y) ->
  let inside :=
    (abs (target_x - last_x) <? Obj.hysteresis_pixels (controller h))%float
    && (abs (target_y - last_y) <? Obj.hysteresis_pixels (controller h))%float in
  let r := PTZController.point_to_target target_x target_y frame_width frame_height
             track_id h in
  let m := PTZClient.relative_move (pan_offset target_x frame_width)
             (tilt_offset target_y frame_height) 0 (Obj.pan_speed (controller h)) h in
  (inside = true -> r = (Py.Ok false, h))
  /\ (inside = false ->
      (Py.float_of_int frame_width =? 0)%float = false ->
      (Py.float_of_int frame_height =? 0)%float = false ->
      fst r = Py.Ok (fst m)
      /\ World.wire (world (snd r)) = World.wire (world (snd m))
      /\ ptz (snd r) = ptz (snd m)
      /\ (rate_limited h = false -> no_fault 3 h ->
          fst r = Py.Ok true
          /\ World.wire (world (snd r))
             = World.wire (world h)
               ++ [World.GetStatus; World.GetStatus;
                   relative_move_request (pan_offset target_x frame_width)
                     (tilt_offset target_y frame_height) 0 (Obj.pan_speed (controller h))]
          /\ Obj.last_target_position (controller (snd r)) = Some (target_x, target_y))).
Proof.
  intros Hlast inside r m.
  assert (Hin : PTZController.within_hysteresis (controller h) target_x target_y = inside).
  { unfold PTZController.within_hysteresis. rewrite Hlast. reflexivity. }
  split.
  - intros Hi. subst r. unfold PTZController.point_to_target.
    rewrite bind_run. rewrite !get_run. cbn [fst snd]. rewrite Hin, Hi. reflexivity.
  - intros Hi Hw Hh. rewrite Hi in Hin.
    pose proof (point_to_target_outside h target_x target_y frame_width frame_height
                  track_id Hin Hw Hh) as Hrun.
    fold r in Hrun. cbv zeta in Hrun. fold m in Hrun.
    split; [|split; [|split]].
    + rewrite Hrun. destruct (fst m); reflexivity.
    + rewrite Hrun. destruct (fst m); reflexivity.
    + rewrite Hrun. destruct (fst m); reflexivity.
    + intros Hl Hf. rewrite Hrun. subst m.
      rewrite (relative_move_accepted _ _ _ _ h Hl Hf). cbn [fst snd].
      split; [reflexivity|]. split; [|reflexivity].
      cbn. rewrite <- !app_assoc. reflexivity.
Qed.

(** C6, witness: after a first call at (640, 360), a call at (660, 370) on
    a 1280 x 720 frame stays inside the 50 pixel zone. *)
Lemma hysteresis_gate_witness :
  PTZController.point_to_target 660 370 1280 720 None Rest.pointed
  = (Py.Ok false, Rest.pointed).
Proof.
  apply (hysteresis_gate Rest.pointed 660 370 1280 720 None 640 360).
  - vm_compute. reflexivity.
  - vm_compute. reflexivity.
Defined.

(** C10.  With no last target position recorded, as after
    [PTZController.__init__], [point_to_target] makes no dead-zone test: for
    any target on a frame of non-zero size it calls [relative_move] with the
    offsets of the target and returns what that call returns; when the rate
    limit lets the move through and the device raises no fault the device
    receives the move, also for a target at the frame center, whose offsets
    are zero. *)
Theorem first_call_bypasses_hysteresis (h : Heap) (target_x target_y : float)
    (frame_width frame_height : Z) (track_id : option Z) :
  Obj.last_target_position (controller h) = None ->
  (Py.float_of_int frame_width =? 0)%float = false ->
  (Py.float_of_int frame_height =? 0)%float = false ->
  let r := PTZController.point_to_target target_x target_y frame_width frame_height
             track_id h in
  let m := PTZClient.relative_move (pan_offset target_x frame_width)
             (tilt_offset target_y frame_height) 0 (Obj.pan_speed (controller h)) h in
  fst r = Py.Ok (fst m)
  /\ World.wire (world (snd r)) = World.wire (world (snd m))
  /\ ptz (snd r) = ptz (snd m)
  /\ (rate_limited h = false -> no_fault 3 h ->
      fst r = Py.Ok true
      /\ World.wire (world (snd r))
         = World.wire (world h)
           ++ [World.GetStatus; World.GetStatus;
               relative_move_request (pan_offset target_x frame_width)
                 (tilt_offset target_y frame_height) 0 (Obj.pan_speed (controller h))]
      /\ Obj.last_target_position (controller (snd r)) = Some (target_x, target_y)).
Proof.
  intros Hnone Hw Hh r m.
  assert (Hin : PTZController.within_hysteresis (controller h) target_x target_y = false).
  { unfold PTZController.within_hysteresis. rewrite Hnone. reflexivity. }
  pose proof (point_to_target_outside h target_x target_y frame_width frame_height
                track_id Hin Hw Hh) as Hrun.
  fold r in Hrun. cbv zeta in Hrun. fold m in Hrun.
  split; [|split; [|split]].
  - rewrite Hrun. destruct (fst m); reflexivity.
  - rewrite Hrun. destruct (fst m); reflexivity.
  - rewrite Hrun. destruct (fst m); reflexivity.
  - intros Hl Hf. rewrite Hrun. subst m.
    rewrite (relative_move_accepted _ _ _ _ h Hl Hf). cbn [fst snd].
    split; [reflexivity|]. split; [|reflexivity].
    cbn. rewrite <- !app_assoc. reflexivity.
Qed.

(** The first call, at the center of a 1280 x 720 frame: both offsets are
    zero and the move is sent all the same. *)
Lemma center_move_sent :
  pan_offset 640 1280 = 0%float
  /\ tilt_offset 360 720 = (-0)%float
  /\ fst (PTZController.point_to_target 640 360 1280 720 None (Rest.heap 0)) = Py.Ok true
  /\ World.wire (world Rest.pointed)
     = [World.GetStatus; World.GetStatus; World.RelativeMove 0 (-0) 0 0.5].
Proof. repeat split; vm_compute; reflexivity. Qed.

(** C10, witness: the first call, at the center of the frame. *)
Lemma first_call_bypasses_hysteresis_witness :
  let r := PTZController.point_to_target 640 360 1280 720 None (Rest.heap 0) in
  let m := PTZClient.relative_move (pan_offset 640 1280) (tilt_offset 360 720) 0
             (Obj.pan_speed (controller (Rest.heap 0))) (Rest.heap 0) in
  fst r = Py.Ok (fst m)
  /\ World.wire (world (snd r)) = World.wire (world (snd m))
  /\ ptz (snd r) = ptz (snd m).
Proof.
  destruct (first_call_bypasses_hysteresis (Rest.heap 0) 640 360 1280 720 None)
    as (H1 & H2 & H3 & _).
  - reflexivity.
  - vm_compute. reflexivity.
  - vm_compute. reflexivity.
  - cbv zeta. auto.
Defined.

(** ** The idle monitor *)

Section IdleFacts.

(** [goto_preset_by_id], exit by exit. *)
Lemma goto_preset_by_id_run (preset_id : Z) (h : Heap) :
  PresetManager.goto_preset_by_id preset_id h =
  match preset_by_id preset_id h with
  | None => (false, h)
  | Some _ =>
      let g := PTZClient.goto_preset (PresetManager.str preset_id) h in
      if fst g then (true, active (snd g)) else (false, snd g)
  end.
Proof.
  unfold PresetManager.goto_preset_by_id, preset_by_id.
  rewrite bind_run, get_run. cbn [fst snd].
  destruct (List.find _ _); [|reflexivity].
  rewrite bind_run. cbv zeta.
  destruct (PTZClient.goto_preset _ h) as [[|] h1]; cbn [fst snd].
  - rewrite bind_run, mark_activity_run. reflexivity.
  - rewrite bind_run. reflexivity.
Qed.

(** The first half of a monitor pass that finds the timeout exceeded while
    not idle and has a default preset: the flag is set, then
    [goto_preset_by_id] runs. *)
Lemma idle_monitor_tick_entering (h : Heap) :
  Obj.idle_enabled (preset_mgr h) = true ->
  Obj.is_idle (preset_mgr h) = false ->
  (Obj.idle_timeout_s (preset_mgr h) <? now h - Obj.last_activity_time (preset_mgr h))%float
    = true ->
  Obj.default_preset_id (preset_mgr h) <> 0 ->
  PresetManager.idle_monitor_tick h =
  let h1 := snd (PresetManager.goto_preset_by_id (Obj.default_preset_id (preset_mgr h))
                   (idled (clock_read h))) in
  if Obj.sweep_enabled (preset_mgr h1) && Obj.is_idle (preset_mgr h1)
  then (Obj.sweep_interval_s (preset_mgr h1), snd (PresetManager.next_preset h1))
  else (1%float, h1).
Proof.
  intros Hen Hidle Htmo Hdef. unfold PresetManager.idle_monitor_tick.
  rewrite bind_run, time_time_run. cbn [fst snd].
  rewrite bind_run, get_run. cbn [fst snd].
  cbn [preset_mgr clock_read]. rewrite Hen, Hidle. fold (now h). rewrite Htmo.
  cbn [andb negb].
  apply Z.eqb_neq in Hdef. rewrite Hdef. cbn [negb].
  match goal with
  | |- bind ?first ?second _ = _ =>
      set (m1 := first); set (m2 := second)
  end.
  rewrite bind_run.
  assert (E1 : snd (m1 (clock_read h))
               = snd (PresetManager.goto_preset_by_id
                        (Obj.default_preset_id (preset_mgr h)) (idled (clock_read h)))).
  { subst m1. rewrite bind_run, set_preset_mgr_run. cbn [fst snd].
    rewrite bind_run. reflexivity. }
  rewrite E1. subst m2. cbv beta.
  set (h1 := snd (PresetManager.goto_preset_by_id _ (idled (clock_read h)))).
  rewrite bind_run, get_run. cbn [fst snd].
  destruct (Obj.sweep_enabled (preset_mgr h1) && Obj.is_idle (preset_mgr h1));
    rewrite ?bind_run; reflexivity.
Qed.

End IdleFacts.

(** C8, on the code.  When the idle timeout has passed, the flag is false,
    the default preset exists, the rate limit lets a command through and the
    device raises no fault, one pass of the idle monitor sends exactly the
    goto-preset of the default preset, and ends with the idle flag FALSE:
    the flag set at the start of the pass is cleared, within the pass, by the
    [mark_activity] that [goto_preset_by_id] performs on success.  No sweep
    follows, and the pass sleeps 1 s. *)
Theorem idle_return_leaves_idle_mode (h : Heap) (preset : World.Preset) :
  Obj.idle_enabled (preset_mgr h) = true ->
  Obj.is_idle (preset_mgr h) = false ->
  (Obj.idle_timeout_s (preset_mgr h) <? now h - Obj.last_activity_time (preset_mgr h))%float
    = true ->
  Obj.default_preset_id (preset_mgr h) <> 0 ->
  preset_by_id (Obj.default_preset_id (preset_mgr h)) h = Some preset ->
  rate_limited (clock_read h) = false ->
  faulty h = false ->
  let r := PresetManager.idle_monitor_tick h in
  World.wire (world (snd r))
    = World.wire (world h)
      ++ [World.GotoPreset (PresetManager.str (Obj.default_preset_id (preset_mgr h)))]
  /\ Obj.is_idle (preset_mgr (snd r)) = false
  /\ fst r = 1%float.
Proof.
  intros Hen Hidle Htmo Hdef Hfind Hrate Hfault.
  cbv zeta. rewrite (idle_monitor_tick_entering h Hen Hidle Htmo Hdef). cbv zeta.
  rewrite goto_preset_by_id_run.
  change (preset_by_id (Obj.default_preset_id (preset_mgr h)) (idled (clock_read h)))
    with (preset_by_id (Obj.default_preset_id (preset_mgr h)) h).
  rewrite Hfind. cbv zeta. rewrite goto_preset_run.
  change (rate_limited (idled (clock_read h))) with (rate_limited (clock_read h)).
  rewrite Hrate. cbv zeta.
  change (faulty (clock_read (idled (clock_read h)))) with (faulty h).
  rewrite Hfault. cbn [fst snd].
  rewrite active_not_idle, andb_false_r. cbn [fst snd].
  split; [reflexivity|]. split; [apply active_not_idle|reflexivity].
Qed.

(** C8, witness: no activity for 1.2 s with [idle_timeout_s = 1] and
    default preset 2; the pass sends the goto-preset of preset 2 and ends
    not idle. *)
Lemma idle_return_leaves_idle_mode_witness :
  let r := PresetManager.idle_monitor_tick (Rest.heap 0) in
  World.wire (world (snd r)) = [World.GotoPreset "2"]
  /\ Obj.is_idle (preset_mgr (snd r)) = false
  /\ fst r = 1%float.
Proof.
  apply (idle_return_leaves_idle_mode (Rest.heap 0) (World.mkPreset "2" "yard" 0.5 0 0)).
  - reflexivity.
  - reflexivity.
  - vm_compute. reflexivity.
  - discriminate.
  - vm_compute. reflexivity.
  - vm_compute. reflexivity.
  - reflexivity.
Defined.

(** The same pass 0.5 s after an accepted move that marked no activity (a
    MOVE_RELATIVE command handled by the service goes to the client
    directly): both goto-presets of the pass are refused by the rate limit,
    nothing is sent, and the flag stays set, so that later passes do not
    try the default preset again. *)
Lemma idle_return_rate_limited :
  let r := PresetManager.idle_monitor_tick (Rest.heap 999.5) in
  World.wire (world (snd r)) = []
  /\ Obj.is_idle (preset_mgr (snd r)) = true
  /\ fst r = 60%float.
Proof. repeat split; vm_compute; reflexivity. Qed.

(** ** Runs of the tracker *)

Section TrackerRuns.

Import VehicleTracker.

Lemma dict_set_keys {V : Type} (k0 : Z) (v : V) (d : list (Z * V)) (k : Z) :
  In k (map fst (Py.dict_set k0 v d)) -> k = k0 \/ In k (map fst d).
Proof.
  induction d as [|[k1 v1] d IH]; simpl.
  - intros [<-|[]]. left. reflexivity.
  - destruct (k1 =? k0) eqn:E; simpl.
    + apply Z.eqb_eq in E. subst k1. intros [<-|H]; auto.
    + intros [<-|H]; auto. destruct (IH H); auto.
Qed.

Lemma dict_set_Forall {V : Type} (Q : Z * V -> Prop) (k0 : Z) (v : V) (d : list (Z * V)) :
  List.Forall Q d -> Q (k0, v) -> List.Forall Q (Py.dict_set k0 v d).
Proof.
  induction d as [|[k1 v1] d IH]; simpl; intros Hd Hq.
  - repeat constructor. exact Hq.
  - apply List.Forall_cons_iff in Hd as [H1 Hd].
    destruct (k1 =? k0); constructor; auto.
Qed.

Lemma spawn_keys used detections :
  forall det_idx trs nid trs' nid',
    spawn used det_idx detections trs nid = (trs', nid') ->
    nid <= nid'
    /\ forall k, In k (map fst trs') -> In k (map fst trs) \/ nid <= k < nid'.
Proof.
  induction detections as [|[[bbox vc] conf] detections IH]; simpl;
    intros det_idx trs nid trs' nid' Hs.
  - injection Hs as <- <-. split; [lia|]. auto.
  - destruct (decide (det_idx ∈ used)).
    + eapply IH; eassumption.
    + apply IH in Hs as [Hle Hk]. split; [lia|].
      intros k Hin. destruct (Hk k Hin) as [H|H]; [|right; lia].
      apply dict_set_keys in H as [->|H]; [right; lia|left; exact H].
Qed.

Lemma remove_dead_keys self k :
  In k (map fst (tracks (_remove_dead_tracks self))) -> In k (map fst (tracks self)).
Proof.
  rewrite !in_map_iff. intros ([k' t] & <- & Hin).
  apply remove_dead_In in Hin as [Hin _]. exists (k', t). auto.
Qed.

(** One frame: [next_id] does not decrease, and an id held afterwards was
    held before or has just been allocated. *)
Lemma update_ids self detections :
  next_id self <= next_id (fst (update self detections))
  /\ forall k, In k (ids (fst (update self detections))) ->
       In k (ids self) \/ next_id self <= k < next_id (fst (update self detections)).
Proof.
  unfold ids, update.
  set (ptracks := map (fun kv => (fst kv, Track.predict (snd kv))) (tracks self)).
  assert (Hpk : map fst ptracks = map fst (tracks self)).
  { unfold ptracks. rewrite map_map. reflexivity. }
  destruct (length detections =? 0)%nat.
  - cbn [fst]. split; [simpl; lia|].
    intros k Hin. apply remove_dead_keys in Hin. simpl in Hin.
    rewrite Hpk in Hin. auto.
  - unfold _associate_detections. cbn [iou_threshold tracks next_id max_age min_hits].
    destruct (match_tracks _ _ _ _) as [[trs used] matches] eqn:Em.
    destruct (spawn _ _ _ _ _) as [trs' nid] eqn:Es.
    apply match_tracks_entries in Em as [Hk _].
    apply spawn_keys in Es as [Hle Hin']. cbn [fst next_id _remove_dead_tracks].
    split; [exact Hle|].
    intros k Hin. apply remove_dead_keys in Hin. cbn [tracks] in Hin.
    destruct (Hin' k Hin) as [H|H]; [|auto].
    rewrite Hk, Hpk in H. auto.
Qed.

Lemma run_ids frames :
  forall self,
    next_id self <= next_id (run self frames)
    /\ forall k, In k (ids (run self frames)) ->
         In k (ids self) \/ next_id self <= k < next_id (run self frames).
Proof.
  induction frames as [|detections frames IH]; intros self; simpl.
  - split; [lia|auto].
  - destruct (IH (fst (update self detections))) as [Hle Hin].
    destruct (update_ids self detections) as [Hle1 Hin1].
    split; [lia|].
    intros k Hk. destruct (Hin k Hk) as [H|H]; [|right; lia].
    destruct (Hin1 k H) as [H'|H']; [auto|right; lia].
Qed.

Lemma run_reachable frames :
  forall self, reachable self -> reachable (run self frames).
Proof.
  induction frames as [|detections frames IH]; intros self Hr; simpl; [assumption|].
  apply IH, reachable_update, Hr.
Qed.

Lemma coast_S (n : nat) (self : t) :
  coast (S n) self = fst (update (coast n self) []).
Proof. reflexivity. Qed.

Lemma coast_reachable (n : nat) (self : t) : reachable self -> reachable (coast n self).
Proof.
  intros Hr. induction n as [|n IH]; [exact Hr|].
  rewrite coast_S. apply reachable_update, IH.
Qed.

(** With the keys in ascending order an id has one entry. *)
Lemma sorted_keys_functional {V : Type} (d : list (Z * V)) (k : Z) (v v' : V) :
  StronglySorted Z.lt (map fst d) -> In (k, v) d -> In (k, v') d -> v = v'.
Proof.
  induction d as [|[k0 v0] d IH]; simpl; intros Hs Hin Hin'; [contradiction|].
  apply StronglySorted_inv in Hs as [Hs Hall]. rewrite List.Forall_forall in Hall.
  assert (Hlt : forall w, In (k, w) d -> k0 < k).
  { intros w Hw. apply Hall. apply in_map_iff. exists (k, w). auto. }
  destruct Hin as [E|Hin], Hin' as [E'|Hin'].
  - congruence.
  - injection E as -> ->. specialize (Hlt _ Hin'). lia.
  - injection E' as -> ->. specialize (Hlt _ Hin). lia.
  - eauto.
Qed.

Lemma find_key_In {V : Type} (d : list (Z * V)) (k : Z) (v : V) :
  StronglySorted Z.lt (map fst d) ->
  (List.find (fun kv => fst kv =? k) d = Some (k, v) <-> In (k, v) d).
Proof.
  intros Hs. split.
  - intros H. apply List.find_some in H as [H _]. exact H.
  - intros Hin. destruct (List.find _ d) as [[k' v']|] eqn:E.
    + apply List.find_some in E as [Hin' Hk]. simpl in Hk. apply Z.eqb_eq in Hk. subst k'.
      rewrite (sorted_keys_functional d k v v' Hs Hin Hin'). reflexivity.
    + eapply List.find_none in E; [|exact Hin]. simpl in E.
      rewrite Z.eqb_refl in E. discriminate.
Qed.

(** A property of tracks that holds of a new track and is kept by
    [predict] and by [Track.update] holds of every track of every tracker a
    run reaches. *)
Lemma match_tracks_Forall (P : Track.t -> Prop) thr detections :
  (forall t b c, P t -> P (Track.update t b c)) ->
  forall trs used trs' used' matches,
    match_tracks thr detections trs used = (trs', used', matches) ->
    List.Forall (fun kv => P (snd kv)) trs -> List.Forall (fun kv => P (snd kv)) trs'.
Proof.
  intros Hupd. induction trs as [|[k track] trs IH]; simpl;
    intros used trs' used' matches Hm Hall.
  - injection Hm as <- <- <-. constructor.
  - apply List.Forall_cons_iff in Hall as [Hp Hall]. simpl in Hp.
    destruct (0 <=? snd (best_detection thr (Track.bbox track) used detections)).
    + destruct (detections !! _) as [[[bbox vc] conf]|].
      * destruct (match_tracks thr detections trs _) as [[r u] m] eqn:E.
        injection Hm as <- <- <-. constructor; [apply Hupd, Hp|eauto].
      * destruct (match_tracks thr detections trs _) as [[r u] m] eqn:E.
        injection Hm as <- <- <-. constructor; [exact Hp|eauto].
    + destruct (match_tracks thr detections trs _) as [[r u] m] eqn:E.
      injection Hm as <- <- <-. constructor; [exact Hp|eauto].
Qed.

Lemma spawn_Forall (P : Track.t -> Prop) used detections :
  (forall id b vc c, P (Track.new id b vc c)) ->
  forall det_idx trs nid trs' nid',
    spawn used det_idx detections trs nid = (trs', nid') ->
    List.Forall (fun kv => P (snd kv)) trs -> List.Forall (fun kv => P (snd kv)) trs'.
Proof.
  intros Hnew. induction detections as [|[[bbox vc] conf] detections IH]; simpl;
    intros det_idx trs nid trs' nid' Hs Hall.
  - injection Hs as <- <-. exact Hall.
  - destruct (decide (det_idx ∈ used)).
    + eapply IH; eassumption.
    + eapply IH; [exact Hs|]. apply dict_set_Forall; [exact Hall|apply Hnew].
Qed.

Lemma remove_dead_Forall (Q : Z * Track.t -> Prop) self :
  List.Forall Q (tracks self) -> List.Forall Q (tracks (_remove_dead_tracks self)).
Proof.
  rewrite !List.Forall_forall. intros Hall [k t] Hin.
  apply remove_dead_In in Hin as [Hin _]. apply Hall, Hin.
Qed.

Lemma reachable_tracks_inv (P : Track.t -> Prop) :
  (forall id b vc c, P (Track.new id b vc c)) ->
  (forall t, P t -> P (Track.predict t)) ->
  (forall t b c, P t -> P (Track.update t b c)) ->
  forall self, reachable self -> List.Forall (fun kv => P (snd kv)) (tracks self).
Proof.
  intros Hnew Hpred Hupd self Hr.
  induction Hr as [a h i|self detections _ IH]; [constructor|].
  unfold update.
  set (ptracks := map (fun kv => (fst kv, Track.predict (snd kv))) (tracks self)).
  assert (Hpp : List.Forall (fun kv => P (snd kv)) ptracks).
  { unfold ptracks. rewrite List.Forall_map. simpl.
    eapply List.Forall_impl; [|exact IH]. intros kv. apply Hpred. }
  destruct (length detections =? 0)%nat.
  - cbn [fst]. apply remove_dead_Forall. exact Hpp.
  - unfold _associate_detections. cbn [iou_threshold tracks next_id max_age min_hits].
    destruct (match_tracks _ _ _ _) as [[trs used] matches] eqn:Em.
    destruct (spawn _ _ _ _ _) as [trs' nid] eqn:Es.
    cbn [fst]. apply remove_dead_Forall. cbn [tracks].
    eapply spawn_Forall; [exact Hnew|exact Es|].
    eapply match_tracks_Forall; [exact Hupd|exact Em|exact Hpp].
Qed.

End TrackerRuns.

(** X1.  Track ids are never reused.  In a tracker a run has reached every id
    held is below [next_id]; over any further frames [next_id] does not
    decrease, and an id below [next_id] that is not held (the id of a
    track that was removed) is never held again. *)
Theorem track_ids_never_reused (self : VehicleTracker.t) (frames : list (list Detection)) :
  VehicleTracker.reachable self ->
  (forall k, In k (ids self) -> k < VehicleTracker.next_id self)
  /\ VehicleTracker.next_id self <= VehicleTracker.next_id (run self frames)
  /\ (forall k, k < VehicleTracker.next_id self -> ~ In k (ids self) ->
        ~ In k (ids (run self frames))).
Proof.
  intros Hr. destruct (run_ids frames self) as [Hle Hin].
  split; [|split; [exact Hle|]].
  - apply reachable_wf in Hr as [_ Hall]. rewrite List.Forall_forall in Hall.
    intros k Hk. apply in_map_iff in Hk as (kv & <- & Hk). apply (Hall kv Hk).
  - intros k Hlt Hnot Hk. destruct (Hin k Hk) as [H|H]; [contradiction|lia].
Qed.

(** X1, witness: track 1, spawned by the first frame, is removed after 31
    frames without detections; a car seen afterwards gets id 2. *)
Lemma track_ids_never_reused_witness :
  (forall k, In k (ids (coast 31 Frames.tracker1)) ->
     k < VehicleTracker.next_id (coast 31 Frames.tracker1))
  /\ VehicleTracker.next_id (coast 31 Frames.tracker1)
     <= VehicleTracker.next_id (run (coast 31 Frames.tracker1) [[Frames.car]])
  /\ (forall k, k < VehicleTracker.next_id (coast 31 Frames.tracker1) ->
        ~ In k (ids (coast 31 Frames.tracker1)) ->
        ~ In k (ids (run (coast 31 Frames.tracker1) [[Frames.car]]))).
Proof.
  apply (track_ids_never_reused (coast 31 Frames.tracker1) [[Frames.car]]).
  apply coast_reachable, tracker1_reachable.
Defined.

Section TrackerQueries.

Import VehicleTracker.

Lemma filter_map_StronglySorted {A : Type} (f : A -> Z) (p : A -> bool) (l : list A) :
  StronglySorted Z.lt (map f l) -> StronglySorted Z.lt (map f (List.filter p l)).
Proof.
  induction l as [|a l IH]; simpl; intros Hs; [constructor|].
  apply StronglySorted_inv in Hs as [Hs Hall].
  destruct (p a); simpl; [|auto].
  constructor; [auto|].
  rewrite List.Forall_forall in *. intros x Hx. apply Hall.
  rewrite in_map_iff in *. destruct Hx as (y & <- & Hy).
  apply List.filter_In in Hy as [Hy _]. eauto.
Qed.

(** In a well-formed tracker the tracks, in dict order, carry their keys. *)
Lemma wf_track_ids self :
  wf self -> map Track.track_id (get_all_tracks self) = map fst (tracks self).
Proof.
  intros [_ Hall]. unfold get_all_tracks. rewrite map_map.
  apply map_ext_in. intros kv Hin. rewrite List.Forall_forall in Hall.
  apply (Hall kv Hin).
Qed.

End TrackerQueries.

(** X2.  The list [update] returns holds the confirmed tracks in strictly
    ascending order of [track_id]: it is [get_all_tracks] of the tracker
    after the call, restricted to the tracks with [hits >= min_hits]. *)
Theorem returned_tracks_ascending (self : VehicleTracker.t) (detections : list Detection) :
  VehicleTracker.reachable self ->
  StronglySorted Z.lt (map Track.track_id (snd (VehicleTracker.update self detections)))
  /\ forall track,
       In track (snd (VehicleTracker.update self detections))
       <-> In track (VehicleTracker.get_all_tracks (fst (VehicleTracker.update self detections)))
           /\ VehicleTracker.min_hits self <= Track.hits track.
Proof.
  intros Hr.
  pose proof (update_wf self detections (reachable_wf self Hr)) as Hwf.
  pose proof (wf_track_ids _ Hwf) as Hids. destruct Hwf as [Hs _].
  pose proof (update_config self detections) as (_ & Hmin & _).
  unfold VehicleTracker.get_all_tracks in *. unfold VehicleTracker.update in *.
  destruct (if (length detections =? 0)%nat then _ else _) as [associated matched].
  cbn [fst snd] in *. split.
  - apply filter_map_StronglySorted. rewrite Hids. exact Hs.
  - intros track. rewrite List.filter_In, Z.leb_le, Hmin. reflexivity.
Qed.

(** X2, witness: a second frame that shows the car of the first again. *)
Lemma returned_tracks_ascending_witness :
  StronglySorted Z.lt
    (map Track.track_id (snd (VehicleTracker.update Frames.tracker1 [Frames.car])))
  /\ forall track,
       In track (snd (VehicleTracker.update Frames.tracker1 [Frames.car]))
       <-> In track (VehicleTracker.get_all_tracks
                       (fst (VehicleTracker.update Frames.tracker1 [Frames.car])))
           /\ VehicleTracker.min_hits Frames.tracker1 <= Track.hits track.
Proof.
  apply (returned_tracks_ascending Frames.tracker1 [Frames.car]).
  exact tracker1_reachable.
Defined.

(** X3.  [get_track(id)] returns the track whose [track_id] is [id], and
    [None] exactly when the tracker holds no such track: the key a track is
    stored under is always its own id. *)
Theorem get_track_by_id (self : VehicleTracker.t) (track_id : Z) :
  VehicleTracker.reachable self ->
  (forall track,
     VehicleTracker.get_track self track_id = Some track
     <-> In track (VehicleTracker.get_all_tracks self) /\ Track.track_id track = track_id)
  /\ (VehicleTracker.get_track self track_id = None
      <-> ~ In track_id (map Track.track_id (VehicleTracker.get_all_tracks self))).
Proof.
  intros Hr. apply reachable_wf in Hr as Hwf.
  pose proof (wf_track_ids _ Hwf) as Hids. destruct Hwf as [Hs Hall].
  rewrite List.Forall_forall in Hall.
  assert (Hsome : forall track,
    VehicleTracker.get_track self track_id = Some track
    <-> In track (VehicleTracker.get_all_tracks self) /\ Track.track_id track = track_id).
  { intros track. unfold VehicleTracker.get_track, VehicleTracker.get_all_tracks. split.
    - destruct (List.find _ _) as [[k t]|] eqn:E; [|discriminate].
      simpl. intros [= ->]. apply List.find_some in E as [Hin Hk].
      simpl in Hk. apply Z.eqb_eq in Hk. subst k.
      split; [apply in_map_iff; exists (track_id, track); auto|].
      apply (Hall _ Hin).
    - intros [Hin Hid]. apply in_map_iff in Hin as ([k t] & Ht & Hin).
      simpl in Ht. subst t.
      assert (Hk : k = track_id).
      { destruct (Hall _ Hin) as (_ & Hk & _). simpl in Hk. congruence. }
      subst k. apply (find_key_In _ _ _ Hs) in Hin. rewrite Hin. reflexivity. }
  split; [exact Hsome|].
  split.
  - intros Hnone Hin. apply in_map_iff in Hin as (track & Hid & Hin).
    destruct (Hsome track) as [_ H]. rewrite H in Hnone by auto. discriminate.
  - intros Hnot. destruct (VehicleTracker.get_track self track_id) as [track|] eqn:E;
      [|reflexivity].
    destruct (Hsome track) as [H _]. destruct (H eq_refl) as [Hin Hid].
    exfalso. apply Hnot.
    apply in_map_iff. exists track. auto.
Qed.

(** X3, witness: track 1 after the first frame. *)
Lemma get_track_by_id_witness :
  (forall track,
     VehicleTracker.get_track Frames.tracker1 1 = Some track
     <-> In track (VehicleTracker.get_all_tracks Frames.tracker1)
         /\ Track.track_id track = 1)
  /\ (VehicleTracker.get_track Frames.tracker1 1 = None
      <-> ~ In 1 (map Track.track_id (VehicleTracker.get_all_tracks Frames.tracker1))).
Proof. apply (get_track_by_id Frames.tracker1 1). exact tracker1_reachable. Defined.

Section Accounting.

Import VehicleTracker.

(** The detections claimed when the loop over the tracks ends are those
    claimed when it started and those of the matches. *)
Lemma match_tracks_used thr detections trs :
  forall used trs' used' matches,
    match_tracks thr detections trs used = (trs', used', matches) ->
    forall j, j ∈ used' <-> j ∈ used \/ In j (map snd matches).
Proof.
  induction trs as [|[tid track] trs IH]; intros used trs' used' matches Hm;
    cbn [match_tracks] in Hm.
  - injection Hm as <- <- <-. simpl. tauto.
  - destruct (0 <=? snd (best_detection thr (Track.bbox track) used detections)).
    + unfold Detection in *.
      destruct (detections !! _) as [[[bbox vc] conf]|].
      * destruct (match_tracks thr detections trs _) as [[r u] m] eqn:E.
        injection Hm as <- <- <-. intros j.
        rewrite (IH _ _ _ _ E j), elem_of_union, elem_of_singleton. simpl.
        intuition congruence.
      * destruct (match_tracks thr detections trs _) as [[r u] m] eqn:E.
        injection Hm as <- <- <-. apply (IH _ _ _ _ E).
    + destruct (match_tracks thr detections trs _) as [[r u] m] eqn:E.
      injection Hm as <- <- <-. apply (IH _ _ _ _ E).
Qed.

(** A matched detection index is an index of the list. *)
Lemma match_tracks_range thr detections trs used trs' used' matches :
  match_tracks thr detections trs used = (trs', used', matches) ->
  forall k, In k (map snd matches) -> 0 <= k < Z.of_nat (length detections).
Proof.
  intros Hm k Hin. apply in_map_iff in Hin as ([tid k'] & Hk & Hin). simpl in Hk. subst k'.
  apply in_split in Hin as (m1 & m2 & Heq).
  apply match_tracks_spec in Hm as (_ & _ & _ & Hpre).
  destruct (Hpre _ _ _ _ Heq) as (track & U & _ & _ & Hk & Hk0).
  split; [exact Hk0|]. rewrite Hk in Hk0 |- *.
  apply best_detection_range in Hk0. apply lookup_lt_is_Some in Hk0. lia.
Qed.

(** The spawning loop allocates one id per unclaimed detection. *)
Lemma spawn_next_id used detections :
  forall det_idx trs nid trs' nid',
    spawn used det_idx detections trs nid = (trs', nid') ->
    nid' = nid + Z.of_nat (length (filter (fun i => i ∉ used)
                                     (seqZ det_idx (Z.of_nat (length detections))))).
Proof.
  induction detections as [|[[bbox vc] conf] detections IH];
    intros det_idx trs nid trs' nid' Hs; cbn [spawn] in Hs.
  - injection Hs as <- <-. simpl. lia.
  - cbn [length]. rewrite seqZ_cons by lia.
    replace (Z.pred (Z.of_nat (S (length detections)))) with (Z.of_nat (length detections))
      by lia.
    rewrite filter_cons. unfold Z.succ.
    destruct (decide (det_idx ∈ used)) as [Hin|Hin].
    + rewrite decide_False by tauto. apply IH in Hs. exact Hs.
    + rewrite decide_True by exact Hin. apply IH in Hs. cbn [length]. lia.
Qed.

(** Of [n] indices, those outside a duplicate-free list of [m] of them
    are [n - m]. *)
Lemma unclaimed_count (used : gset Z) (claimed : list Z) (n : nat) :
  List.NoDup claimed ->
  (forall k, In k claimed -> 0 <= k < Z.of_nat n) ->
  (forall j, j ∈ used <-> In j claimed) ->
  Z.of_nat (length (filter (fun i => i ∉ used) (seqZ 0 (Z.of_nat n))))
  = Z.of_nat n - Z.of_nat (length claimed).
Proof.
  intros Hnd Hrange Hused.
  pose proof (filter_app_complement (fun i => i ∈ used) (seqZ 0 (Z.of_nat n))) as Hperm.
  apply Permutation_length in Hperm. rewrite length_app, length_seqZ in Hperm.
  assert (Hclaimed : filter (fun i => i ∈ used) (seqZ 0 (Z.of_nat n)) ≡ₚ claimed).
  { apply NoDup_Permutation.
    - apply NoDup_filter, NoDup_seqZ.
    - apply NoDup_ListNoDup. exact Hnd.
    - intros x. rewrite list_elem_of_filter, elem_of_seqZ, Hused, list_elem_of_In.
      split; [tauto|]. intros Hx. split; [exact Hx|]. specialize (Hrange x Hx). lia. }
  apply Permutation_length in Hclaimed. lia.
Qed.

End Accounting.

(** X4.  Every detection of a frame either is matched to a track or spawns
    one: over an [update] call [next_id] advances by the number of
    detections minus the number of matches made (and by nothing on a frame
    without detections). *)
Theorem unmatched_detections_spawn (self : VehicleTracker.t) (detections : list Detection) :
  VehicleTracker.next_id (fst (VehicleTracker.update self detections))
  = VehicleTracker.next_id self
    + (Z.of_nat (length detections) - Z.of_nat (length (matches_of self detections)))
  /\ (length (matches_of self detections) <= length detections)%nat.
Proof.
  unfold matches_of, scanned, VehicleTracker.update.
  destruct (VehicleTracker.match_tracks _ _ _ _) as [[trs used] matches] eqn:Em.
  pose proof (match_tracks_range _ _ _ _ _ _ _ Em) as Hrange.
  pose proof (match_tracks_used _ _ _ _ _ _ _ Em) as Hused.
  pose proof (match_tracks_spec _ _ _ _ _ _ _ Em) as (_ & Hnd & _ & _).
  assert (Hcount := unclaimed_count used (map snd matches) (length detections) Hnd Hrange).
  rewrite length_map in Hcount. cbn [snd].
  assert (Hu : forall j, j ∈ used <-> In j (map snd matches)).
  { intros j. rewrite Hused. split; [|auto]. intros [H|H]; [|exact H].
    exfalso. revert H. apply not_elem_of_empty. }
  specialize (Hcount Hu).
  destruct (length detections =? 0)%nat eqn:El.
  - apply Nat.eqb_eq in El. cbn [fst VehicleTracker._remove_dead_tracks VehicleTracker.next_id].
    lia.
  - unfold VehicleTracker._associate_detections.
    cbn [VehicleTracker.iou_threshold VehicleTracker.tracks VehicleTracker.next_id
         VehicleTracker.max_age VehicleTracker.min_hits].
    rewrite Em.
    destruct (VehicleTracker.spawn _ _ _ _ _) as [trs' nid] eqn:Es.
    apply spawn_next_id in Es.
    cbn [fst VehicleTracker._remove_dead_tracks VehicleTracker.next_id]. lia.
Qed.

Section Coasting.

Import VehicleTracker.

Lemma coast_config (n : nat) (self : t) :
  max_age (coast n self) = max_age self.
Proof.
  induction n as [|n IH]; [reflexivity|].
  rewrite coast_S. pose proof (update_config (coast n self) []) as (H & _). congruence.
Qed.

Lemma dead_id_In self k track :
  StronglySorted Z.lt (map fst (tracks self)) -> In (k, track) (tracks self) ->
  (In k (dead_track_ids self) <-> max_age self < Track.time_since_update track).
Proof.
  intros Hs Hin. unfold dead_track_ids. rewrite in_map_iff. split.
  - intros ([k' t'] & Hk & Hd). simpl in Hk. subst k'.
    apply List.filter_In in Hd as [Hin' Hd]. simpl in Hd. apply Z.ltb_lt in Hd.
    rewrite (sorted_keys_functional _ _ _ _ Hs Hin Hin'). exact Hd.
  - intros Hd. exists (k, track). split; [reflexivity|].
    apply List.filter_In. split; [exact Hin|]. apply Z.ltb_lt. exact Hd.
Qed.

(** A frame without detections: every track is aged by [predict], and
    those that have then been unmatched for more than [max_age] frames are
    removed. *)
Lemma coast_step self k track' :
  wf self ->
  (In (k, track') (tracks (fst (update self [])))
   <-> exists track,
         In (k, track) (tracks self) /\ track' = Track.predict track
         /\ Track.time_since_update track + 1 <= max_age self).
Proof.
  intros [Hs _]. unfold update. cbn [length Nat.eqb fst].
  set (predicted := mk _ _ _ _ _).
  assert (Hps : StronglySorted Z.lt (map fst (tracks predicted))).
  { unfold predicted. cbn [tracks]. rewrite map_map. exact Hs. }
  unfold _remove_dead_tracks. cbn [tracks]. rewrite fold_dict_del_In.
  fold (tracks predicted). split.
  - intros [Hin Hnot].
    rewrite (dead_id_In predicted k track' Hps Hin) in Hnot.
    unfold predicted in Hin. cbn [tracks] in Hin.
    apply in_map_iff in Hin as ([k0 t0] & E & Hin). simpl in E. injection E as -> <-.
    exists t0. split; [exact Hin|]. split; [reflexivity|].
    cbn in Hnot. lia.
  - intros (track & Hin & -> & Hle).
    assert (Hin' : In (k, Track.predict track) (tracks predicted)).
    { unfold predicted. cbn [tracks]. apply in_map_iff. exists (k, track). auto. }
    split; [exact Hin'|].
    rewrite (dead_id_In predicted k _ Hps Hin'). cbn. lia.
Qed.

Lemma iter_predict_counters (n : nat) (track : Track.t) :
  Track.time_since_update (Nat.iter n Track.predict track)
    = Track.time_since_update track + Z.of_nat n
  /\ Track.age (Nat.iter n Track.predict track) = Track.age track + Z.of_nat n
  /\ Track.hits (Nat.iter n Track.predict track) = Track.hits track
  /\ Track.track_id (Nat.iter n Track.predict track) = Track.track_id track.
Proof.
  induction n as [|n (H1 & H2 & H3 & H4)]; [simpl; lia|].
  rewrite Nat.iter_succ. unfold Track.predict at 1 3 5 7.
  cbn [Track.time_since_update Track.age Track.hits Track.track_id]. lia.
Qed.

Lemma coast_In (n : nat) self k track' :
  wf self ->
  (In (k, track') (tracks (coast n self))
   <-> exists track,
         In (k, track) (tracks self) /\ track' = Nat.iter n Track.predict track
         /\ (n = 0%nat \/ Track.time_since_update track + Z.of_nat n <= max_age self)).
Proof.
  intros Hwf. revert track'. induction n as [|n IH]; intros track'.
  - simpl. split; [intros H; exists track'; auto|].
    intros (t & Hin & -> & _). exact Hin.
  - assert (Hwfn : wf (coast n self)).
    { clear IH. induction n as [|n IHn]; [exact Hwf|].
      rewrite coast_S. apply update_wf, IHn. }
    rewrite coast_S, (coast_step _ _ _ Hwfn), coast_config. split.
    + intros (t & Hin & -> & Hle). apply IH in Hin as (t0 & Hin & -> & Hn).
      exists t0. split; [exact Hin|]. split; [reflexivity|]. right.
      pose proof (iter_predict_counters n t0) as (H1 & _). lia.
    + intros (t0 & Hin & -> & Hn).
      exists (Nat.iter n Track.predict t0).
      pose proof (iter_predict_counters n t0) as (H1 & _).
      split; [|split; [reflexivity|lia]].
      apply IH. exists t0. split; [exact Hin|]. split; [reflexivity|].
      destruct n; [left; reflexivity|right; lia].
Qed.

(** Between two frames no track held has outlived [max_age]. *)
Lemma reachable_alive self k track :
  reachable self -> In (k, track) (tracks self) ->
  Track.time_since_update track <= max_age self.
Proof.
  intros Hr Hin. destruct Hr as [a h i|s detections _]; [contradiction|].
  pose proof (update_config s detections) as (Hage & _ & _).
  unfold update in *.
  destruct (if (length detections =? 0)%nat then _ else _) as [associated matched].
  simpl in *. apply remove_dead_In in Hin as [_ Hle]. lia.
Qed.

End Coasting.

(** X5.  A track that finds no detection is kept for [max_age] frames and
    removed by the next one.  For a track held by a tracker a run has
    reached, with [time_since_update = u]: after [n] frames without
    detections it is still held, aged by [n] calls of [predict], as long as
    [u + n <= max_age]; once [u + n > max_age] its id is no longer held. *)
Theorem coasting_track_lifetime (self : VehicleTracker.t) (k : Z) (track : Track.t)
    (n : nat) :
  VehicleTracker.reachable self ->
  In (k, track) (VehicleTracker.tracks self) ->
  (Track.time_since_update track + Z.of_nat n <= VehicleTracker.max_age self ->
   In (k, Nat.iter n Track.predict track) (VehicleTracker.tracks (coast n self))
   /\ Track.time_since_update (Nat.iter n Track.predict track)
      = Track.time_since_update track + Z.of_nat n)
  /\ (VehicleTracker.max_age self < Track.time_since_update track + Z.of_nat n ->
      ~ In k (ids (coast n self))).
Proof.
  intros Hr Hin. pose proof (reachable_wf self Hr) as Hwf. split.
  - intros Hle. split; [|apply iter_predict_counters].
    apply (coast_In n self k _ Hwf). exists track. auto.
  - intros Hlt Hk. unfold ids in Hk. apply in_map_iff in Hk as ([k' t'] & E & Hk).
    simpl in E. subst k'.
    apply (coast_In n self k _ Hwf) in Hk as (t0 & Hin0 & _ & Hn).
    destruct Hwf as [Hs Hall].
    rewrite (sorted_keys_functional _ _ _ _ Hs Hin0 Hin) in Hn.
    destruct Hn as [->|Hn]; [|lia].
    pose proof (reachable_alive self k track Hr Hin) as Hdead.
    simpl in Hlt. lia.
Qed.

(** X5, witness: track 1 of the first frame, with [max_age = 30], over 30
    frames without detections. *)
Lemma coasting_track_lifetime_witness :
  (Track.time_since_update Frames.track1 + Z.of_nat 30
     <= VehicleTracker.max_age Frames.tracker1 ->
   In (1, Nat.iter 30 Track.predict Frames.track1)
      (VehicleTracker.tracks (coast 30 Frames.tracker1))
   /\ Track.time_since_update (Nat.iter 30 Track.predict Frames.track1)
      = Track.time_since_update Frames.track1 + Z.of_nat 30)
  /\ (VehicleTracker.max_age Frames.tracker1
        < Track.time_since_update Frames.track1 + Z.of_nat 30 ->
      ~ In 1 (ids (coast 30 Frames.tracker1))).
Proof.
  apply (coasting_track_lifetime Frames.tracker1 1 Frames.track1 30).
  - exact tracker1_reachable.
  - rewrite tracker1_tracks. left. reflexivity.
Defined.

(** X6.  The trajectory deque of a track is bounded: in every tracker a run
    reaches, each track was created with [max_history = 30] and its
    trajectory holds min(hits, 30) centers. *)
Theorem trajectory_length_bounded (self : VehicleTracker.t) (track : Track.t) :
  VehicleTracker.reachable self ->
  In track (VehicleTracker.get_all_tracks self) ->
  Track.max_history track = 30%nat
  /\ Z.of_nat (length (Track.trajectory track)) = Z.min (Track.hits track) 30.
Proof.
  intros Hr Hin.
  unfold VehicleTracker.get_all_tracks in Hin.
  apply in_map_iff in Hin as (kv & <- & Hin).
  assert (Hall : List.Forall
    (fun kv => Track.max_history (snd kv) = 30%nat
               /\ Z.of_nat (length (Track.trajectory (snd kv))) = Z.min (Track.hits (snd kv)) 30)
    (VehicleTracker.tracks self)); [|rewrite List.Forall_forall in Hall; exact (Hall kv Hin)].
  apply (reachable_tracks_inv
    (fun t => Track.max_history t = 30%nat
              /\ Z.of_nat (length (Track.trajectory t)) = Z.min (Track.hits t) 30));
    [| | |exact Hr].
  - intros id b vc c. split; reflexivity.
  - intros t Ht. exact Ht.
  - intros t b c [Hm Hl]. split; [exact Hm|].
    cbn [Track.update Track.trajectory Track.hits]. rewrite Hm.
    unfold Py.deque_append. rewrite length_app. cbn [length].
    destruct (30 <? length (Track.trajectory t) + 1)%nat eqn:E.
    + apply Nat.ltb_lt in E.
      assert (Ht : forall l : list (float * float), length (tail l) = pred (length l))
        by (intros [|? ?]; reflexivity).
      rewrite Ht, length_app. cbn [length]. lia.
    + apply Nat.ltb_ge in E. rewrite length_app. cbn [length]. lia.
Qed.

(** X6, witness: track 1 after the first frame. *)
Lemma trajectory_length_bounded_witness :
  Track.max_history Frames.track1 = 30%nat
  /\ Z.of_nat (length (Track.trajectory Frames.track1)) = Z.min (Track.hits Frames.track1) 30.
Proof.
  apply (trajectory_length_bounded Frames.tracker1 Frames.track1).
  - exact tracker1_reachable.
  - unfold VehicleTracker.get_all_tracks. rewrite tracker1_tracks. left. reflexivity.
Defined.

Section Velocity.

Lemma deque_append_two (maxlen : nat) (older : list (float * float)) (p q c : float * float) :
  (2 <= maxlen)%nat ->
  exists older', Py.deque_append maxlen (older ++ [p; q]) c = older' ++ [q; c].
Proof.
  intros Hm. unfold Py.deque_append.
  destruct (maxlen <? _)%nat eqn:E.
  - destruct older as [|x older]; simpl.
    + exists []. reflexivity.
    + exists (older ++ [p]). rewrite <- !app_assoc. reflexivity.
  - exists (older ++ [p]). rewrite <- !app_assoc. reflexivity.
Qed.

Lemma update_velocity (track : Track.t) (bbox : BoundingBox.t) (confidence : float) :
  Track.max_history track = 30%nat ->
  velocity_of_trajectory track ->
  velocity_of_trajectory (Track.update track bbox confidence).
Proof.
  intros Hm [(c0 & Ht & _)|(older & p & q & Ht & _)]; right.
  - exists [], c0, (BoundingBox.center bbox).
    unfold Track.update. cbn [Track.trajectory Track.velocity].
    rewrite Hm, Ht. split; reflexivity.
  - destruct (deque_append_two 30 older p q (BoundingBox.center bbox)) as [older' E]; [lia|].
    exists older', q, (BoundingBox.center bbox).
    unfold Track.update. cbn [Track.trajectory Track.velocity].
    rewrite Hm, Ht, E. split; [reflexivity|].
    rewrite length_app. cbn [length].
    replace (length older' + 2 - 2)%nat with (length older' + 0)%nat by lia.
    replace (2 <=? length older' + 2)%nat with true
      by (symmetry; apply Nat.leb_le; lia).
    rewrite lookup_app_r by lia.
    replace (length older' + 0 - length older')%nat with 0%nat by lia.
    reflexivity.
Qed.

End Velocity.

(** X7.  The velocity of a track is the displacement between the centers of
    the last two detections it was matched with, whatever the number of
    frames between them, and (0, 0) for a track seen once: in every tracker
    a run reaches, each track's [velocity] is the difference of the last two
    points of its [trajectory]. *)
Theorem velocity_is_last_displacement (self : VehicleTracker.t) (track : Track.t) :
  VehicleTracker.reachable self ->
  In track (VehicleTracker.get_all_tracks self) ->
  velocity_of_trajectory track.
Proof.
  intros Hr Hin. unfold VehicleTracker.get_all_tracks in Hin.
  apply in_map_iff in Hin as (kv & <- & Hin).
  assert (Hall : List.Forall
    (fun kv => Track.max_history (snd kv) = 30%nat /\ velocity_of_trajectory (snd kv))
    (VehicleTracker.tracks self)); [|rewrite List.Forall_forall in Hall; apply (Hall kv Hin)].
  apply (reachable_tracks_inv
    (fun t => Track.max_history t = 30%nat /\ velocity_of_trajectory t)); [| | |exact Hr].
  - intros id b vc c. split; [reflexivity|]. left.
    exists (BoundingBox.center b). split; reflexivity.
  - intros t Ht. exact Ht.
  - intros t b c [Hm Hv]. split; [exact Hm|]. apply update_velocity; assumption.
Qed.

(** X7, witness: track 1 after a second frame that shows the car again. *)
Lemma velocity_is_last_displacement_witness :
  velocity_of_trajectory
    (Track.update (Track.predict Frames.track1) (BoundingBox.mk 0 0 10 10) 0.5).
Proof.
  apply (velocity_is_last_displacement
           (fst (VehicleTracker.update Frames.tracker1 [Frames.car]))).
  - apply VehicleTracker.reachable_update, tracker1_reachable.
  - vm_compute. left. reflexivity.
Defined.

(** ** More on the plate proposer *)

Section FloatOrderMore.

Local Ltac cmp_split :=
  repeat match goal with
  | |- context [Z.compare ?a ?b] => destruct (Z.compare_spec a b); subst
  | H : context [Z.compare ?a ?b] |- _ => destruct (Z.compare_spec a b); subst
  | |- context [Pos.compare_cont Eq ?a ?b] =>
      change (Pos.compare_cont Eq a b) with (Pos.compare a b);
      destruct (Pos.compare_spec a b); subst
  | H : context [Pos.compare_cont Eq ?a ?b] |- _ =>
      change (Pos.compare_cont Eq a b) with (Pos.compare a b) in H;
      destruct (Pos.compare_spec a b); subst
  end.

Lemma SFeqb_ltb_trans (a b c : spec_float) :
  SFeqb a b = true -> SFltb b c = true -> SFltb a c = true.
Proof.
  unfold SFeqb, SFltb, SFcompare;
  destruct a as [[]|[]| |[] ? ?], b as [[]|[]| |[] ? ?], c as [[]|[]| |[] ? ?];
  try discriminate; try reflexivity; intros;
  cmp_split; simpl in *; try discriminate; try reflexivity; try lia.
Qed.

Lemma SFltb_leb (a b : spec_float) : SFltb a b = true -> SFleb a b = true.
Proof. unfold SFltb, SFleb. destruct (SFcompare a b) as [[]|]; congruence. Qed.

Lemma SFleb_trans (a b c : spec_float) :
  SFleb a b = true -> SFleb b c = true -> SFleb a c = true.
Proof.
  unfold SFleb, SFcompare;
  destruct a as [[]|[]| |[] ? ?], b as [[]|[]| |[] ? ?], c as [[]|[]| |[] ? ?];
  try discriminate; try reflexivity; intros;
  cmp_split; simpl in *; try discriminate; try reflexivity; try lia.
Qed.

(** Two floats that are not NaN are comparable. *)
Lemma SFleb_total (a b : spec_float) :
  SFleb a a = true -> SFleb b b = true -> SFltb a b = false -> SFleb b a = true.
Proof.
  unfold SFleb, SFltb, SFcompare;
  destruct a as [[]|[]| |[] ? ?], b as [[]|[]| |[] ? ?];
  try discriminate; try reflexivity; intros;
  cmp_split; simpl in *; try discriminate; try reflexivity; try lia.
Qed.

Lemma eqb_ltb_trans (a b c : float) :
  (a =? b)%float = true -> (b <? c)%float = true -> (a <? c)%float = true.
Proof. rewrite FloatAxioms.eqb_spec, !FloatAxioms.ltb_spec. apply SFeqb_ltb_trans. Qed.

Lemma ltb_leb (a b : float) : (a <? b)%float = true -> (a <=? b)%float = true.
Proof. rewrite FloatAxioms.ltb_spec, FloatAxioms.leb_spec. apply SFltb_leb. Qed.

Lemma leb_trans (a b c : float) :
  (a <=? b)%float = true -> (b <=? c)%float = true -> (a <=? c)%float = true.
Proof. rewrite !FloatAxioms.leb_spec. apply SFleb_trans. Qed.

Lemma leb_total (a b : float) :
  (a <=? a)%float = true -> (b <=? b)%float = true ->
  (a <? b)%float = false -> (b <=? a)%float = true.
Proof. rewrite !FloatAxioms.leb_spec, FloatAxioms.ltb_spec. apply SFleb_total. Qed.

End FloatOrderMore.

Section ProposerMore.

Import PlateProposer.

(** [is_ready_for_capture] on a plate that reaches [min_plate_height]:
    the counter is increased and the answer follows from its new value and
    from the height. *)
Lemma is_ready_counted self track plate_bbox :
  (BoundingBox.height plate_bbox <? min_plate_height self)%float = false ->
  is_ready_for_capture self track plate_bbox
  = (bump self (Track.track_id track),
     if counter self (Track.track_id track) + 1 <? stability_frames self
     then Py.Ok (false, 1%float)
     else if (target_plate_height self <=? BoundingBox.height plate_bbox)%float
          then Py.Ok (true, 1%float)
          else match Py.truediv (target_plate_height self) (BoundingBox.height plate_bbox) with
               | Py.Ok zoom_factor => Py.Ok (false, zoom_factor)
               | Py.ZeroDivisionError => Py.ZeroDivisionError
               end).
Proof.
  intros Hmin.
  pose proof (is_ready_state self track plate_bbox) as Hst. rewrite Hmin in Hst.
  unfold is_ready_for_capture in *. rewrite Hmin in *.
  set (id := Track.track_id track) in *.
  assert (Hc : default 0
                 (match stable_tracks self !! id with
                  | Some _ => stable_tracks self
                  | None => <[id := 0]> (stable_tracks self)
                  end !! id) = counter self id).
  { unfold counter. destruct (stable_tracks self !! id) as [c|] eqn:E.
    - rewrite E. reflexivity.
    - rewrite lookup_insert_eq. reflexivity. }
  rewrite Hc in *.
  destruct (counter self id + 1 <? stability_frames self).
  - cbn [fst] in Hst. rewrite Hst. reflexivity.
  - destruct (target_plate_height self <=? BoundingBox.height plate_bbox)%float.
    + cbn [fst] in Hst. rewrite Hst. reflexivity.
    + destruct (Py.truediv _ _); cbn [fst] in Hst; rewrite Hst; reflexivity.
Qed.

End ProposerMore.

(** X8.  A plate of height zero makes [is_ready_for_capture] raise
    [ZeroDivisionError] (with a positive [min_plate_height] the call takes
    the first exit and divides [target_plate_height] by the height), and
    the proposer is left as it was; a plate of non-zero height never makes
    it raise. *)
Theorem zero_height_plate_raises
    (self : PlateProposer.t) (track : Track.t) (plate_bbox : BoundingBox.t) :
  ((BoundingBox.height plate_bbox =? 0)%float = true ->
   (0 <? PlateProposer.min_plate_height self)%float = true ->
   PlateProposer.is_ready_for_capture self track plate_bbox = (self, Py.ZeroDivisionError))
  /\ ((BoundingBox.height plate_bbox =? 0)%float = false ->
      exists verdict,
        snd (PlateProposer.is_ready_for_capture self track plate_bbox) = Py.Ok verdict).
Proof.
  split.
  - intros Hz Hmin. unfold PlateProposer.is_ready_for_capture.
    rewrite (eqb_ltb_trans _ _ _ Hz Hmin). unfold Py.truediv. rewrite Hz. reflexivity.
  - intros Hnz. unfold PlateProposer.is_ready_for_capture, Py.truediv. rewrite Hnz.
    destruct (_ <? PlateProposer.min_plate_height self)%float; [eauto|].
    destruct (_ <? PlateProposer.stability_frames self); [eauto|].
    destruct (_ <=? _)%float; eauto.
Qed.

(** X9.  Once a target is READY it stays READY: a second call with the same
    track and plate, on the proposer the first call left, answers READY
    with zoom factor 1 again.  (The main loop therefore sends an ANPR
    request on every further frame that shows the target unchanged.) *)
Theorem ready_stays_ready
    (self self' : PlateProposer.t) (track : Track.t) (plate_bbox : BoundingBox.t)
    (zoom : float) :
  PlateProposer.is_ready_for_capture self track plate_bbox = (self', Py.Ok (true, zoom)) ->
  snd (PlateProposer.is_ready_for_capture self' track plate_bbox) = Py.Ok (true, 1%float)
  /\ PlateProposer.counter (fst (PlateProposer.is_ready_for_capture self' track plate_bbox))
       (Track.track_id track)
     = PlateProposer.counter self (Track.track_id track) + 2.
Proof.
  intros H. apply is_ready_true in H as (Hmin & -> & Hst & Hh & _).
  assert (Hmin' : (BoundingBox.height plate_bbox
                     <? PlateProposer.min_plate_height (bump self (Track.track_id track)))%float
                  = false) by exact Hmin.
  rewrite (is_ready_counted _ _ _ Hmin'). cbn [fst snd].
  rewrite !counter_bump_eq.
  change (PlateProposer.stability_frames (bump self (Track.track_id track)))
    with (PlateProposer.stability_frames self).
  change (PlateProposer.target_plate_height (bump self (Track.track_id track)))
    with (PlateProposer.target_plate_height self).
  rewrite Hh.
  destruct (_ <? PlateProposer.stability_frames self) eqn:E.
  - apply Z.ltb_lt in E. lia.
  - split; [reflexivity|lia].
Qed.

(** X9, witness: the third and fourth calls of the capture scenario. *)
Lemma ready_stays_ready_witness :
  snd (PlateProposer.is_ready_for_capture (Capture.after 3) Capture.target Capture.plate)
    = Py.Ok (true, 1%float)
  /\ PlateProposer.counter
       (fst (PlateProposer.is_ready_for_capture (Capture.after 3) Capture.target Capture.plate))
       (Track.track_id Capture.target)
     = PlateProposer.counter (Capture.after 2) (Track.track_id Capture.target) + 2.
Proof.
  apply (ready_stays_ready (Capture.after 2) (Capture.after 3) Capture.target Capture.plate 1).
  vm_compute. reflexivity.
Defined.

(** X10.  [cleanup_old_tracks] keeps the counters of the active ids and forgets
    all others: afterwards the counter of an id is what it was if the id is
    active, and 0 (no entry) if it is not. *)
Theorem cleanup_keeps_active_counters
    (self : PlateProposer.t) (active_track_ids : gset Z) (track_id : Z) :
  PlateProposer.stable_tracks (PlateProposer.cleanup_old_tracks self active_track_ids)
    !! track_id
  = (if decide (track_id ∈ active_track_ids)
     then PlateProposer.stable_tracks self !! track_id else None)
  /\ PlateProposer.counter (PlateProposer.cleanup_old_tracks self active_track_ids) track_id
     = (if decide (track_id ∈ active_track_ids)
        then PlateProposer.counter self track_id else 0).
Proof.
  assert (H : PlateProposer.stable_tracks
                (PlateProposer.cleanup_old_tracks self active_track_ids) !! track_id
              = if decide (track_id ∈ active_track_ids)
                then PlateProposer.stable_tracks self !! track_id else None).
  { unfold PlateProposer.cleanup_old_tracks. cbn [PlateProposer.stable_tracks].
    destruct (PlateProposer.stable_tracks self !! track_id) as [c|] eqn:E.
    - destruct (decide (track_id ∈ active_track_ids)) as [Hin|Hin].
      + apply map_lookup_filter_Some. auto.
      + apply map_lookup_filter_None. right. intros c' _. exact Hin.
    - destruct (decide _); apply map_lookup_filter_None; left; exact E. }
  split; [exact H|].
  unfold PlateProposer.counter. rewrite H. destruct (decide _); reflexivity.
Qed.

(** *** The estimated plate lies inside the vehicle box *)

Section PlateInside.

Lemma estimate_plate_region_spans (track : Track.t) :
  PlateProposer.estimate_plate_region track
  = let b := Track.bbox track in
    BoundingBox.mk
      (fst (plate_span_x (BoundingBox.x1 b) (BoundingBox.x2 b)))
      (fst (plate_span_y (BoundingBox.y1 b) (BoundingBox.y2 b)))
      (snd (plate_span_x (BoundingBox.x1 b) (BoundingBox.x2 b)))
      (snd (plate_span_y (BoundingBox.y1 b) (BoundingBox.y2 b))).
Proof. reflexivity. Qed.

(** Every pair of whole coordinates below the limit, checked by evaluating
    the binary64 operations. *)
Lemma pixel_spans_within :
  forall_ordered_pairs plate_spans_within (map Py.float_of_int (pixels frame_limit)) = true.
Proof. vm_compute. reflexivity. Qed.

Lemma forall_ordered_pairs_lookup (ok : float -> float -> bool) (f : Z -> float)
    (l : list Z) :
  forall_ordered_pairs ok (map f l) = true ->
  forall i j a b, l !! i = Some a -> l !! j = Some b -> (i <= j)%nat ->
    ok (f a) (f b) = true.
Proof.
  induction l as [|x l IH]; intros H i j a b Hi Hj Hij; [discriminate Hi|].
  cbn [map forall_ordered_pairs] in H.
  apply andb_true_iff in H as [Hrow Hrest].
  destruct i as [|i].
  - injection Hi as ->.
    change (f a :: map f l) with (map f (a :: l)) in Hrow.
    rewrite forallb_forall in Hrow. apply Hrow.
    apply in_map. apply list_elem_of_In. eapply list_elem_of_lookup_2. exact Hj.
  - destruct j as [|j]; [lia|]. apply (IH Hrest i j); [exact Hi|exact Hj|lia].
Qed.

Lemma lookup_pixels (n : nat) (z : Z) :
  0 <= z < Z.of_nat n -> pixels n !! Z.to_nat z = Some z.
Proof.
  intros Hz. unfold pixels. rewrite list_lookup_fmap.
  rewrite lookup_seq_lt by lia. simpl. f_equal. lia.
Qed.

Lemma pixel_plate_spans (a b : Z) :
  0 <= a <= b -> b < 4096 ->
  plate_spans_within (Py.float_of_int a) (Py.float_of_int b) = true.
Proof.
  intros Ha Hb.
  apply (forall_ordered_pairs_lookup _ _ _ pixel_spans_within (Z.to_nat a) (Z.to_nat b)).
  - apply lookup_pixels. rewrite frame_limit_Z. lia.
  - apply lookup_pixels. rewrite frame_limit_Z. lia.
  - lia.
Qed.

End PlateInside.

(** X11.  For a vehicle box whose coordinates are whole numbers of pixels in
    [0, 4096) with x1 <= x2 and y1 <= y2, the plate region that
    [estimate_plate_region] returns lies inside the vehicle box, with its
    own corners in order: x1 <= plate.x1 <= plate.x2 <= x2 and
    y1 <= plate.y1 <= plate.y2 <= y2. *)
Theorem plate_region_inside_vehicle (track : Track.t) (x1 y1 x2 y2 : Z) :
  Track.bbox track = pixel_box x1 y1 x2 y2 ->
  0 <= x1 <= x2 -> x2 < 4096 -> 0 <= y1 <= y2 -> y2 < 4096 ->
  let plate := PlateProposer.estimate_plate_region track in
  span_within (Py.float_of_int x1) (Py.float_of_int x2)
              (BoundingBox.x1 plate, BoundingBox.x2 plate) = true
  /\ span_within (Py.float_of_int y1) (Py.float_of_int y2)
                 (BoundingBox.y1 plate, BoundingBox.y2 plate) = true.
Proof.
  intros Hb Hx Hx2 Hy Hy2. cbv zeta. rewrite estimate_plate_region_spans, Hb.
  unfold pixel_box. cbv zeta.
  cbn [BoundingBox.x1 BoundingBox.y1 BoundingBox.x2 BoundingBox.y2].
  rewrite <- !surjective_pairing.
  pose proof (pixel_plate_spans x1 x2 Hx Hx2) as Hpx.
  pose proof (pixel_plate_spans y1 y2 Hy Hy2) as Hpy.
  unfold plate_spans_within in Hpx, Hpy.
  apply andb_true_iff in Hpx as [Hpx _]. apply andb_true_iff in Hpy as [_ Hpy].
  split; assumption.
Qed.

(** X11, witness: the vehicle box (100, 100, 300, 500) of the capture scenario. *)
Lemma plate_region_inside_vehicle_witness :
  let plate := PlateProposer.estimate_plate_region Capture.target in
  span_within (Py.float_of_int 100) (Py.float_of_int 300)
              (BoundingBox.x1 plate, BoundingBox.x2 plate) = true
  /\ span_within (Py.float_of_int 100) (Py.float_of_int 500)
                 (BoundingBox.y1 plate, BoundingBox.y2 plate) = true.
Proof.
  apply (plate_region_inside_vehicle Capture.target 100 100 300 500);
    [vm_compute; reflexivity | lia..].
Defined.

(** ** The target prioritizer *)

Section ArgMin.

Context {A : Type} (key : A -> float).

(** [min(best :: rest, key=key)] is an item of the list, it is [best] or
    has a smaller key than [best], and no item has a smaller key than it. *)
Lemma min_key_spec (rest : list A) :
  forall best,
    let r := Py.min_key key best rest in
    In r (best :: rest)
    /\ (r = best \/ (key r <? key best)%float = true)
    /\ forall x, In x (best :: rest) -> (key x <? key r)%float = false.
Proof.
  induction rest as [|y rest IH]; intros best; cbn [Py.min_key]; cbv zeta.
  - split; [left; reflexivity|]. split; [left; reflexivity|].
    intros x [<-|[]]. apply ltb_irrefl.
  - destruct (IH (if (key y <? key best)%float then y else best)) as (Hin & Hle & Hmin).
    set (r := Py.min_key key _ rest) in *.
    destruct (key y <? key best)%float eqn:E.
    + assert (Hrb : (key r <? key best)%float = true).
      { destruct Hle as [->|Hlt]; [exact E|exact (ltb_trans _ _ _ Hlt E)]. }
      split; [right; exact Hin|]. split; [right; exact Hrb|].
      intros x [<-|Hx]; [apply ltb_asym, Hrb|apply Hmin, Hx].
    + split; [destruct Hin as [Hin|Hin]; [left; exact Hin|right; right; exact Hin]|].
      split; [exact Hle|].
      intros x [<-|[<-|Hx]].
      * apply Hmin. left. reflexivity.
      * destruct Hle as [->|Hlt]; [exact E|].
        destruct (key y <? key r)%float eqn:E'; [|reflexivity].
        pose proof (ltb_trans _ _ _ E' Hlt) as Hc. congruence.
      * apply Hmin. right. exact Hx.
Qed.

(** [max(best :: rest, key=key)], likewise. *)
Lemma max_key_spec (rest : list A) :
  forall best,
    let r := Py.max_key key best rest in
    In r (best :: rest)
    /\ (r = best \/ (key best <? key r)%float = true)
    /\ forall x, In x (best :: rest) -> (key r <? key x)%float = false.
Proof.
  induction rest as [|y rest IH]; intros best; cbn [Py.max_key]; cbv zeta.
  - split; [left; reflexivity|]. split; [left; reflexivity|].
    intros x [<-|[]]. apply ltb_irrefl.
  - destruct (IH (if (key best <? key y)%float then y else best)) as (Hin & Hle & Hmax).
    set (r := Py.max_key key _ rest) in *.
    destruct (key best <? key y)%float eqn:E.
    + assert (Hrb : (key best <? key r)%float = true).
      { destruct Hle as [->|Hlt]; [exact E|exact (ltb_trans _ _ _ E Hlt)]. }
      split; [right; exact Hin|]. split; [right; exact Hrb|].
      intros x [<-|Hx]; [apply ltb_asym, Hrb|apply Hmax, Hx].
    + split; [destruct Hin as [Hin|Hin]; [left; exact Hin|right; right; exact Hin]|].
      split; [exact Hle|].
      intros x [<-|[<-|Hx]].
      * apply Hmax. left. reflexivity.
      * destruct Hle as [->|Hlt]; [exact E|].
        destruct (key r <? key y)%float eqn:E'; [|reflexivity].
        pose proof (ltb_trans _ _ _ Hlt E') as Hc. congruence.
      * apply Hmax. right. exact Hx.
Qed.

End ArgMin.

Section Prioritizer.

Import TargetPrioritizer.

Context {Polygon : Type}.
Variable pow2 : float -> float.
Variable contains : Polygon -> float * float -> bool.

Implicit Types (self : TargetPrioritizer.t Polygon) (tracks : list Track.t).

Lemma valid_tracks_In self tracks track :
  In track (valid_tracks Polygon self tracks)
  <-> In track tracks /\ tall_enough self track = true.
Proof. unfold valid_tracks, tall_enough. apply List.filter_In. Qed.

(** The double loop of [_select_by_roi] is one loop over the visits. *)
Lemma roi_fold_visits self tracks :
  forall best,
    fold_left (fun best track =>
                 fold_left (roi_step Polygon contains track) (roi_zones Polygon self) best)
              tracks best
    = fold_left (fun best visit => roi_step Polygon contains (fst visit) best (snd visit))
                (roi_visits (roi_zones Polygon self) tracks) best.
Proof.
  induction tracks as [|track tracks IH]; intros best; [reflexivity|].
  cbn [fold_left roi_visits flat_map]. rewrite fold_left_app.
  fold (roi_visits (roi_zones Polygon self) tracks).
  rewrite IH. f_equal.
  generalize (roi_zones Polygon self) best. clear.
  intros zones. induction zones as [|z zones IHz]; intros best; [reflexivity|].
  cbn [map fold_left fst snd]. apply IHz.
Qed.

Lemma roi_step_chosen visits best v :
  roi_chosen contains visits best ->
  roi_chosen contains (visits ++ [v]) (roi_step Polygon contains (fst v) best (snd v)).
Proof.
  intros Hc. unfold roi_step. fold (roi_hit contains v).
  destruct (roi_hit contains v) eqn:Ehit.
  - destruct (snd best <? weight Polygon (snd v))%float eqn:Elt.
    + right. exists (fst v), (snd v). rewrite <- surjective_pairing.
      cbn [fst snd].
      assert (Hpos : (0 <? weight Polygon (snd v))%float = true).
      { destruct Hc as [(_ & Hw & _)|(t & z & _ & _ & _ & Hw & Hp & _)].
        - rewrite Hw in Elt. exact Elt.
        - rewrite Hw in Elt. exact (ltb_trans _ _ _ Hp Elt). }
      split; [reflexivity|]. split; [apply in_or_app; right; left; reflexivity|].
      split; [exact Ehit|]. split; [reflexivity|]. split; [exact Hpos|].
      intros v' Hin Hhit. apply in_app_or in Hin as [Hin|[<-|[]]]; [|apply ltb_irrefl].
      destruct (weight Polygon (snd v) <? weight Polygon (snd v'))%float eqn:E; [|reflexivity].
      destruct Hc as [(_ & Hw & Hall)|(t & z & _ & _ & _ & Hw & _ & Hall)].
      * pose proof (ltb_trans _ _ _ Hpos E) as Hx. rewrite (Hall v' Hin Hhit) in Hx.
        discriminate.
      * rewrite Hw in Elt. pose proof (ltb_trans _ _ _ Elt E) as Hx.
        rewrite (Hall v' Hin Hhit) in Hx. discriminate.
    + destruct Hc as [(Hb & Hw & Hall)|(t & z & Hb & Hin & Hh & Hw & Hp & Hall)].
      * left. split; [exact Hb|]. split; [exact Hw|].
        intros v' Hin Hhit. apply in_app_or in Hin as [Hin|[<-|[]]]; [auto|].
        rewrite Hw in Elt. exact Elt.
      * right. exists t, z. split; [exact Hb|].
        split; [apply in_or_app; left; exact Hin|].
        split; [exact Hh|]. split; [exact Hw|]. split; [exact Hp|].
        intros v' Hin' Hhit. apply in_app_or in Hin' as [Hin'|[<-|[]]]; [auto|].
        rewrite Hw in Elt. exact Elt.
  - destruct Hc as [(Hb & Hw & Hall)|(t & z & Hb & Hin & Hh & Hw & Hp & Hall)].
    + left. split; [exact Hb|]. split; [exact Hw|].
      intros v' Hin Hhit. apply in_app_or in Hin as [Hin|[<-|[]]]; [auto|congruence].
    + right. exists t, z. split; [exact Hb|].
      split; [apply in_or_app; left; exact Hin|].
      split; [exact Hh|]. split; [exact Hw|]. split; [exact Hp|].
      intros v' Hin' Hhit. apply in_app_or in Hin' as [Hin'|[<-|[]]]; [auto|congruence].
Qed.

Lemma roi_fold_chosen (visits : list (Track.t * Zone Polygon)) :
  forall done best,
    roi_chosen contains done best ->
    roi_chosen contains (done ++ visits)
      (fold_left (fun best visit => roi_step Polygon contains (fst visit) best (snd visit))
                 visits best).
Proof.
  induction visits as [|v visits IH]; intros done best Hc; cbn [fold_left].
  - rewrite app_nil_r. exact Hc.
  - replace (done ++ v :: visits) with ((done ++ [v]) ++ visits)
      by (rewrite <- app_assoc; reflexivity).
    apply IH, roi_step_chosen, Hc.
Qed.

Lemma roi_visits_In (zones : list (Zone Polygon)) tracks track zone :
  In (track, zone) (roi_visits zones tracks) <-> In track tracks /\ In zone zones.
Proof.
  unfold roi_visits. rewrite in_flat_map. split.
  - intros (t & Ht & Hin). apply in_map_iff in Hin as (z & E & Hz).
    injection E as -> ->. auto.
  - intros [Ht Hz]. exists track. split; [exact Ht|].
    apply in_map_iff. exists zone. auto.
Qed.

(** [_select_by_roi]: the pair of loops ends on the choice described by
    [roi_chosen] over all visits. *)
Lemma select_by_roi_chosen self tracks :
  roi_chosen contains (roi_visits (roi_zones Polygon self) tracks)
    (fold_left (fun best track =>
                  fold_left (roi_step Polygon contains track) (roi_zones Polygon self) best)
               tracks (None, 0%float)).
Proof.
  rewrite roi_fold_visits.
  apply (roi_fold_chosen _ [] (None, 0%float)).
  left. split; [reflexivity|]. split; [reflexivity|]. intros v [].
Qed.

(** Whatever the strategy, a non-empty list of valid tracks gives one of
    them. *)
Lemma select_target_valid self tracks frame_width frame_height :
  match select_target Polygon pow2 contains self tracks frame_width frame_height with
  | Some track => In track (valid_tracks Polygon self tracks)
  | None => valid_tracks Polygon self tracks = []
  end.
Proof.
  unfold select_target.
  destruct tracks as [|t0 tracks]; [reflexivity|].
  destruct (valid_tracks Polygon self (t0 :: tracks)) as [|first rest] eqn:Ev; [reflexivity|].
  destruct (String.eqb (strategy Polygon self) "proximity").
  { cbn [_select_by_proximity]. apply min_key_spec. }
  destruct (String.eqb (strategy Polygon self) "roi").
  { unfold _select_by_roi.
    pose proof (select_by_roi_chosen self (first :: rest)) as Hc.
    destruct Hc as [(Hb & _)|(t & z & Hb & Hin & _)]; rewrite Hb.
    - left. reflexivity.
    - apply roi_visits_In in Hin as [Hin _]. exact Hin. }
  destruct (String.eqb (strategy Polygon self) "weighted").
  { cbn [_select_weighted]. apply max_key_spec. }
  left. reflexivity.
Qed.

(** X12.  [select_target] returns one of the tracks it was given, at least
    [min_target_size] high, whatever the strategy; and it returns [None]
    exactly when no track is that high (in particular on an empty list). *)
Theorem select_target_tall_enough self tracks (frame_width frame_height : Z) :
  (forall track,
     select_target Polygon pow2 contains self tracks frame_width frame_height = Some track ->
     In track tracks /\ tall_enough self track = true)
  /\ (select_target Polygon pow2 contains self tracks frame_width frame_height = None
      <-> forall track, In track tracks -> tall_enough self track = false).
Proof.
  pose proof (select_target_valid self tracks frame_width frame_height) as H.
  destruct (select_target _ _ _ _ _ _ _) as [r|].
  - split.
    + intros track [= <-]. apply valid_tracks_In, H.
    + split; [discriminate|]. intros Hall.
      apply valid_tracks_In in H as [Hin Ht]. rewrite (Hall r Hin) in Ht. discriminate.
  - split; [discriminate|]. split; [|reflexivity]. intros _ track Hin.
    destruct (tall_enough self track) eqn:E; [|reflexivity].
    assert (Hv : In track (valid_tracks Polygon self tracks))
      by (apply valid_tracks_In; auto).
    rewrite H in Hv. contradiction.
Qed.

(** X13.  With the strategy 'proximity' the selected track is the first of the
    valid tracks that no valid track beats: no track that is high enough is
    strictly closer to the frame center. *)
Theorem proximity_selects_closest self tracks (frame_width frame_height : Z)
    (target : Track.t) :
  strategy Polygon self = "proximity" ->
  select_target Polygon pow2 contains self tracks frame_width frame_height = Some target ->
  forall track, In track tracks -> tall_enough self track = true ->
    (distance_to_center pow2 (Py.float_of_int frame_width / 2)
                        (Py.float_of_int frame_height / 2) track
       <? distance_to_center pow2 (Py.float_of_int frame_width / 2)
                             (Py.float_of_int frame_height / 2) target)%float = false.
Proof.
  intros Hs Hsel track Hin Htall. unfold select_target in Hsel.
  destruct tracks as [|t0 tracks]; [discriminate|].
  assert (Hv : In track (valid_tracks Polygon self (t0 :: tracks)))
    by (apply valid_tracks_In; auto).
  destruct (valid_tracks Polygon self (t0 :: tracks)) as [|first rest]; [contradiction|].
  rewrite Hs in Hsel. cbn [String.eqb Ascii.eqb Bool.eqb] in Hsel.
  cbn [_select_by_proximity] in Hsel. injection Hsel as <-.
  apply min_key_spec. exact Hv.
Qed.

(** X14.  With the strategy 'weighted' the selected track has a maximal score:
    no track that is high enough has a strictly higher score. *)
Theorem weighted_selects_best_score self tracks (frame_width frame_height : Z)
    (target : Track.t) :
  strategy Polygon self = "weighted" ->
  select_target Polygon pow2 contains self tracks frame_width frame_height = Some target ->
  forall track, In track tracks -> tall_enough self track = true ->
    (score Polygon pow2 contains self (Py.float_of_int frame_width / 2)
           (Py.float_of_int frame_height / 2) target
       <? score Polygon pow2 contains self (Py.float_of_int frame_width / 2)
                (Py.float_of_int frame_height / 2) track)%float = false.
Proof.
  intros Hs Hsel track Hin Htall. unfold select_target in Hsel.
  destruct tracks as [|t0 tracks]; [discriminate|].
  assert (Hv : In track (valid_tracks Polygon self (t0 :: tracks)))
    by (apply valid_tracks_In; auto).
  destruct (valid_tracks Polygon self (t0 :: tracks)) as [|first rest]; [contradiction|].
  rewrite Hs in Hsel. cbn [String.eqb Ascii.eqb Bool.eqb] in Hsel.
  cbn [_select_weighted] in Hsel. injection Hsel as <-.
  apply max_key_spec. exact Hv.
Qed.

(** X15.  With the strategy 'roi' the selected track lies in a zone of positive
    weight that no zone holding a valid track outweighs; when no valid
    track lies in a zone of positive weight, the first valid track is
    selected (not the one closest to the center). *)
Theorem roi_selects_heaviest_zone self tracks (frame_width frame_height : Z)
    (target : Track.t) :
  strategy Polygon self = "roi" ->
  select_target Polygon pow2 contains self tracks frame_width frame_height = Some target ->
  (exists zone,
     In zone (roi_zones Polygon self)
     /\ roi_hit contains (target, zone) = true
     /\ (0 <? weight Polygon zone)%float = true
     /\ forall track zone',
          In track tracks -> tall_enough self track = true ->
          In zone' (roi_zones Polygon self) -> roi_hit contains (track, zone') = true ->
          (weight Polygon zone <? weight Polygon zone')%float = false)
  \/ (head (valid_tracks Polygon self tracks) = Some target
      /\ forall track zone',
           In track tracks -> tall_enough self track = true ->
           In zone' (roi_zones Polygon self) -> roi_hit contains (track, zone') = true ->
           (0 <? weight Polygon zone')%float = false).
Proof.
  intros Hs Hsel. unfold select_target in Hsel.
  destruct tracks as [|t0 tracks]; [discriminate|].
  pose proof (fun track => valid_tracks_In self (t0 :: tracks) track) as Hvalid.
  destruct (valid_tracks Polygon self (t0 :: tracks)) as [|first rest]; [discriminate|].
  rewrite Hs in Hsel. cbn [String.eqb Ascii.eqb Bool.eqb] in Hsel.
  unfold _select_by_roi in Hsel.
  pose proof (select_by_roi_chosen self (first :: rest)) as Hc.
  destruct Hc as [(Hb & _ & Hall)|(t & z & Hb & Hin & Hh & _ & Hp & Hall)];
    rewrite Hb in Hsel.
  - right. split; [exact Hsel|].
    intros track zone' Hin Htall Hz Hhit.
    apply (Hall (track, zone')); [|exact Hhit].
    apply roi_visits_In. split; [apply Hvalid; auto|exact Hz].
  - injection Hsel as <-. left. exists z.
    apply roi_visits_In in Hin as [_ Hz].
    split; [exact Hz|]. split; [exact Hh|]. split; [exact Hp|].
    intros track zone' Hin Htall Hz' Hhit.
    apply (Hall (track, zone')); [|exact Hhit].
    apply roi_visits_In. split; [apply Hvalid; auto|exact Hz'].
Qed.

End Prioritizer.

(** X13, witness: of two tracks centered at (200, 300) and (500, 300) in a
    1280 x 720 frame, the second is selected; the first is not closer. *)
Lemma proximity_selects_closest_witness :
  (TargetPrioritizer.distance_to_center Scene.pow2 (Py.float_of_int 1280 / 2)
     (Py.float_of_int 720 / 2) Capture.target
     <? TargetPrioritizer.distance_to_center Scene.pow2 (Py.float_of_int 1280 / 2)
          (Py.float_of_int 720 / 2) Capture.other)%float = false.
Proof.
  apply (proximity_selects_closest Scene.pow2 Scene.contains
           (Scene.prioritizer "proximity") Scene.tracks 1280 720 Capture.other).
  - reflexivity.
  - vm_compute. reflexivity.
  - left. reflexivity.
  - vm_compute. reflexivity.
Defined.

(** X14, witness: the same scene under the strategy 'weighted'. *)
Lemma weighted_selects_best_score_witness :
  (TargetPrioritizer.score unit Scene.pow2 Scene.contains (Scene.prioritizer "weighted")
     (Py.float_of_int 1280 / 2) (Py.float_of_int 720 / 2) Capture.other
     <? TargetPrioritizer.score unit Scene.pow2 Scene.contains (Scene.prioritizer "weighted")
          (Py.float_of_int 1280 / 2) (Py.float_of_int 720 / 2) Capture.target)%float = false.
Proof.
  apply (weighted_selects_best_score Scene.pow2 Scene.contains
           (Scene.prioritizer "weighted") Scene.tracks 1280 720 Capture.other).
  - reflexivity.
  - vm_compute. reflexivity.
  - left. reflexivity.
  - vm_compute. reflexivity.
Defined.

(** X15, witness: with one zone that holds the first track only, the first
    track is selected. *)
Lemma roi_selects_heaviest_zone_witness :
  (exists zone,
     In zone (TargetPrioritizer.roi_zones unit Scene.zoned)
     /\ roi_hit Scene.left_of_350 (Capture.target, zone) = true
     /\ (0 <? TargetPrioritizer.weight unit zone)%float = true
     /\ forall track zone',
          In track Scene.tracks -> tall_enough Scene.zoned track = true ->
          In zone' (TargetPrioritizer.roi_zones unit Scene.zoned) ->
          roi_hit Scene.left_of_350 (track, zone') = true ->
          (TargetPrioritizer.weight unit zone <? TargetPrioritizer.weight unit zone')%float
            = false)
  \/ (head (TargetPrioritizer.valid_tracks unit Scene.zoned Scene.tracks) = Some Capture.target
      /\ forall track zone',
           In track Scene.tracks -> tall_enough Scene.zoned track = true ->
           In zone' (TargetPrioritizer.roi_zones unit Scene.zoned) ->
           roi_hit Scene.left_of_350 (track, zone') = true ->
           (0 <? TargetPrioritizer.weight unit zone')%float = false).
Proof.
  apply (roi_selects_heaviest_zone Scene.pow2 Scene.left_of_350 Scene.zoned Scene.tracks
           1280 720 Capture.target).
  - reflexivity.
  - vm_compute. reflexivity.
Defined.

(** ** One frame of the vision loop *)

Section VisionFrame.

Context {Polygon : Type}.
Variable pow2 : float -> float.
Variable contains : Polygon -> float * float -> bool.

(** [on_target] leaves entries only where the proposer it was given had
    one, and at the id of the target. *)
Lemma on_target_entries (current_target_id : option Z) (plate_proposer : PlateProposer.t)
    (target : Track.t) (k : Z) :
  is_Some (PlateProposer.stable_tracks
             (snd (fst (VisionMain.on_target current_target_id plate_proposer target))) !! k) ->
  k = Track.track_id target \/ is_Some (PlateProposer.stable_tracks plate_proposer !! k).
Proof.
  unfold VisionMain.on_target.
  set (changed := match current_target_id with
                  | Some id => negb (id =? Track.track_id target)
                  | None => true
                  end).
  set (pp1 := if changed then PlateProposer.reset_stability plate_proposer (Track.track_id target)
              else plate_proposer).
  pose proof (is_ready_state pp1 target (PlateProposer.estimate_plate_region target)) as Hst.
  destruct (PlateProposer.is_ready_for_capture pp1 target _) as [pp2 verdict].
  cbn [fst snd] in *. subst pp2.
  destruct (decide (k = Track.track_id target)) as [->|Hne]; [auto|].
  intros Hk. right.
  assert (Hk1 : is_Some (PlateProposer.stable_tracks pp1 !! k)).
  { destruct (_ <? _)%float; [exact Hk|]. rewrite lookup_bump_ne in Hk by exact Hne. exact Hk. }
  unfold pp1 in Hk1. destruct changed; [|exact Hk1].
  unfold PlateProposer.reset_stability in Hk1. cbn [PlateProposer.stable_tracks] in Hk1.
  rewrite lookup_delete_ne in Hk1 by congruence. exact Hk1.
Qed.

(** X16.  After the tracking part of a frame, the proposer holds stability
    counters only for tracks the tracker returned in this frame, and
    [current_target_id] is the id of the selected target ([None] without
    one): the counters kept never outnumber the confirmed tracks. *)
Theorem frame_keeps_returned_counters
    (prioritizer : TargetPrioritizer.t Polygon) (st : VisionMain.State)
    (detections : list Detection) (frame_width frame_height : Z) :
  let r := VisionMain.frame Polygon pow2 contains prioritizer st detections
             frame_width frame_height in
  fst (snd r) = snd (VehicleTracker.update (VisionMain.tracker st) detections)
  /\ (forall k,
        is_Some (PlateProposer.stable_tracks (VisionMain.plate_proposer (fst r)) !! k) ->
        In k (map Track.track_id (fst (snd r))))
  /\ VisionMain.current_target_id (fst r)
     = option_map (fun selected => Track.track_id (fst selected)) (snd (snd r))
  /\ (forall target verdict,
        snd (snd r) = Some (target, verdict) -> In target (fst (snd r))).
Proof.
  cbv zeta. unfold VisionMain.frame.
  destruct (VehicleTracker.update (VisionMain.tracker st) detections) as [tracker' tracks].
  cbn [snd].
  assert (Hclean : forall k,
    is_Some (PlateProposer.stable_tracks
               (PlateProposer.cleanup_old_tracks (VisionMain.plate_proposer st)
                  (list_to_set (map Track.track_id tracks))) !! k) ->
    In k (map Track.track_id tracks)).
  { intros k [c Hk]. unfold PlateProposer.cleanup_old_tracks in Hk.
    cbn [PlateProposer.stable_tracks] in Hk.
    apply map_lookup_filter_Some in Hk as [_ Hin]. cbn [fst] in Hin.
    apply elem_of_list_to_set in Hin. apply list_elem_of_In. exact Hin. }
  pose proof (select_target_valid pow2 contains prioritizer tracks frame_width frame_height)
    as Hsel.
  destruct (TargetPrioritizer.select_target _ _ _ _ _ _ _) as [target|].
  - apply valid_tracks_In in Hsel as [Hin _].
    pose proof (on_target_entries (VisionMain.current_target_id st)
                  (PlateProposer.cleanup_old_tracks (VisionMain.plate_proposer st)
                     (list_to_set (map Track.track_id tracks))) target) as Hent.
    assert (Hcur : fst (fst (VisionMain.on_target (VisionMain.current_target_id st)
                     (PlateProposer.cleanup_old_tracks (VisionMain.plate_proposer st)
                        (list_to_set (map Track.track_id tracks))) target))
                   = Some (Track.track_id target)).
    { unfold VisionMain.on_target.
      destruct (PlateProposer.is_ready_for_capture _ _ _) as [pp2 v]. cbn [fst].
      destruct (VisionMain.current_target_id st) as [id|]; [|reflexivity].
      destruct (id =? Track.track_id target) eqn:E; [|reflexivity].
      apply Z.eqb_eq in E. cbn [negb]. congruence. }
    destruct (VisionMain.on_target _ _ _) as [[cur' pp2] verdict].
    cbn [fst snd VisionMain.plate_proposer VisionMain.current_target_id option_map] in *.
    split; [reflexivity|]. split; [|split; [exact Hcur|]].
    + intros k Hk. destruct (Hent k Hk) as [->|Hk'].
      * apply in_map. exact Hin.
      * apply Hclean, Hk'.
    + intros t v [= <- _]. exact Hin.
  - cbn [fst snd VisionMain.plate_proposer VisionMain.current_target_id option_map].
    split; [reflexivity|]. split; [exact Hclean|]. split; [reflexivity|discriminate].
Qed.

End VisionFrame.

(** ** Sequences of PTZ operations *)

Section Clamp.

(** [max(lo, min(hi, x))] is within [lo, hi] for every float [x], NaN
    included (a NaN comes out as [hi]). *)
Lemma clamp_in_range (lo hi x : float) :
  (lo <=? lo)%float = true -> (hi <=? hi)%float = true -> (lo <=? hi)%float = true ->
  in_range lo hi (PTZClient.clamp lo hi x).
Proof.
  intros Hlo Hhi Hlh. unfold PTZClient.clamp, Py.max, Py.min, in_range.
  destruct (x <? hi)%float eqn:E1.
  - destruct (lo <? x)%float eqn:E2.
    + split; apply ltb_leb; assumption.
    + split; assumption.
  - destruct (lo <? hi)%float eqn:E2.
    + split; assumption.
    + split; assumption.
Qed.

Lemma clamp_unit (x : float) : in_range (-1) 1 (PTZClient.clamp (-1) 1 x).
Proof. apply clamp_in_range; reflexivity. Qed.

Lemma clamp_zoom (x : float) : in_range 0 1 (PTZClient.clamp 0 1 x).
Proof. apply clamp_in_range; reflexivity. Qed.

End Clamp.

(** *** What every operation keeps *)

Section Keeps.

Variable R : Heap -> Heap -> Prop.
Variable allowed : World.Request -> Prop.

Hypothesis R_refl : forall h, R h h.
Hypothesis R_trans : forall a b c, R a b -> R b c -> R a c.
Hypothesis R_clock : forall h, R h (clock_read h).
Hypothesis R_sent : forall r h, allowed r -> R h (sent r h).
Hypothesis R_ptz : forall c h, R h (mkHeap (world h) c (preset_mgr h) (controller h)).
Hypothesis R_mgr : forall p h, R h (mkHeap (world h) (ptz h) p (controller h)).
Hypothesis R_target :
  forall p h, R h (mkHeap (world h) (ptz h) (preset_mgr h)
                     (PTZController.set_last_target_position p (controller h))).
Hypothesis R_zoom :
  forall x h, R h (mkHeap (world h) (ptz h) (preset_mgr h)
                     (PTZController.set_current_zoom (PTZClient.clamp 0 1 x) (controller h))).
Hypothesis allowed_status : allowed World.GetStatus.
Hypothesis allowed_move :
  forall pan tilt zoom speed, allowed (relative_move_request pan tilt zoom speed).
Hypothesis allowed_goto : forall preset_token, allowed (World.GotoPreset preset_token).

Lemma keeps_ret {A : Type} (a : A) : keeps_rel R (ret a).
Proof. intros h. apply R_refl. Qed.

Lemma keeps_bind {A B : Type} (m : M A) (k : A -> M B) :
  keeps_rel R m -> (forall a, keeps_rel R (k a)) -> keeps_rel R (bind m k).
Proof.
  intros Hm Hk h. rewrite bind_run. eapply R_trans; [apply Hm|apply Hk].
Qed.

Lemma keeps_get : keeps_rel R get.
Proof. intros h. apply R_refl. Qed.

Lemma keeps_get_bind {B : Type} (k : Heap -> M B) :
  (forall h, R h (snd (k h h))) -> keeps_rel R (bind get k).
Proof. intros Hk h. rewrite bind_run, get_run. apply Hk. Qed.

Lemma keeps_time_time : keeps_rel R time_time.
Proof. intros h. rewrite time_time_run. apply R_clock. Qed.

Lemma keeps_time_sleep (seconds : float) : keeps_rel R (time_sleep seconds).
Proof. apply keeps_ret. Qed.

Lemma keeps_send (r : World.Request) : allowed r -> keeps_rel R (send r).
Proof. intros Hr h. rewrite send_run. apply R_sent, Hr. Qed.

Lemma keeps_set_ptz (c : Obj.PTZClient) : keeps_rel R (set_ptz c).
Proof. intros h. apply R_ptz. Qed.

Lemma keeps_set_preset_mgr (p : Obj.PresetManager) : keeps_rel R (set_preset_mgr p).
Proof. intros h. apply R_mgr. Qed.

Ltac keeps_steps :=
  repeat first
    [ apply keeps_ret
    | apply keeps_get
    | apply keeps_time_time
    | apply keeps_time_sleep
    | apply keeps_set_ptz
    | apply keeps_set_preset_mgr
    | apply keeps_send; solve [apply allowed_status | apply allowed_move | apply allowed_goto]
    | apply keeps_bind; [|intros ?]
    | match goal with
      | |- keeps_rel R (if ?c then _ else _) => destruct c
      | |- keeps_rel R (match ?x with _ => _ end) => destruct x
      end ].

Lemma keeps_check_rate_limit : keeps_rel R PTZClient._check_rate_limit.
Proof. unfold PTZClient._check_rate_limit. keeps_steps. Qed.

Lemma keeps_touch : keeps_rel R PTZClient.touch_last_move_time.
Proof. unfold PTZClient.touch_last_move_time. keeps_steps. Qed.

Lemma keeps_relative_move (pan tilt zoom speed : float) :
  keeps_rel R (PTZClient.relative_move pan tilt zoom speed).
Proof.
  unfold PTZClient.relative_move.
  apply keeps_bind; [apply keeps_check_rate_limit|intros allowed0].
  destruct allowed0; cbn [negb]; [|apply keeps_ret].
  apply keeps_bind; [apply keeps_send, allowed_status|intros ok1].
  destruct ok1; cbn [negb]; [|apply keeps_ret].
  apply keeps_bind; [apply keeps_send, allowed_status|intros ok2].
  destruct ok2; cbn [negb]; [|apply keeps_ret].
  apply keeps_bind; [apply keeps_send, allowed_move|intros ok3].
  destruct ok3; cbn [negb]; [|apply keeps_ret].
  apply keeps_bind; [apply keeps_touch|intros _; apply keeps_ret].
Qed.

Lemma keeps_goto_preset (preset_token : string) :
  keeps_rel R (PTZClient.goto_preset preset_token).
Proof.
  unfold PTZClient.goto_preset.
  apply keeps_bind; [apply keeps_check_rate_limit|intros allowed0].
  destruct allowed0; cbn [negb]; [|apply keeps_ret].
  apply keeps_bind; [apply keeps_send, allowed_goto|intros ok].
  destruct ok; cbn [negb]; [|apply keeps_ret].
  apply keeps_bind; [apply keeps_touch|intros _; apply keeps_ret].
Qed.

Lemma keeps_mark_activity : keeps_rel R PresetManager.mark_activity.
Proof. unfold PresetManager.mark_activity. keeps_steps. Qed.

Lemma keeps_goto_preset_by_id (preset_id : Z) :
  keeps_rel R (PresetManager.goto_preset_by_id preset_id).
Proof.
  unfold PresetManager.goto_preset_by_id.
  apply keeps_bind; [apply keeps_get|intros h0].
  destruct (List.find _ _); [|apply keeps_ret].
  apply keeps_bind; [apply keeps_goto_preset|intros success].
  apply keeps_bind; [|intros _; apply keeps_ret].
  destruct success; [apply keeps_mark_activity|apply keeps_ret].
Qed.

Lemma keeps_next_preset : keeps_rel R PresetManager.next_preset.
Proof.
  unfold PresetManager.next_preset.
  apply keeps_bind; [apply keeps_get|intros h0].
  destruct (Obj.presets (preset_mgr h0)) eqn:E; [apply keeps_ret|].
  apply keeps_bind; [apply keeps_set_preset_mgr|intros _].
  destruct (_ !! _); [apply keeps_goto_preset|apply keeps_ret].
Qed.

Lemma keeps_sweep_presets (presets : list World.Preset) :
  keeps_rel R (PresetManager.sweep_presets presets).
Proof.
  induction presets as [|preset rest IH]; cbn [PresetManager.sweep_presets];
    [apply keeps_ret|].
  apply keeps_bind; [apply keeps_goto_preset|intros _].
  apply keeps_bind; [apply keeps_time_sleep|intros _; exact IH].
Qed.

Lemma keeps_startup_sweep : keeps_rel R PresetManager.startup_sweep.
Proof.
  unfold PresetManager.startup_sweep.
  apply keeps_bind; [apply keeps_get|intros h0].
  destruct (Obj.presets (preset_mgr h0)); [apply keeps_ret|apply keeps_sweep_presets].
Qed.

Lemma keeps_idle_monitor_tick : keeps_rel R PresetManager.idle_monitor_tick.
Proof.
  unfold PresetManager.idle_monitor_tick.
  apply keeps_bind; [apply keeps_time_time|intros current_time].
  apply keeps_bind; [apply keeps_get|intros h0].
  apply keeps_bind.
  - destruct (_ && _); [|apply keeps_ret].
    destruct (negb _); [|apply keeps_ret].
    apply keeps_bind; [apply keeps_set_preset_mgr|intros _].
    destruct (negb _); [|apply keeps_ret].
    apply keeps_bind; [apply keeps_goto_preset_by_id|intros _; apply keeps_ret].
  - intros _. apply keeps_bind; [apply keeps_get|intros h1].
    destruct (_ && _); [|apply keeps_ret].
    apply keeps_bind; [apply keeps_next_preset|intros _; apply keeps_ret].
Qed.

Lemma R_active (h : Heap) : R h (active h).
Proof.
  pose proof (keeps_mark_activity h) as H. rewrite mark_activity_run in H. exact H.
Qed.

Lemma keeps_point_to_target (target_x target_y : float) (frame_width frame_height : Z)
    (track_id : option Z) :
  keeps_rel R (PTZController.point_to_target target_x target_y frame_width frame_height track_id).
Proof.
  unfold PTZController.point_to_target.
  apply keeps_get_bind. intros h.
  destruct (PTZController.within_hysteresis _ _ _); [apply R_refl|].
  destruct (Py.truediv _ _); [|apply R_refl].
  destruct (Py.truediv _ _); [|apply R_refl].
  cbv zeta. rewrite bind_run.
  match goal with
  | |- context [PTZClient.relative_move ?p ?t ?z ?s h] =>
      pose proof (keeps_relative_move p t z s h) as Hm;
      destruct (PTZClient.relative_move p t z s h) as [[|] h1]
  end; cbn [fst snd] in *.
  - rewrite bind_run, bind_run, get_run. cbn [fst snd].
    rewrite bind_run, set_controller_run. cbn [fst snd].
    rewrite mark_activity_run. cbn [snd].
    eapply R_trans; [exact Hm|].
    eapply R_trans; [apply (R_target (Some (target_x, target_y)) h1)|apply R_active].
  - rewrite bind_run. exact Hm.
Qed.

Lemma keeps_zoom_to_target (target_height desired_height : float) (track_id : option Z) :
  keeps_rel R (PTZController.zoom_to_target target_height desired_height track_id).
Proof.
  unfold PTZController.zoom_to_target.
  destruct (target_height <=? 0)%float; [apply keeps_ret|].
  destruct (Py.truediv _ _); [|apply keeps_ret].
  apply keeps_get_bind. intros h. cbv zeta.
  assert (Hgo : forall zoom_change h0,
    R h0 (snd ((let* success := PTZClient.relative_move 0 0 zoom_change 0.3 in
               (if success then
                  let* h' := get in
                  set_controller
                    (PTZController.set_current_zoom
                       (Py.max 0 (Py.min 1 (Obj.current_zoom (controller h) + zoom_change)))
                       (controller h')) ;;
                  PresetManager.mark_activity
                else ret tt) ;;
               ret (Py.Ok success)) h0))).
  { intros zoom_change h0. rewrite bind_run.
    pose proof (keeps_relative_move 0 0 zoom_change 0.3 h0) as Hm.
    destruct (PTZClient.relative_move 0 0 zoom_change 0.3 h0) as [[|] h1]; cbn [fst snd] in *.
    - rewrite bind_run, bind_run, get_run. cbn [fst snd].
      rewrite bind_run, set_controller_run. cbn [fst snd].
      rewrite mark_activity_run. cbn [snd].
      eapply R_trans; [exact Hm|].
      eapply R_trans;
        [apply (R_zoom (Obj.current_zoom (controller h) + zoom_change)%float h1)
        |apply R_active].
    - rewrite bind_run. exact Hm. }
  destruct (1.2 <? _)%float; [apply Hgo|].
  destruct (_ <? 0.8)%float; [apply Hgo|apply R_refl].
Qed.

Lemma keeps_track_and_zoom (cx cy bh : float) (frame_width frame_height : Z)
    (desired : float) (track_id : option Z) :
  keeps_rel R (PTZController.track_and_zoom cx cy bh frame_width frame_height desired track_id).
Proof.
  unfold PTZController.track_and_zoom.
  apply keeps_bind; [apply keeps_point_to_target|intros tracking].
  destruct tracking as [tracking_success|]; [|apply keeps_ret].
  apply keeps_bind; [destruct tracking_success; [apply keeps_time_sleep|apply keeps_ret]|].
  intros _. apply keeps_bind; [apply keeps_zoom_to_target|intros zooming].
  destruct zooming; apply keeps_ret.
Qed.

Lemma keeps_exec (c : Command) : keeps_rel R (exec c).
Proof.
  destruct c; cbn [exec];
    try (apply keeps_bind; [|intros _; apply keeps_ret]).
  - apply keeps_point_to_target.
  - apply keeps_zoom_to_target.
  - apply keeps_track_and_zoom.
  - apply keeps_goto_preset_by_id.
  - apply keeps_next_preset.
  - apply keeps_startup_sweep.
  - apply keeps_idle_monitor_tick.
  - apply keeps_relative_move.
Qed.

Lemma keeps_run_commands (commands : list Command) :
  forall h, R h (run_commands commands h).
Proof.
  induction commands as [|c commands IH]; intros h; cbn [run_commands fold_left].
  - apply R_refl.
  - eapply R_trans; [apply keeps_exec|apply IH].
Qed.

End Keeps.

(** X17.  The software zoom level stays within [0, 1]: no sequence of
    operations of the controller service takes [current_zoom] out of that
    range ([zoom_to_target] is the only one that writes it, and it writes a
    clamped value). *)
Theorem zoom_level_stays_in_range (commands : list Command) (h : Heap) :
  zoom_in_range h -> zoom_in_range (run_commands commands h).
Proof.
  apply (keeps_run_commands (fun h h' => zoom_in_range h -> zoom_in_range h')
           (fun _ => True)); try (intros; exact I); try (intros; assumption).
  - intros a b c Hab Hbc Ha. auto.
  - intros x h0 _. apply clamp_zoom.
Qed.

(** X17, witness: from the controller at rest, a zoom in followed by a pass of
    the idle monitor. *)
Lemma zoom_level_stays_in_range_witness :
  zoom_in_range (run_commands [ZoomToTarget 100 200; IdleMonitorPass] (Rest.heap 0)).
Proof.
  apply (zoom_level_stays_in_range [ZoomToTarget 100 200; IdleMonitorPass] (Rest.heap 0)).
  split; reflexivity.
Defined.

(** X18.  Every relative move that a sequence of these operations sends
    the device has its pan, tilt and zoom translations within [-1, 1]:
    [relative_move], which builds the request, clamps the three of them,
    whatever floats its callers pass (a NaN comes out as 1). *)
Theorem translations_stay_in_range (commands : list Command) (h : Heap) :
  extends translation_in_range h (run_commands commands h).
Proof.
  apply (keeps_run_commands (extends translation_in_range) translation_in_range).
  - intros h0. exists []. split; [unfold sent_since; rewrite app_nil_r; reflexivity|constructor].
  - intros a b c (n1 & H1 & F1) (n2 & H2 & F2). exists (n1 ++ n2). split.
    + unfold sent_since in *. rewrite H2, H1, app_assoc. reflexivity.
    + apply List.Forall_app. auto.
  - intros h0. exists []. split; [unfold sent_since; cbn; rewrite app_nil_r; reflexivity|constructor].
  - intros r h0 Hr. exists [r]. split; [reflexivity|repeat constructor; exact Hr].
  - intros c h0. exists []. split; [unfold sent_since; cbn; rewrite app_nil_r; reflexivity|constructor].
  - intros p h0. exists []. split; [unfold sent_since; cbn; rewrite app_nil_r; reflexivity|constructor].
  - intros p h0. exists []. split; [unfold sent_since; cbn; rewrite app_nil_r; reflexivity|constructor].
  - intros x h0. exists []. split; [unfold sent_since; cbn; rewrite app_nil_r; reflexivity|constructor].
  - exact I.
  - intros pan tilt zoom speed. cbn. repeat split; apply clamp_unit.
  - intros t. exact I.
Qed.

(** *** The preset manager *)

Section PresetFacts.

(** Reading the clock, sending a request and recording a move leave the
    preset manager and the controller as they are. *)
Lemma goto_preset_frame (preset_token : string) (h : Heap) :
  let r := PTZClient.goto_preset preset_token h in
  preset_mgr (snd r) = preset_mgr h
  /\ controller (snd r) = controller h
  /\ sent_since h (snd r) (if rate_limited h then [] else [World.GotoPreset preset_token])
  /\ (fst r = true <-> rate_limited h = false /\ faulty (clock_read h) = false).
Proof.
  cbv zeta. rewrite goto_preset_run. unfold sent_since.
  destruct (rate_limited h); cbn [fst snd].
  - cbn. rewrite app_nil_r. repeat split; try reflexivity; intros; try discriminate.
    destruct H; discriminate.
  - cbv zeta. destruct (faulty (clock_read h)); cbn;
      repeat split; try reflexivity; intros; try discriminate.
    destruct H; discriminate.
Qed.

Lemma sweep_presets_visits (presets : list World.Preset) :
  forall h,
    let h' := snd (PresetManager.sweep_presets presets h) in
    preset_mgr h' = preset_mgr h
    /\ controller h' = controller h
    /\ exists tokens,
         sublist tokens (map World.token presets)
         /\ sent_since h h' (map World.GotoPreset tokens).
Proof.
  induction presets as [|preset rest IH]; intros h; cbn [PresetManager.sweep_presets].
  - cbn. split; [reflexivity|]. split; [reflexivity|].
    exists []. split; [constructor|]. unfold sent_since. cbn. rewrite app_nil_r. reflexivity.
  - cbv zeta. rewrite bind_run, bind_run. unfold time_sleep. cbn [ret fst snd].
    destruct (goto_preset_frame (World.token preset) h) as (Hm & Hc & Hs & _).
    cbv zeta in Hm, Hc, Hs.
    set (h1 := snd (PTZClient.goto_preset (World.token preset) h)) in *.
    destruct (IH h1) as (Hm' & Hc' & tokens & Hsub & Hs'). cbv zeta in Hm', Hc', Hs'.
    split; [congruence|]. split; [congruence|].
    unfold sent_since in *. destruct (rate_limited h).
    + exists tokens. split; [apply sublist_cons, Hsub|].
      rewrite Hs', Hs, app_nil_r. reflexivity.
    + exists (World.token preset :: tokens). split; [apply sublist_skip, Hsub|].
      rewrite Hs', Hs, <- app_assoc. reflexivity.
Qed.

(** [next_preset] on a non-empty list of presets: the index advances
    cyclically, whatever becomes of the goto-preset. *)
Lemma next_preset_run (h : Heap) :
  Obj.presets (preset_mgr h) <> [] ->
  let idx := (Obj.current_preset_idx (preset_mgr h) + 1)
               mod Z.of_nat (length (Obj.presets (preset_mgr h))) in
  let h1 := mkHeap (world h) (ptz h)
              (PresetManager.set_current_preset_idx idx (preset_mgr h)) (controller h) in
  exists preset,
    Obj.presets (preset_mgr h) !! Z.to_nat idx = Some preset
    /\ PresetManager.next_preset h = PTZClient.goto_preset (World.token preset) h1.
Proof.
  intros Hne. cbv zeta.
  assert (Hlen : 0 < Z.of_nat (length (Obj.presets (preset_mgr h)))).
  { destruct (Obj.presets (preset_mgr h)); [contradiction|cbn [length]; lia]. }
  pose proof (Z.mod_pos_bound (Obj.current_preset_idx (preset_mgr h) + 1) _ Hlen) as Hidx.
  destruct (lookup_lt_is_Some_2 (Obj.presets (preset_mgr h))
              (Z.to_nat ((Obj.current_preset_idx (preset_mgr h) + 1)
                           mod Z.of_nat (length (Obj.presets (preset_mgr h))))))
    as [preset Hp]; [lia|].
  exists preset. split; [exact Hp|].
  unfold PresetManager.next_preset. rewrite bind_run, get_run. cbn [fst snd].
  destruct (Obj.presets (preset_mgr h)) as [|p0 ps] eqn:E; [contradiction|].
  rewrite bind_run, set_preset_mgr_run. cbn [fst snd].
  rewrite Hp. reflexivity.
Qed.

End PresetFacts.

(** X19.  [startup_sweep] sends nothing but goto-presets, for tokens of
    [self.presets] in their order and at most one per preset (a preset whose
    turn falls within the rate limit is skipped), and nothing at all without
    presets; it never marks activity: the preset manager, with its idle
    clock, and the controller are left as they were. *)
Theorem startup_sweep_visits_presets (h : Heap) :
  let h' := snd (PresetManager.startup_sweep h) in
  preset_mgr h' = preset_mgr h
  /\ controller h' = controller h
  /\ exists tokens,
       sublist tokens (map World.token (Obj.presets (preset_mgr h)))
       /\ sent_since h h' (map World.GotoPreset tokens).
Proof.
  cbv zeta. unfold PresetManager.startup_sweep. rewrite bind_run, get_run. cbn [fst snd].
  destruct (Obj.presets (preset_mgr h)) as [|p0 ps] eqn:E.
  - cbn. split; [reflexivity|]. split; [reflexivity|].
    exists []. split; [constructor|]. unfold sent_since. cbn. rewrite app_nil_r. reflexivity.
  - apply sweep_presets_visits.
Qed.

(** X20.  [next_preset] with at least one preset moves [current_preset_idx] to
    [(idx + 1) mod len], an index of the list, and changes nothing else in
    the preset manager (it does not mark activity); it sends the goto-preset
    of the preset at the new index unless the rate limit refuses it, and the
    index has advanced all the same. *)
Theorem next_preset_cycles (h : Heap) :
  Obj.presets (preset_mgr h) <> [] ->
  let r := PresetManager.next_preset h in
  let idx := (Obj.current_preset_idx (preset_mgr h) + 1)
               mod Z.of_nat (length (Obj.presets (preset_mgr h))) in
  0 <= idx < Z.of_nat (length (Obj.presets (preset_mgr h)))
  /\ preset_mgr (snd r) = PresetManager.set_current_preset_idx idx (preset_mgr h)
  /\ controller (snd r) = controller h
  /\ exists preset,
       Obj.presets (preset_mgr h) !! Z.to_nat idx = Some preset
       /\ sent_since h (snd r)
            (if rate_limited h then [] else [World.GotoPreset (World.token preset)]).
Proof.
  intros Hne. cbv zeta.
  destruct (next_preset_run h Hne) as (preset & Hp & Hrun). cbv zeta in Hp, Hrun.
  rewrite Hrun.
  set (h1 := mkHeap _ _ _ _) in *.
  destruct (goto_preset_frame (World.token preset) h1) as (Hm & Hc & Hs & _).
  cbv zeta in Hm, Hc, Hs.
  split.
  { apply Z.mod_pos_bound. destruct (Obj.presets (preset_mgr h)); [contradiction|].
    cbn [length]. lia. }
  split; [exact Hm|]. split; [exact Hc|].
  exists preset. split; [exact Hp|exact Hs].
Qed.

(** X20, witness: the controller at rest, with presets '1' and '2' and index 0. *)
Lemma next_preset_cycles_witness :
  let r := PresetManager.next_preset (Rest.heap 0) in
  let idx := (Obj.current_preset_idx (preset_mgr (Rest.heap 0)) + 1)
               mod Z.of_nat (length (Obj.presets (preset_mgr (Rest.heap 0)))) in
  0 <= idx < Z.of_nat (length (Obj.presets (preset_mgr (Rest.heap 0))))
  /\ preset_mgr (snd r)
     = PresetManager.set_current_preset_idx idx (preset_mgr (Rest.heap 0))
  /\ controller (snd r) = controller (Rest.heap 0)
  /\ exists preset,
       Obj.presets (preset_mgr (Rest.heap 0)) !! Z.to_nat idx = Some preset
       /\ sent_since (Rest.heap 0) (snd r)
            (if rate_limited (Rest.heap 0) then []
             else [World.GotoPreset (World.token preset)]).
Proof. apply (next_preset_cycles (Rest.heap 0)). discriminate. Defined.

(** X21.  [goto_preset_by_id] returns True exactly when a preset with token
    [str(preset_id)] is in the list, the rate limit lets the command
    through and the device raises no fault; it then has sent that one
    goto-preset and left the idle state.  For an id that is not in the list
    it returns False without reading the clock or sending anything. *)
Theorem goto_preset_by_id_outcomes (h : Heap) (preset_id : Z) :
  let r := PresetManager.goto_preset_by_id preset_id h in
  (fst r = true
   <-> is_Some (preset_by_id preset_id h)
       /\ rate_limited h = false /\ faulty (clock_read h) = false)
  /\ (fst r = true ->
      sent_since h (snd r) [World.GotoPreset (PresetManager.str preset_id)]
      /\ Obj.is_idle (preset_mgr (snd r)) = false)
  /\ (preset_by_id preset_id h = None -> r = (false, h)).
Proof.
  cbv zeta. rewrite goto_preset_by_id_run.
  destruct (preset_by_id preset_id h) as [preset|].
  - cbv zeta. rewrite goto_preset_run.
    destruct (rate_limited h); cbn [fst snd].
    + split; [|split]; try discriminate.
      split; [discriminate|]. intros (_ & H & _). discriminate.
    + cbv zeta. destruct (faulty (clock_read h)); cbn [fst snd].
      * split; [|split]; try discriminate.
        split; [discriminate|]. intros (_ & _ & H). discriminate.
      * split; [|split]; try discriminate.
        -- split; [intros _|reflexivity]. split; [eauto|]. split; reflexivity.
        -- intros _. split; [reflexivity|apply active_not_idle].
  - split; [|split]; try discriminate; try reflexivity.
    split; [discriminate|]. intros ([x Hx] & _). discriminate.
Qed.

Section IdleMore.

Lemma idle_monitor_tick_disabled (h : Heap) :
  Obj.idle_enabled (preset_mgr h) = false -> Obj.is_idle (preset_mgr h) = false ->
  PresetManager.idle_monitor_tick h = (1%float, clock_read h).
Proof.
  intros Hen Hidle. unfold PresetManager.idle_monitor_tick.
  rewrite bind_run, time_time_run. cbn [fst snd].
  rewrite bind_run, get_run. cbn [fst snd].
  cbn [preset_mgr clock_read]. rewrite Hen. cbn [andb].
  rewrite bind_run. cbn [ret fst snd].
  rewrite bind_run, get_run. cbn [fst snd preset_mgr clock_read].
  rewrite Hidle, andb_false_r. reflexivity.
Qed.

Lemma idle_monitor_tick_sweeping (h : Heap) :
  Obj.is_idle (preset_mgr h) = true -> Obj.sweep_enabled (preset_mgr h) = true ->
  PresetManager.idle_monitor_tick h
  = (Obj.sweep_interval_s (preset_mgr h), snd (PresetManager.next_preset (clock_read h))).
Proof.
  intros Hidle Hsw. unfold PresetManager.idle_monitor_tick.
  rewrite bind_run, time_time_run. cbn [fst snd].
  rewrite bind_run, get_run. cbn [fst snd].
  cbn [preset_mgr clock_read]. rewrite Hidle. cbn [negb].
  assert (Hfirst : forall b : bool, (if b then ret tt else ret tt) = (ret tt : M unit))
    by (intros []; reflexivity).
  rewrite Hfirst. rewrite bind_run. cbn [ret fst snd].
  rewrite bind_run, get_run. cbn [fst snd preset_mgr clock_read].
  rewrite Hidle, Hsw. cbn [andb]. rewrite bind_run. reflexivity.
Qed.

End IdleMore.

(** X22.  With idle behaviour disabled the monitor is silent: whatever the time
    since the last activity, its passes send nothing, never enter the idle
    state and change nothing but the number of clock readings. *)
Theorem idle_monitor_disabled_is_silent (n : nat) (h : Heap) :
  Obj.idle_enabled (preset_mgr h) = false ->
  Obj.is_idle (preset_mgr h) = false ->
  let h' := snd (PresetManager._idle_monitor_loop n h) in
  World.wire (world h') = World.wire (world h)
  /\ ptz h' = ptz h
  /\ preset_mgr h' = preset_mgr h
  /\ controller h' = controller h.
Proof.
  revert h. induction n as [|n IH]; intros h Hen Hidle; cbn [PresetManager._idle_monitor_loop].
  - cbn. auto.
  - cbv zeta. rewrite bind_run, get_run. cbn [fst snd].
    destruct (Obj.running (preset_mgr h)); [|cbn; auto].
    rewrite bind_run, (idle_monitor_tick_disabled h Hen Hidle). cbn [fst snd].
    destruct (IH (clock_read h) Hen Hidle) as (H1 & H2 & H3 & H4).
    cbv zeta in H1, H2, H3, H4. rewrite H1, H2, H3, H4. auto.
Qed.

(** X22, witness: the controller at rest with idle behaviour switched off, 1.2 s
    after the last activity and a timeout of 1 s, over five passes. *)
Lemma idle_monitor_disabled_is_silent_witness :
  let h := mkHeap (world (Rest.heap 0)) (ptz (Rest.heap 0))
             (Obj.mkPresetManager Rest.presets 0 false 1 2 true 60 998.8 false true)
             (controller (Rest.heap 0)) in
  let h' := snd (PresetManager._idle_monitor_loop 5 h) in
  World.wire (world h') = World.wire (world h)
  /\ ptz h' = ptz h
  /\ preset_mgr h' = preset_mgr h
  /\ controller h' = controller h.
Proof.
  apply (idle_monitor_disabled_is_silent 5
           (mkHeap (world (Rest.heap 0)) (ptz (Rest.heap 0))
              (Obj.mkPresetManager Rest.presets 0 false 1 2 true 60 998.8 false true)
              (controller (Rest.heap 0)))); reflexivity.
Defined.

(** X23.  Once idle, with sweeping enabled, every pass of the monitor is a sweep
    step: it calls [next_preset] once, sleeps [sweep_interval_s] and leaves
    the manager idle, so the sweep goes on until some other command marks
    activity; the pass makes no new attempt at the default preset. *)
Theorem idle_sweep_continues (h : Heap) :
  Obj.is_idle (preset_mgr h) = true ->
  Obj.sweep_enabled (preset_mgr h) = true ->
  let r := PresetManager.idle_monitor_tick h in
  r = (Obj.sweep_interval_s (preset_mgr h), snd (PresetManager.next_preset (clock_read h)))
  /\ Obj.is_idle (preset_mgr (snd r)) = true
  /\ Obj.sweep_enabled (preset_mgr (snd r)) = true
  /\ Obj.last_activity_time (preset_mgr (snd r)) = Obj.last_activity_time (preset_mgr h).
Proof.
  intros Hidle Hsw. cbv zeta. rewrite (idle_monitor_tick_sweeping h Hidle Hsw).
  split; [reflexivity|]. cbn [snd].
  destruct (Obj.presets (preset_mgr h)) as [|p0 ps] eqn:E.
  - unfold PresetManager.next_preset. rewrite bind_run, get_run. cbn [fst snd].
    cbn [preset_mgr clock_read]. rewrite E. cbn. auto.
  - assert (Hne : Obj.presets (preset_mgr (clock_read h)) <> []).
    { cbn [preset_mgr clock_read]. rewrite E. discriminate. }
    destruct (next_preset_run (clock_read h) Hne) as (preset & _ & Hrun).
    cbv zeta in Hrun. rewrite Hrun.
    destruct (goto_preset_frame (World.token preset)
                (mkHeap (world (clock_read h)) (ptz (clock_read h))
                   (PresetManager.set_current_preset_idx
                      ((Obj.current_preset_idx (preset_mgr (clock_read h)) + 1)
                         mod Z.of_nat (length (Obj.presets (preset_mgr (clock_read h)))))
                      (preset_mgr (clock_read h)))
                   (controller (clock_read h)))) as (Hm & _).
    cbv zeta in Hm. rewrite Hm. cbn. auto.
Qed.

(** X23, witness: the idle pass that was refused by the rate limit, followed by
    another pass. *)
Lemma idle_sweep_continues_witness :
  let h := snd (PresetManager.idle_monitor_tick (Rest.heap 999.5)) in
  let r := PresetManager.idle_monitor_tick h in
  r = (Obj.sweep_interval_s (preset_mgr h), snd (PresetManager.next_preset (clock_read h)))
  /\ Obj.is_idle (preset_mgr (snd r)) = true
  /\ Obj.sweep_enabled (preset_mgr (snd r)) = true
  /\ Obj.last_activity_time (preset_mgr (snd r)) = Obj.last_activity_time (preset_mgr h).
Proof.
  apply (idle_sweep_continues (snd (PresetManager.idle_monitor_tick (Rest.heap 999.5))));
    vm_compute; reflexivity.
Defined.

(** *** The controller *)

Section ControllerFacts.

(** A call of [relative_move] leaves the preset manager and the
    controller as they are, whatever it returns. *)
Lemma relative_move_frame (pan tilt zoom speed : float) (h : Heap) :
  let r := PTZClient.relative_move pan tilt zoom speed h in
  preset_mgr (snd r) = preset_mgr h /\ controller (snd r) = controller h.
Proof.
  cbv zeta. rewrite relative_move_run.
  destruct (rate_limited h); [cbn; auto|]. cbv zeta.
  destruct (faulty _); [cbn; auto|].
  destruct (faulty _); [cbn; auto|].
  destruct (faulty _); cbn; auto.
Qed.

(** What [relative_move] has sent when it returns True. *)
Lemma relative_move_true (pan tilt zoom speed : float) (h : Heap) :
  fst (PTZClient.relative_move pan tilt zoom speed h) = true ->
  rate_limited h = false
  /\ sent_since h (snd (PTZClient.relative_move pan tilt zoom speed h))
       [World.GetStatus; World.GetStatus; relative_move_request pan tilt zoom speed].
Proof.
  rewrite relative_move_run. unfold sent_since.
  destruct (rate_limited h); [discriminate|]. cbv zeta.
  destruct (faulty _); [discriminate|].
  destruct (faulty _); [discriminate|].
  destruct (faulty _); [discriminate|].
  intros _. split; [reflexivity|]. cbn. rewrite <- !app_assoc. reflexivity.
Qed.

(** [zoom_to_target], exit by exit. *)
Lemma zoom_to_target_run (target_height desired_height : float) (track_id : option Z)
    (h : Heap) :
  PTZController.zoom_to_target target_height desired_height track_id h
  = if (target_height <=? 0)%float then (Py.Ok false, h)
    else
      let zoom_factor := (desired_height / target_height)%float in
      let go (zoom_change : float) :=
        let m := PTZClient.relative_move 0 0 zoom_change 0.3 h in
        if fst m then
          (Py.Ok true,
           active (mkHeap (world (snd m)) (ptz (snd m)) (preset_mgr (snd m))
                     (PTZController.set_current_zoom
                        (PTZClient.clamp 0 1
                           (Obj.current_zoom (controller h) + zoom_change))
                        (controller (snd m)))))
        else (Py.Ok false, snd m) in
      if (1.2 <? zoom_factor)%float then go (Obj.zoom_step (controller h))
      else if (zoom_factor <? 0.8)%float then go (- Obj.zoom_step (controller h))%float
      else (Py.Ok false, h).
Proof.
  unfold PTZController.zoom_to_target.
  destruct (target_height <=? 0)%float eqn:Eg; [reflexivity|].
  rewrite truediv_positive by assumption.
  rewrite bind_run, get_run. cbn [fst snd]. cbv zeta.
  assert (Hgo : forall zoom_change,
    (let* success := PTZClient.relative_move 0 0 zoom_change 0.3 in
     (if success then
        let* h' := get in
        set_controller
          (PTZController.set_current_zoom
             (Py.max 0 (Py.min 1 (Obj.current_zoom (controller h) + zoom_change)))
             (controller h')) ;;
        PresetManager.mark_activity
      else ret tt) ;;
     ret (Py.Ok success)) h
    = if fst (PTZClient.relative_move 0 0 zoom_change 0.3 h) then
        (Py.Ok true,
         active (mkHeap (world (snd (PTZClient.relative_move 0 0 zoom_change 0.3 h)))
                   (ptz (snd (PTZClient.relative_move 0 0 zoom_change 0.3 h)))
                   (preset_mgr (snd (PTZClient.relative_move 0 0 zoom_change 0.3 h)))
                   (PTZController.set_current_zoom
                      (PTZClient.clamp 0 1 (Obj.current_zoom (controller h) + zoom_change))
                      (controller (snd (PTZClient.relative_move 0 0 zoom_change 0.3 h))))))
      else (Py.Ok false, snd (PTZClient.relative_move 0 0 zoom_change 0.3 h))).
  { intros zoom_change. rewrite bind_run.
    destruct (PTZClient.relative_move 0 0 zoom_change 0.3 h) as [[|] h1]; cbn [fst snd].
    - rewrite bind_run, bind_run, get_run. cbn [fst snd].
      rewrite bind_run, set_controller_run. cbn [fst snd].
      rewrite mark_activity_run. reflexivity.
    - rewrite bind_run. reflexivity. }
  destruct (1.2 <? _)%float; [apply Hgo|].
  destruct (_ <? 0.8)%float; [apply Hgo|reflexivity].
Qed.

(** A [zoom_to_target] within the rate limit sends nothing and changes
    neither the controller nor the client. *)
Lemma zoom_to_target_limited (target_height desired_height : float) (track_id : option Z)
    (h : Heap) :
  rate_limited h = true ->
  let r := PTZController.zoom_to_target target_height desired_height track_id h in
  fst r = Py.Ok false
  /\ controller (snd r) = controller h
  /\ ptz (snd r) = ptz h
  /\ preset_mgr (snd r) = preset_mgr h
  /\ World.wire (world (snd r)) = World.wire (world h).
Proof.
  intros Hl. cbv zeta. rewrite zoom_to_target_run.
  destruct (target_height <=? 0)%float; [cbn; auto 6|]. cbv zeta.
  destruct (1.2 <? _)%float.
  - rewrite !relative_move_limited by assumption. cbn. auto 6.
  - destruct (_ <? 0.8)%float; [|cbn; auto 6].
    rewrite !relative_move_limited by assumption. cbn. auto 6.
Qed.

End ControllerFacts.

(** X24.  [zoom_to_target] never raises: the guard [target_height <= 0] keeps
    both zeros away from the division.  It returns True only for a positive
    [target_height] whose zoom factor is above 1.2 or below 0.8, and then it
    has sent one relative move of zoom [zoom_step] (above 1.2) or
    [-zoom_step] (below 0.8) at speed 0.3 and has moved [current_zoom] by
    that step, clamped to [0, 1]; when it returns False the controller and
    the preset manager are as they were. *)
Theorem zoom_to_target_outcomes (h : Heap) (target_height desired_height : float)
    (track_id : option Z) :
  let r := PTZController.zoom_to_target target_height desired_height track_id h in
  let zoom_change :=
    if (1.2 <? desired_height / target_height)%float then Obj.zoom_step (controller h)
    else (- Obj.zoom_step (controller h))%float in
  (fst r = Py.Ok true
   /\ (target_height <=? 0)%float = false
   /\ ((1.2 <? desired_height / target_height)%float
       || (desired_height / target_height <? 0.8)%float) = true
   /\ sent_since h (snd r)
        [World.GetStatus; World.GetStatus; relative_move_request 0 0 zoom_change 0.3]
   /\ Obj.current_zoom (controller (snd r))
      = PTZClient.clamp 0 1 (Obj.current_zoom (controller h) + zoom_change)
   /\ Obj.is_idle (preset_mgr (snd r)) = false)
  \/ (fst r = Py.Ok false
      /\ controller (snd r) = controller h
      /\ preset_mgr (snd r) = preset_mgr h).
Proof.
  cbv zeta. rewrite zoom_to_target_run.
  destruct (target_height <=? 0)%float; [right; cbn; auto|]. cbv zeta.
  assert (Hgo : forall zoom_change,
    let m := PTZClient.relative_move 0 0 zoom_change 0.3 h in
    let r := if fst m then
               (Py.Ok true,
                active (mkHeap (world (snd m)) (ptz (snd m)) (preset_mgr (snd m))
                          (PTZController.set_current_zoom
                             (PTZClient.clamp 0 1
                                (Obj.current_zoom (controller h) + zoom_change))
                             (controller (snd m)))))
             else (Py.Ok false, snd m) in
    (@fst (Py.result bool) Heap r = Py.Ok true
     /\ sent_since h (snd r)
          [World.GetStatus; World.GetStatus; relative_move_request 0 0 zoom_change 0.3]
     /\ Obj.current_zoom (controller (snd r))
        = PTZClient.clamp 0 1 (Obj.current_zoom (controller h) + zoom_change)
     /\ Obj.is_idle (preset_mgr (snd r)) = false)
    \/ (fst r = Py.Ok false
        /\ controller (snd r) = controller h /\ preset_mgr (snd r) = preset_mgr h)).
  { intros zoom_change. cbv zeta.
    pose proof (relative_move_true 0 0 zoom_change 0.3 h) as Htrue.
    pose proof (relative_move_frame 0 0 zoom_change 0.3 h) as Hframe. cbv zeta in Hframe.
    destruct (PTZClient.relative_move 0 0 zoom_change 0.3 h) as [[|] h1]; cbn [fst snd] in *.
    - left. destruct (Htrue eq_refl) as [_ Hs].
      split; [reflexivity|]. split; [exact Hs|]. split; [|apply active_not_idle].
      unfold active. cbn. destruct (Obj.is_idle (preset_mgr h1)); reflexivity.
    - right. destruct Hframe. auto. }
  destruct (1.2 <? desired_height / target_height)%float eqn:E1.
  - destruct (Hgo (Obj.zoom_step (controller h))) as [(H1 & H2 & H3 & H4)|H]; [left|right; exact H].
    cbv zeta in *. repeat split; assumption.
  - destruct (desired_height / target_height <? 0.8)%float eqn:E2.
    + destruct (Hgo (- Obj.zoom_step (controller h))%float) as [(H1 & H2 & H3 & H4)|H];
        [left|right; exact H].
      cbv zeta in *. repeat split; assumption.
    + right. cbn. auto.
Qed.

(** X25.  A [point_to_target] that does not return True has recorded nothing:
    [last_target_position], the rest of the controller and the preset
    manager with its idle clock are as before.  On a frame of width zero a
    target outside the dead zone makes it raise [ZeroDivisionError] before
    anything is read or sent. *)
Theorem point_to_target_failure_records_nothing (h : Heap) (target_x target_y : float)
    (frame_width frame_height : Z) (track_id : option Z) :
  let r := PTZController.point_to_target target_x target_y frame_width frame_height
             track_id h in
  (fst r <> Py.Ok true ->
   controller (snd r) = controller h /\ preset_mgr (snd r) = preset_mgr h)
  /\ (PTZController.within_hysteresis (controller h) target_x target_y = false ->
      (Py.float_of_int frame_width =? 0)%float = true ->
      r = (Py.ZeroDivisionError, h)).
Proof.
  cbv zeta. unfold PTZController.point_to_target.
  rewrite bind_run, get_run. cbn [fst snd]. split.
  - destruct (PTZController.within_hysteresis _ _ _); [cbn; auto|].
    destruct (Py.truediv _ _) as [pan|]; [|cbn; auto].
    destruct (Py.truediv _ _) as [tilt|]; [|cbn; auto].
    cbv zeta. rewrite bind_run.
    pose proof (relative_move_frame pan tilt 0 (Obj.pan_speed (controller h)) h) as Hf.
    cbv zeta in Hf.
    destruct (PTZClient.relative_move pan tilt 0 _ h) as [[|] h1]; cbn [fst snd] in *.
    + rewrite bind_run. cbn [ret fst snd]. intros H. exfalso. apply H. reflexivity.
    + rewrite bind_run. cbn [ret fst snd]. intros _. destruct Hf. auto.
  - intros Hz Hw. rewrite Hz. unfold Py.truediv at 1. rewrite Hw. reflexivity.
Qed.

(** X26.  Within [track_and_zoom] the zoom that follows a successful pointing is
    refused whenever it comes within [move_rate_limit_s] of that move (the
    pause between the two is 0.5 s, the default limit 2 s): the result is
    (True, False), nothing is sent after the pointing move and
    [current_zoom] is unchanged. *)
Theorem track_and_zoom_zoom_refused (h : Heap) (cx cy bbox_height : float)
    (frame_width frame_height : Z) (desired : float) (track_id : option Z) :
  let p := PTZController.point_to_target cx cy frame_width frame_height track_id h in
  fst p = Py.Ok true ->
  rate_limited (snd p) = true ->
  let r := PTZController.track_and_zoom cx cy bbox_height frame_width frame_height desired
             track_id h in
  fst r = Py.Ok (true, false)
  /\ World.wire (world (snd r)) = World.wire (world (snd p))
  /\ controller (snd r) = controller (snd p)
  /\ ptz (snd r) = ptz (snd p).
Proof.
  intros p Hp Hl r. subst r. unfold PTZController.track_and_zoom.
  rewrite bind_run. fold p. rewrite Hp.
  rewrite bind_run. unfold time_sleep. cbn [ret fst snd].
  rewrite bind_run.
  destruct (zoom_to_target_limited bbox_height desired track_id (snd p) Hl)
    as (H1 & H2 & H3 & _ & H5). cbv zeta in H1, H2, H3, H5.
  destruct (PTZController.zoom_to_target bbox_height desired track_id (snd p)) as [z hz].
  cbn [fst snd] in *. subst z. cbn. auto.
Qed.

(** X26, witness: the first pointing of the controller at rest, then a zoom
    request from a 100 pixel to a 200 pixel target. *)
Lemma track_and_zoom_zoom_refused_witness :
  let p := PTZController.point_to_target 640 360 1280 720 None (Rest.heap 0) in
  let r := PTZController.track_and_zoom 640 360 100 1280 720 200 None (Rest.heap 0) in
  fst r = Py.Ok (true, false)
  /\ World.wire (world (snd r)) = World.wire (world (snd p))
  /\ controller (snd r) = controller (snd p)
  /\ ptz (snd r) = ptz (snd p).
Proof.
  apply (track_and_zoom_zoom_refused (Rest.heap 0) 640 360 100 1280 720 200 None);
    vm_compute; reflexivity.
Defined.

(** ** The configuration loader and the detector's class table *)

Section Config.

Import ConfigLoader.

Context {Scalar : Type}.

Implicit Types (value default : Value Scalar) (keys : list string).

Lemma split_nonempty (s : string) : split s <> [].
Proof.
  destruct s as [|c rest]; cbn [split]; [discriminate|].
  destruct (Ascii.eqb c dot); [discriminate|].
  destruct (split rest); discriminate.
Qed.

Lemma split_no_dot (s : string) : has_dot s = false -> split s = [s].
Proof.
  induction s as [|c rest IH]; cbn [split has_dot]; [reflexivity|].
  intros H. apply orb_false_iff in H as [Hc Hrest]. rewrite Hc, (IH Hrest). reflexivity.
Qed.

Lemma split_dotted (p q : string) : split (dotted p q) = split p ++ split q.
Proof.
  unfold dotted. induction p as [|c p IH].
  - change (split (String dot q) = [EmptyString] ++ split q).
    cbn [split]. rewrite Ascii.eqb_refl. reflexivity.
  - change (split (String c (String.append p (String dot q))) = split (String c p) ++ split q).
    cbn [split]. destruct (Ascii.eqb c dot).
    + rewrite IH. reflexivity.
    + rewrite IH. pose proof (split_nonempty p) as Hne.
      destruct (split p) as [|first others]; [contradiction|]. reflexivity.
Qed.

Lemma walk_resolve keys :
  forall value default,
    walk keys value default
    = match resolve keys value with Some v => v | None => default end.
Proof.
  induction keys as [|key rest IH]; intros value default; cbn [walk resolve];
    [reflexivity|].
  destruct value as [items|scalar]; [|reflexivity].
  destruct (lookup key items); [apply IH|reflexivity].
Qed.

Lemma resolve_app keys1 keys2 :
  forall value,
    resolve (keys1 ++ keys2) value
    = match resolve keys1 value with Some v => resolve keys2 v | None => None end.
Proof.
  induction keys1 as [|key rest IH]; intros value; cbn [app resolve]; [reflexivity|].
  destruct value as [items|scalar]; [|reflexivity].
  destruct (lookup key items); [apply IH|reflexivity].
Qed.

(** X27.  [get] follows a dotted path one key at a time: it returns the value
    the keys lead to and [default] as soon as a key is missing or the value
    reached is not a mapping; so [get] of 'p.q' is [get] of 'q' in the value
    of 'p' when 'p' leads to a value, and [default] otherwise (it does not
    look 'q' up in [default]). *)
Theorem get_follows_dotted_path (_config default : Value Scalar) (p q : string) :
  get _config p default
  = match resolve (split p) _config with Some v => v | None => default end
  /\ get _config (dotted p q) default
     = match resolve (split p) _config with
       | Some v => get v q default
       | None => default
       end.
Proof.
  unfold get. split; [apply walk_resolve|].
  rewrite split_dotted, !walk_resolve, resolve_app.
  destruct (resolve (split p) _config); [symmetry; apply walk_resolve|reflexivity].
Qed.

(** X28.  For a section name without a '.', [get_section] on a document that is
    a mapping returns what [get] returns with default [{}]; on a document
    that is not a mapping (an empty file gives [None]) [get] returns its
    default while [get_section] raises [AttributeError]. *)
Theorem get_section_agrees_with_get :
  (forall items section,
     has_dot section = false ->
     get_section (Dict items) section
     = Returned (get (Dict items : Value Scalar) section (Dict [])))
  /\ (forall scalar key_path default,
        get (Other scalar : Value Scalar) key_path default = default
        /\ get_section (Other scalar : Value Scalar) key_path = AttributeError).
Proof.
  split.
  - intros items section Hno. unfold get, get_section.
    rewrite (split_no_dot section Hno). cbn [walk].
    destruct (lookup section items); reflexivity.
  - intros scalar key_path default. split; [|reflexivity].
    unfold get. pose proof (split_nonempty key_path) as Hne.
    destruct (split key_path); [contradiction|reflexivity].
Qed.

End Config.

(** X29.  The detector asks the model for the COCO classes 2, 3, 5 and 7 and
    maps 2 to CAR, 3 to MOTORCYCLE (the second entry for key 3 of the dict
    display replaces the first, which said CAR), 5 to BUS, 7 to TRUCK and
    every other class id to UNKNOWN. *)
Theorem vehicle_class_table :
  VehicleDetector.requested_classes = [2; 3; 5; 7]
  /\ forall class_id,
       VehicleDetector.vehicle_class_of class_id
       = if class_id =? 2 then CAR
         else if class_id =? 3 then MOTORCYCLE
         else if class_id =? 5 then BUS
         else if class_id =? 7 then TRUCK
         else UNKNOWN.
Proof.
  split; [reflexivity|]. intros class_id. unfold VehicleDetector.vehicle_class_of.
  change VehicleDetector.VEHICLE_CLASSES
    with [(2, CAR); (3, MOTORCYCLE); (5, BUS); (7, TRUCK)].
  cbn [List.find fst].
  rewrite !(Z.eqb_sym _ class_id).
  destruct (class_id =? 2); [reflexivity|].
  destruct (class_id =? 3); [reflexivity|].
  destruct (class_id =? 5); [reflexivity|].
  destruct (class_id =? 7); reflexivity.
Qed.
